(** * The eo-learn workshop notebooks: tasks, predicates and bounding-box glue

    A shallow embedding of the Python cells of [notebooks/workshop.ipynb],
    [notebooks/timelapse.ipynb], the [eo-learn] basics notebook and the
    water-level notebook, together with the facts their narration states.

    Conventions of the embedding.
    - A NumPy array is its shape and its elements in row-major (C) order.
      An element is the rational it denotes: [bool] is [0]/[1], the integer
      dtypes embed into [Q], a finite float is its value.  Comparisons of
      finite floats are exact, so [Qlt]/[Qle] decide the same way.
    - Arithmetic on floats rounds: every quotient, difference and product of
      Python [float]s and of float arrays is the exact result rounded to the
      nearest number of the format, ties to even (module [float]).  Counting
      and summing integers is exact.
    - Python exceptions are an error result; code that mutates the patch it
      was handed threads the patch explicitly and returns it beside the
      outcome, so the state left behind by a raised exception is visible.
    - What the notebooks call and the repository does not contain
      ([skimage]'s Otsu threshold, [imageio]'s writer, the container's
      [del]) is a parameter of the code that calls it. *)

From Stdlib Require Import QArith Qminmax Qround Qabs Qpower Qreduction Lqa Lia ZArith List.
From Stdlib Require PrimFloat FloatOps SpecFloat.
From stdpp Require Import gmap strings list.

Local Open Scope nat_scope.

(** ** Exceptions and results *)

Inductive exn :=
  | ValueError | KeyError | IndexError | TypeError | ZeroDivisionError
  | OverflowError | AttributeError | OSError.

Inductive result (A : Type) :=
| Ok (a : A)
| Raise (e : exn).
Arguments Ok {A} a.
Arguments Raise {A} e.

Definition rbind {A B} (r : result A) (k : A -> result B) : result B :=
  match r with
  | Ok a => k a
  | Raise e => Raise e
  end.

Fixpoint rmap {A B} (f : A -> result B) (l : list A) : result (list B) :=
  match l with
  | [] => Ok []
  | x :: l' =>
      rbind (f x) (fun y => rbind (rmap f l') (fun ys => Ok (y :: ys)))
  end.

(** ** Binary floating point *)

Module float.

(** A binary format: the number of significant bits, the exponent of its
    smallest positive number and the exponent of its largest binade. *)
Record format := mk_format { prec : Z; emin : Z; emax : Z }.

(** Python's [float] and NumPy's [float64]. *)
Definition binary64 : format := mk_format 53 (-1074) 1023.

(** NumPy's [float32]. *)
Definition binary32 : format := mk_format 24 (-149) 127.

(** The exponent [e] with [2^e <= x < 2^(e+1)], for a positive [x]. *)
Definition ilog2 (x : Q) : Z :=
  let e := (Z.log2 (Qnum x) - Z.log2 (Zpos (Qden x)))%Z in
  if Qle_bool (2 ^ e) x then e else (e - 1)%Z.

(** The integer nearest to [x]; of two equally near ones, the even one. *)
Definition rne (x : Q) : Z :=
  let f := Qfloor x in
  match (x - inject_Z f ?= 1 # 2)%Q with
  | Lt => f
  | Gt => (f + 1)%Z
  | Eq => if Z.even f then f else (f + 1)%Z
  end.

(** The exponent of the unit in the last place at [x]: [prec] bits below
    the leading one, and never below the smallest positive number (gradual
    underflow). *)
Definition ulp_exp (f : format) (x : Q) : Z :=
  Z.max (ilog2 (Qabs x) - prec f + 1) (emin f).

(** Rounding to nearest, ties to even: the magnitude is rounded to a
    multiple of the unit in the last place and the sign is put back.  The
    exponent is not bounded above here; [finite] tells whether the result is
    a number of the format or stands for an overflow. *)
Definition round (f : format) (x : Q) : Q :=
  if Qeq_bool x 0 then 0%Q
  else
    let e := ulp_exp f x in
    let m := rne (Qabs x / 2 ^ e) in
    Qred (inject_Z (if Qle_bool 0 x then m else - m) * 2 ^ e).

(** The largest finite number of the format. *)
Definition largest (f : format) : Q :=
  (inject_Z (2 ^ prec f - 1) * 2 ^ (emax f - prec f + 1))%Q.

Definition finite (f : format) (x : Q) : bool := Qle_bool (Qabs x) (largest f).

(** [x] is a finite number of the format. *)
Definition representable (f : format) (x : Q) : Prop :=
  (round f x == x)%Q /\ finite f x = true.

(** The rational a primitive binary64 float denotes, when it is finite. *)
Definition of_prim (x : PrimFloat.float) : option Q :=
  match FloatOps.Prim2SF x with
  | SpecFloat.S754_zero _ => Some 0%Q
  | SpecFloat.S754_finite s m e =>
      Some (Qred (inject_Z (if s then Z.neg m else Z.pos m) * 2 ^ e))
  | _ => None
  end.

(** The primitive float of a small natural number. *)
Fixpoint prim_nat (n : nat) : PrimFloat.float :=
  match n with
  | 0 => PrimFloat.zero
  | S n' => PrimFloat.add (prim_nat n') PrimFloat.one
  end.

End float.

(** ** NumPy *)

Module np.

Record ndarray := mk_ndarray { shape : list nat; data : list Q }.

(** Number of elements a shape announces. *)
Definition prod (s : list nat) : nat := fold_right Nat.mul 1 s.

Definition ndim (a : ndarray) : nat := length (shape a).

(** [np.size(a)] *)
Definition size (a : ndarray) : nat := prod (shape a).

(** The buffer holds exactly the elements the shape announces. *)
Definition well_shaped (a : ndarray) : bool :=
  length (data a) =? prod (shape a).

Definition nonzero (x : Q) : bool := negb (Qeq_bool x 0).

Fixpoint count_nz (l : list Q) : nat :=
  match l with
  | [] => 0
  | x :: l' => (if nonzero x then 1 else 0) + count_nz l'
  end.

(** [np.count_nonzero(a)]: a Python [int]. *)
Definition count_nonzero (a : ndarray) : nat := count_nz (data a).

Definition qsum (l : list Q) : Q := fold_right Qplus 0%Q l.

(** [np.sum(a)] of a boolean or integer array: a NumPy integer scalar. *)
Definition sum (a : ndarray) : Q := qsum (data a).

(** The first [n] consecutive blocks of [k] elements of a buffer. *)
Fixpoint chunks (k n : nat) (l : list Q) : list (list Q) :=
  match n with
  | 0 => []
  | S n' => take k l :: chunks k n' (drop k l)
  end.

(** [for x in a]: the sub-arrays along the first axis.  A 0-d array is not
    iterable. *)
Definition iter (a : ndarray) : result (list ndarray) :=
  match shape a with
  | [] => Raise TypeError
  | n :: s => Ok (map (mk_ndarray s) (chunks (prod s) n (data a)))
  end.

(** [np.asarray([a0, a1, ...])] for sub-arrays of one common shape; the
    empty list gives an array of shape [(0,)]. *)
Definition stack (l : list ndarray) : ndarray :=
  match l with
  | [] => mk_ndarray [0] []
  | a :: _ => mk_ndarray (length l :: shape a) (concat (map data l))
  end.

(** [np.asarray([x0, x1, ...])] for scalars. *)
Definition of_scalars (l : list Q) : ndarray := mk_ndarray [length l] l.

(** [a.reshape(s)] *)
Definition reshape (a : ndarray) (s : list nat) : result ndarray :=
  if prod s =? size a then Ok (mk_ndarray s (data a)) else Raise ValueError.

(** [a[..., np.newaxis]] *)
Definition newaxis_last (a : ndarray) : ndarray :=
  mk_ndarray (shape a ++ [1]) (data a).

(** Splits a shape into its leading axes and its last axis. *)
Definition split_last (s : list nat) : option (list nat * nat) :=
  match rev s with
  | [] => None
  | c :: r => Some (rev r, c)
  end.

(** [a[..., i]] for a non-negative integer [i]. *)
Definition index_last (i : nat) (a : ndarray) : result ndarray :=
  match split_last (shape a) with
  | None => Raise IndexError
  | Some (s, c) =>
      if i <? c
      then Ok (mk_ndarray s
                 (map (fun row => nth i row 0%Q) (chunks c (prod s) (data a))))
      else Raise IndexError
  end.

(** [a[..., [i0, i1, ...]]] for non-negative integers: every index is
    checked against the length of the last axis. *)
Definition take_last (idx : list nat) (a : ndarray) : result ndarray :=
  match split_last (shape a) with
  | None => Raise IndexError
  | Some (s, c) =>
      if forallb (fun i => i <? c) idx
      then Ok (mk_ndarray (s ++ [length idx])
                 (concat (map (fun row => map (fun i => nth i row 0%Q) idx)
                              (chunks c (prod s) (data a)))))
      else Raise IndexError
  end.

Definition of_bool (b : bool) : Q := if b then 1%Q else 0%Q.

(** [x > y] on finite floats. *)
Definition Qgtb (x y : Q) : bool := negb (Qle_bool x y).

(** [a > thr] for a scalar [thr]: a boolean array of the shape of [a]. *)
Definition greater (a : ndarray) (thr : Q) : ndarray :=
  mk_ndarray (shape a) (map (fun x => of_bool (Qgtb x thr)) (data a)).

(** Inserts a value into a strictly increasing list, keeping it so. *)
Fixpoint insert_unique (x : Q) (u : list Q) : list Q :=
  match u with
  | [] => [x]
  | y :: u' =>
      if Qeq_bool x y then u
      else if Qle_bool x y then x :: u
      else y :: insert_unique x u'
  end.

(** [np.unique(a)]: the sorted distinct elements. *)
Definition unique (a : ndarray) : list Q :=
  fold_right insert_unique [] (data a).

(** *** Broadcasting *)

(** Left-pads a shape with axes of length one up to [n] axes. *)
Definition pad_shape (n : nat) (s : list nat) : list nat :=
  repeat 1 (n - length s) ++ s.

(** The common shape of two shapes of equal length, axis by axis. *)
Fixpoint broadcast_shapes (s1 s2 : list nat) : result (list nat) :=
  match s1, s2 with
  | [], [] => Ok []
  | a :: s1', b :: s2' =>
      rbind (broadcast_shapes s1' s2') (fun s =>
        if a =? b then Ok (a :: s)
        else if a =? 1 then Ok (b :: s)
        else if b =? 1 then Ok (a :: s)
        else Raise ValueError)
  | _, _ => Raise ValueError
  end.

(** The buffer of an array of shape [src] viewed at shape [target]: an
    axis of length one is repeated, any other axis is traversed. *)
Fixpoint broadcast_data (target src : list nat) (d : list Q) : list Q :=
  match target, src with
  | t :: ts, s :: ss =>
      if s =? t
      then concat (map (broadcast_data ts ss) (chunks (prod ss) t d))
      else concat (repeat (broadcast_data ts ss d) t)
  | _, _ => d
  end.

Fixpoint zip_with_Q (f : Q -> Q -> Q) (l1 l2 : list Q) : list Q :=
  match l1, l2 with
  | x :: l1', y :: l2' => f x y :: zip_with_Q f l1' l2'
  | _, _ => []
  end.

(** [a * b] *)
Definition multiply (a b : ndarray) : result ndarray :=
  let n := Nat.max (ndim a) (ndim b) in
  let sa := pad_shape n (shape a) in
  let sb := pad_shape n (shape b) in
  rbind (broadcast_shapes sa sb) (fun s =>
    Ok (mk_ndarray s
          (zip_with_Q Qmult (broadcast_data s sa (data a))
                            (broadcast_data s sb (data b))))).

(** [np.clip(a, lo, hi)] is [minimum(maximum(a, lo), hi)]. *)
Definition clip (a : ndarray) (lo hi : Q) : ndarray :=
  mk_ndarray (shape a) (map (fun x => Qmin (Qmax x lo) hi) (data a)).

(** The float dtypes. *)
Inductive dtype := float32 | float64.

Definition format_of (d : dtype) : float.format :=
  match d with
  | float32 => float.binary32
  | float64 => float.binary64
  end.

(** [a * k] for an array [a] of float dtype [d] and a Python number [k]:
    the scalar is taken to the dtype of the array and each product is
    rounded in it.  (A product beyond the largest finite number is [inf] in
    NumPy and stays the rounded rational here; [np.clip], which is what the
    notebooks apply to a product, sends both to its upper bound.) *)
Definition scale (d : dtype) (a : ndarray) (k : Q) : ndarray :=
  let f := format_of d in
  mk_ndarray (shape a)
    (map (fun x => float.round f (x * float.round f k)) (data a)).

(** The 256 values of [uint8]. *)
Definition wrap_uint8 (z : Z) : Z := (z mod 256)%Z.

(** Rounding toward zero. *)
Definition Qtruncate (x : Q) : Z := Z.quot (Qnum x) (Zpos (Qden x)).

(** [np.array(a, dtype=np.uint8)] of a float array: the fraction is
    dropped (rounding toward zero); a value outside [0..255] has no
    portable result and is kept modulo [2^8] here. *)
Definition astype_uint8 (a : ndarray) : ndarray :=
  mk_ndarray (shape a)
    (map (fun x => inject_Z (wrap_uint8 (Qtruncate x))) (data a)).

(** *** Floating-point quotients *)

(** The value of a NumPy float division, which does not raise. *)
Inductive npfloat := Fin (q : Q) | PInf | NInf | NaN.

(** [s / n] for a NumPy integer scalar [s] and a Python [int] [n >= 0]:
    both are converted to [float64] and divided there. *)
Definition true_divide (s : Q) (n : nat) : npfloat :=
  if n =? 0
  then match (s ?= 0)%Q with Eq => NaN | Gt => PInf | Lt => NInf end
  else
    let r := float.round float.binary64 in
    let q := r (r s / r (inject_Z (Z.of_nat n)))%Q in
    if float.finite float.binary64 q then Fin q
    else if Qle_bool 0 q then PInf else NInf.

(** [x <= m] for a finite [m]; comparisons with [nan] are false. *)
Definition le_float (x : npfloat) (m : Q) : bool :=
  match x with
  | Fin q => Qle_bool q m
  | NInf => true
  | PInf | NaN => false
  end.

(** [np.apply_along_axis(f, 1, a)] for a two-dimensional [a] and a
    scalar-valued [f]: one call per row, and no row at all is an error.
    (The notebooks only call it on the result of a 2-D reshape.) *)
Definition apply_along_axis_1 (f : ndarray -> result Q) (a : ndarray)
  : result ndarray :=
  match shape a with
  | [t; k] =>
      if t =? 0 then Raise ValueError
      else rbind (rmap f (map (mk_ndarray [k]) (chunks k t (data a))))
                 (fun ys => Ok (of_scalars ys))
  | _ => Raise ValueError
  end.

(** *** Boolean arrays *)

(** [a.astype(np.bool)] *)
Definition astype_bool (a : ndarray) : ndarray :=
  mk_ndarray (shape a) (map (fun x => of_bool (nonzero x)) (data a)).

(** [np.logical_not(a)] *)
Definition logical_not (a : ndarray) : ndarray :=
  mk_ndarray (shape a) (map (fun x => of_bool (negb (nonzero x))) (data a)).

Definition and_Q (x y : Q) : Q := of_bool (nonzero x && nonzero y).

(** [np.logical_and(a, b)] *)
Definition logical_and (a b : ndarray) : result ndarray :=
  let n := Nat.max (ndim a) (ndim b) in
  let sa := pad_shape n (shape a) in
  let sb := pad_shape n (shape b) in
  rbind (broadcast_shapes sa sb) (fun s =>
    Ok (mk_ndarray s
          (zip_with_Q and_Q (broadcast_data s sa (data a))
                            (broadcast_data s sb (data b))))).

(** [x < y] on finite floats. *)
Definition Qltb (x y : Q) : bool := negb (Qle_bool y x).

(** [a < thr] for a scalar [thr]. *)
Definition less (a : ndarray) (thr : Q) : ndarray :=
  mk_ndarray (shape a) (map (fun x => of_bool (Qltb x thr)) (data a)).

(** The entries of [l] at the positions where [mask] is true. *)
Fixpoint compress {A} (mask : list Q) (l : list A) : list A :=
  match mask, l with
  | m :: mask', x :: l' =>
      if nonzero m then x :: compress mask' l' else compress mask' l'
  | _, _ => []
  end.

(** [a[mask]] for a one-dimensional boolean [mask]: the sub-arrays along
    the first axis where the mask is true; the mask must be as long as that
    axis. *)
Definition select (mask a : ndarray) : result ndarray :=
  match shape mask, shape a with
  | [m], n :: s =>
      if m =? n
      then Ok (mk_ndarray (count_nz (data mask) :: s)
                 (concat (compress (data mask) (chunks (prod s) n (data a)))))
      else Raise IndexError
  | _, _ => Raise IndexError
  end.

End np.

(** Python's [a / b] on [int]s: the quotient correctly rounded to a
    [float]. *)
Definition py_div (a b : nat) : result Q :=
  if b =? 0 then Raise ZeroDivisionError
  else
    let q := float.round float.binary64
               (inject_Z (Z.of_nat a) / inject_Z (Z.of_nat b)) in
    if float.finite float.binary64 q then Ok q else Raise OverflowError.

(** Python's [x - y], [x + y] and [x * y] on [float]s.  (Beyond the
    largest finite number the result is [inf]; the differences, sums and
    products of the notebooks stay far below.) *)
Definition py_sub (x y : Q) : Q := float.round float.binary64 (x - y).
Definition py_add (x y : Q) : Q := float.round float.binary64 (x + y).
Definition py_mul (x y : Q) : Q := float.round float.binary64 (x * y).

(** ** The [EOPatch] container of [eo-learn] *)

Module eolearn.

(** The feature types whose slot is a dictionary from names to values.
    (The bounding box and the timestamps are single slots of the patch.) *)
Inductive FeatureType :=
  | DATA | MASK | SCALAR | LABEL | VECTOR
  | DATA_TIMELESS | MASK_TIMELESS | SCALAR_TIMELESS | LABEL_TIMELESS
  | VECTOR_TIMELESS | META_INFO.

#[global] Instance FeatureType_eq_dec : EqDecision FeatureType.
Proof. solve_decision. Defined.

Definition FeatureType_code (ft : FeatureType) : nat :=
  match ft with
  | DATA => 0 | MASK => 1 | SCALAR => 2 | LABEL => 3 | VECTOR => 4
  | DATA_TIMELESS => 5 | MASK_TIMELESS => 6 | SCALAR_TIMELESS => 7
  | LABEL_TIMELESS => 8 | VECTOR_TIMELESS => 9 | META_INFO => 10
  end.

Definition FeatureType_of_code (n : nat) : FeatureType :=
  match n with
  | 0 => DATA | 1 => MASK | 2 => SCALAR | 3 => LABEL | 4 => VECTOR
  | 5 => DATA_TIMELESS | 6 => MASK_TIMELESS | 7 => SCALAR_TIMELESS
  | 8 => LABEL_TIMELESS | 9 => VECTOR_TIMELESS | _ => META_INFO
  end.

#[global] Instance FeatureType_countable : Countable FeatureType.
Proof.
  apply (inj_countable' FeatureType_code FeatureType_of_code).
  intros []; reflexivity.
Defined.

(** What a slot can hold: a NumPy array, a [geopandas.GeoDataFrame]
    (of which only the column names matter here) or any other object. *)
Inductive value :=
  | Array (a : np.ndarray)
  | GeoDataFrame (columns : list string)
  | PyObject (repr : string).

(** A feature is named by its type and its name. *)
Abbreviation feature_key := (FeatureType * string)%type.

Record EOPatch := mk_EOPatch {
  features : gmap feature_key value;
  bbox : option (Q * Q * Q * Q);
  timestamp : list Z
  }.

Definition with_features (p : EOPatch) (m : gmap feature_key value) : EOPatch :=
  mk_EOPatch m (bbox p) (timestamp p).

(** The number of axes each raster feature type mandates
    (the [Shape] column of the feature-type table:
    [t x n x m x d], [t x d], [n x m x d], [d]). *)
Definition raster_ndim (ft : FeatureType) : option nat :=
  match ft with
  | DATA | MASK => Some 4
  | SCALAR | LABEL => Some 2
  | DATA_TIMELESS | MASK_TIMELESS => Some 3
  | SCALAR_TIMELESS | LABEL_TIMELESS => Some 1
  | VECTOR | VECTOR_TIMELESS | META_INFO => None
  end.

Definition has_column (c : string) (cols : list string) : bool :=
  existsb (String.eqb c) cols.

(** Modelled from the spec: the container's check of a value against the
    feature type it is stored under ("shape-by-category"); its code is in
    the [eo-learn] package.  A raster type takes an array with the number of
    axes of the feature-type table.  A vector type takes a [GeoDataFrame]; of
    the columns the table lists the container looks for [TIMESTAMP] only,
    under the time-dependent type. *)
Definition admissible (ft : FeatureType) (v : value) : bool :=
  match raster_ndim ft, v with
  | Some k, Array a => np.ndim a =? k
  | Some _, _ => false
  | None, _ =>
      match ft, v with
      | VECTOR, GeoDataFrame cols => has_column "TIMESTAMP" cols
      | VECTOR_TIMELESS, GeoDataFrame _ => true
      | META_INFO, _ => true
      | _, _ => false
      end
  end.

(** Code that reads and mutates one patch and may raise. *)
Definition M (A : Type) : Type := EOPatch -> result A * EOPatch.

Definition ret {A} (a : A) : M A := fun p => (Ok a, p).

Definition bind {A B} (m : M A) (k : A -> M B) : M B :=
  fun p =>
    match m p with
    | (Ok a, p') => k a p'
    | (Raise e, p') => (Raise e, p')
    end.

Definition lift {A} (r : result A) : M A := fun p => (r, p).

(** Modelled from the spec: [eopatch[ft][name]], [eopatch[(ft, name)]],
    [eopatch.get_feature(ft, name)]; a missing name is a [KeyError]. *)
Definition get_feature (k : feature_key) : M value :=
  fun p =>
    match features p !! k with
    | Some v => (Ok v, p)
    | None => (Raise KeyError, p)
    end.

(** Modelled from the spec: [eopatch[ft][name] = v],
    [eopatch[(ft, name)] = v], [eopatch.add_feature(ft, name, v)]; the
    value is checked first and a rejected value raises [ValueError]
    before anything is written. *)
Definition set_feature (k : feature_key) (v : value) : M unit :=
  fun p =>
    if admissible (fst k) v
    then (Ok tt, with_features p (<[k := v]> (features p)))
    else (Raise ValueError, p).

(** [del eopatch[(ft, name)]] is the container's [__delitem__].  Neither
    the notebooks nor the spec say what it does with such a key (the basics
    notebook deletes through the inner dictionary,
    [del eopatch[FeatureType.DATA]['BANDS']]), so the code that uses it takes
    it as a parameter.  The two containers Python allows for:

    one that implements [__delitem__] as removal of the feature, a missing
    feature being a [KeyError]; *)
Definition delitem_removes (k : feature_key) : M unit :=
  fun p =>
    match features p !! k with
    | Some _ => (Ok tt, with_features p (delete k (features p)))
    | None => (Raise KeyError, p)
    end.

(** and one whose class has [__setitem__] but no [__delitem__]: the
    statement raises [AttributeError] and the patch is as it was. *)
Definition delitem_unsupported (k : feature_key) : M unit :=
  fun p => (Raise AttributeError, p).

(** The array held by a raster slot; array operations on any other
    object are a [TypeError]. *)
Definition as_array (v : value) : result np.ndarray :=
  match v with
  | Array a => Ok a
  | _ => Raise TypeError
  end.

Definition valid_value (ft : FeatureType) (v : value) : bool :=
  admissible ft v &&
  match v with
  | Array a => np.well_shaped a
  | _ => true
  end.

(** Modelled from the spec: the container's invariant that every stored
    value fits the type it is stored under. *)
Definition wf (p : EOPatch) : Prop :=
  map_Forall (fun (k : feature_key) v => valid_value (fst k) v = true)
             (features p).

End eolearn.

Notation "'let*' x ':=' m 'in' k" := (eolearn.bind m (fun x => k))
  (at level 10, x name, m at level 100, k at level 200, only parsing).
Notation "'run' m 'then' k" := (eolearn.bind m (fun _ => k))
  (at level 10, m at level 100, k at level 200, only parsing).

Import eolearn.

(** ** [notebooks/workshop.ipynb] *)

Module workshop.

(** [np.zeros(s)] *)
Definition zeros (s : list nat) : np.ndarray :=
  np.mk_ndarray s (repeat 0%Q (np.prod s)).

(** The cell
<<
    try:
        patch.data['timeless_example'] = timeless_data
    except ValueError as e:
        print(e)
>>
    The third component lists the exceptions the handler printed. *)
Definition try_timeless_example (timeless_data : np.ndarray) (patch : EOPatch)
  : result unit * EOPatch * list exn :=
  match set_feature (DATA, "timeless_example") (Array timeless_data) patch with
  | (Ok tt, patch') => (Ok tt, patch', [])
  | (Raise ValueError, patch') => (Ok tt, patch', [ValueError])
  | (Raise e, patch') => (Raise e, patch', [])
  end.

(** The rectangle [minx, miny, maxx, maxy]. *)
Record bounds := mk_bounds { b_minx : Q; b_miny : Q; b_maxx : Q; b_maxy : Q }.

Definition inflate_bbox : Q := 1 # 10.

(** The cell that inflates [dam_nominal.bounds] into [dam_bbox], in exact
    arithmetic; the names are rebound in the order of the cell. *)
Definition dam_bbox (nominal_bounds : bounds) : bounds :=
  let '(mk_bounds minx miny maxx maxy) := nominal_bounds in
  let delx := (maxx - minx)%Q in
  let dely := (maxy - miny)%Q in
  let minx := (minx - delx * inflate_bbox)%Q in
  let maxx := (maxx + delx * inflate_bbox)%Q in
  let miny := (miny - dely * inflate_bbox)%Q in
  let maxy := (maxy + dely * inflate_bbox)%Q in
  mk_bounds minx miny maxx maxy.

(** The same cell as Python runs it, on [float]s: [inflate_bbox] is the
    [float] of the literal [0.1] and every operation rounds. *)
Definition dam_bbox_float (nominal_bounds : bounds) : bounds :=
  let inflate_bbox := float.round float.binary64 (1 # 10) in
  let '(mk_bounds minx miny maxx maxy) := nominal_bounds in
  let delx := py_sub maxx minx in
  let dely := py_sub maxy miny in
  let minx := py_sub minx (py_mul delx inflate_bbox) in
  let maxx := py_add maxx (py_mul delx inflate_bbox) in
  let miny := py_sub miny (py_mul dely inflate_bbox) in
  let maxy := py_add maxy (py_mul dely inflate_bbox) in
  mk_bounds minx miny maxx maxy.

(** [calculate_coverage]: [1.0 - np.count_nonzero(array) / np.size(array)] *)
Definition calculate_coverage (array : np.ndarray) : result Q :=
  rbind (py_div (np.count_nonzero array) (np.size array))
        (fun q => Ok (py_sub 1 q)).

(** [AddValidDataCoverage.execute] *)
Definition AddValidDataCoverage_execute : M unit :=
  let* v := get_feature (MASK, "VALID_DATA") in
  let* valid_data := lift (as_array v) in
  match np.shape valid_data with
  | [time; height; width; channels] =>
      let* flat :=
        lift (np.reshape valid_data [time; height * width * channels]) in
      let* coverage := lift (np.apply_along_axis_1 calculate_coverage flat) in
      run set_feature (SCALAR, "COVERAGE") (Array (np.newaxis_last coverage))
      then ret tt
  | _ => lift (Raise ValueError)
  end.

Section WaterDetector.

(** [skimage.filters.threshold_otsu], applied only to arrays with at
    least two distinct values. *)
Variable threshold_otsu : np.ndarray -> Q.

(** [WaterDetector.detect_water] *)
Definition detect_water (ndwi : np.ndarray) : np.ndarray :=
  let otsu_thr := 1%Q in
  let otsu_thr :=
    if 1 <? length (np.unique ndwi) then threshold_otsu ndwi else otsu_thr in
  np.greater ndwi otsu_thr.

(** [WaterDetector.execute].  The patch is not written between the
    reads of [mask_timeless['NOMINAL_WATER']], so one read stands for
    all of them. *)
Definition WaterDetector_execute : M unit :=
  let* v := get_feature (DATA, "NDWI") in
  let* ndwi_stack := lift (as_array v) in
  let* images := lift (np.iter ndwi_stack) in
  let* masks :=
    lift (rmap (fun ndwi =>
                  rbind (np.index_last 0 ndwi) (fun band => Ok (detect_water band)))
               images) in
  let water_masks := np.stack masks in
  let* nv := get_feature (MASK_TIMELESS, "NOMINAL_WATER") in
  let* nominal := lift (as_array nv) in
  let* water_masks := lift (np.multiply (np.newaxis_last water_masks) nominal) in
  let* per_date := lift (np.iter water_masks) in
  let* levels :=
    lift (rmap (fun mask =>
                  py_div (np.count_nonzero mask) (np.count_nonzero nominal))
               per_date) in
  let water_levels := np.of_scalars levels in
  run set_feature (MASK, "WATER_MASK") (Array water_masks) then
  run set_feature (SCALAR, "WATER_LEVEL") (Array (np.newaxis_last water_levels)) then
  ret tt.

End WaterDetector.

(** The cell [patch.data_timeless['timeless_example'] = timeless_data] *)
Definition store_timeless_example (timeless_data : np.ndarray) : M unit :=
  set_feature (DATA_TIMELESS, "timeless_example") (Array timeless_data).

(** [calculate_valid_data_mask] *)
Definition calculate_valid_data_mask : M np.ndarray :=
  let* v := get_feature (MASK, "IS_DATA") in
  let* is_data := lift (as_array v) in
  let* v' := get_feature (MASK, "CLM") in
  let* clm := lift (as_array v') in
  lift (np.logical_and (np.astype_bool is_data)
                       (np.logical_not (np.astype_bool clm))).

Record ValidDataCoveragePredicate := mk_ValidDataCoveragePredicate { threshold : Q }.

(** [ValidDataCoveragePredicate.__call__] *)
Definition ValidDataCoveragePredicate_call (self : ValidDataCoveragePredicate)
           (array : np.ndarray) : result bool :=
  rbind (calculate_coverage array) (fun q => Ok (np.Qltb q (threshold self))).

(** [eopatch.timestamp] *)
Definition get_timestamp : M (list Z) := fun p => (Ok (timestamp p), p).

(** [eopatch.scalar['COVERAGE'][...,0] < max_coverage] *)
Definition coverage_below (max_coverage : Q) : M np.ndarray :=
  let* v := get_feature (SCALAR, "COVERAGE") in
  let* coverage := lift (as_array v) in
  let* first := lift (np.index_last 0 coverage) in
  ret (np.less first max_coverage).

(** [dates[mask]] for the one-dimensional array of the timestamps. *)
Definition select_dates (mask : np.ndarray) (dates : list Z) : result (list Z) :=
  match np.shape mask with
  | [m] => if m =? length dates then Ok (np.compress (np.data mask) dates)
           else Raise IndexError
  | _ => Raise IndexError
  end.

(** What [plot_water_levels] hands to the two calls of [ax.plot]: the
    dates and the water levels of the first curve, the dates and the
    coverages of the second. *)
Record curves := mk_curves {
  level_dates : list Z;
  levels : np.ndarray;
  coverage_dates : list Z;
  coverages : np.ndarray
}.

(** [plot_water_levels]: the arguments of the two [ax.plot] calls, each
    evaluated from left to right. *)
Definition plot_water_levels (max_coverage : Q) : M curves :=
  let* dates := get_timestamp in
  let* mask1 := coverage_below max_coverage in
  let* x1 := lift (select_dates mask1 dates) in
  let* v := get_feature (SCALAR, "WATER_LEVEL") in
  let* water_level := lift (as_array v) in
  let* mask2 := coverage_below max_coverage in
  let* y1 := lift (np.select mask2 water_level) in
  let* mask3 := coverage_below max_coverage in
  let* x2 := lift (select_dates mask3 dates) in
  let* v' := get_feature (SCALAR, "COVERAGE") in
  let* coverage := lift (as_array v') in
  let* mask4 := coverage_below max_coverage in
  let* y2 := lift (np.select mask4 coverage) in
  ret (mk_curves x1 y1 x2 y2).

End workshop.

(** ** The water-level notebook *)

Module water_level.

(** [coverage]: [1.0 - np.count_nonzero(array)/np.size(array)] *)
Definition coverage (array : np.ndarray) : result Q :=
  rbind (py_div (np.count_nonzero array) (np.size array))
        (fun q => Ok (py_sub 1 q)).

(** [AddValidDataCoverage.execute]: the rows have
    [vld.shape[1] * vld.shape[2]] elements. *)
Definition AddValidDataCoverage_execute : M unit :=
  let* v := get_feature (MASK, "VALID_DATA") in
  let* vld := lift (as_array v) in
  match np.shape vld with
  | s0 :: s1 :: s2 :: _ =>
      let* flat := lift (np.reshape vld [s0; s1 * s2]) in
      let* cvrg := lift (np.apply_along_axis_1 coverage flat) in
      run set_feature (SCALAR, "COVERAGE") (Array (np.newaxis_last cvrg))
      then ret tt
  | _ => lift (Raise IndexError)
  end.

(** [ValidDataPredicate.__call__] *)
Definition ValidDataPredicate_call : M np.ndarray :=
  let* v := get_feature (MASK, "IS_DATA") in
  let* is_data := lift (as_array v) in
  let* v' := get_feature (MASK, "CLM") in
  let* clm := lift (as_array v') in
  lift (np.logical_and (np.astype_bool is_data)
                       (np.logical_not (np.astype_bool clm))).

End water_level.

(** ** The [eo-learn] basics notebook *)

Module basics.

Record RenameFeature := mk_RenameFeature {
  feature : feature_key;
  new_feature : feature_key
  }.

Section RenameFeature.

(** The container's [__delitem__]. *)
Variable delitem : feature_key -> M unit.

(** [RenameFeature.execute] *)
Definition RenameFeature_execute (self : RenameFeature) : M unit :=
  let* v := get_feature (feature self) in
  run set_feature (new_feature self) v then
  run delitem (feature self) then
  ret tt.

End RenameFeature.

End basics.

(** ** [notebooks/timelapse.ipynb] *)

Module timelapse.

Record TimeLapseTask := mk_TimeLapseTask {
  project_dir : string;
  filename : string;
  fps : Q;
  brightness_factor : Q
  }.

Definition size_of_uint8 : Q := 255.

(** [os.path.join(a, b)] *)
Definition os_path_join (a b : string) : string :=
  if String.prefix "/" b then b
  else if String.eqb a "" then b
  else if String.eqb (String.substring (String.length a - 1) 1 a) "/"
       then String.append a b
  else String.append a (String.append "/" b).

Section TimeLapseTask.

(** [imageio.get_writer(path, mode='I', fps=fps)]: whether the file can be
    opened for writing is up to [imageio] and the file system. *)
Variable get_writer : string -> Q -> result unit.

(** The float dtype of [data['BANDS-S2-L1C']]. *)
Variable dtype : np.dtype.

(** The frame appended for one image of the stack. *)
Definition rgb_frame (self : TimeLapseTask) (image : np.ndarray)
  : result np.ndarray :=
  rbind (np.take_last [3; 2; 1] image) (fun rgb_image =>
    Ok (np.astype_uint8
          (np.scale dtype
             (np.clip (np.scale dtype rgb_image (brightness_factor self)) 0 1)
             size_of_uint8))).

(** The body of the [for] loop over the images: [written] is the content
    of the GIF so far, and stays as it is when an image raises. *)
Fixpoint append_frames (self : TimeLapseTask) (images : list np.ndarray)
         (written : list np.ndarray) : result unit * list np.ndarray :=
  match images with
  | [] => (Ok tt, written)
  | image :: rest =>
      match rgb_frame self image with
      | Ok frame => append_frames self rest (written ++ [frame])
      | Raise e => (Raise e, written)
      end
  end.

(** [TimeLapseTask.execute]: the outcome, the patch afterwards and the
    frames of the GIF file, which the writer opens empty.  The writer is
    opened before the patch is read. *)
Definition TimeLapseTask_execute (self : TimeLapseTask) (eopatch : EOPatch)
  : result unit * EOPatch * list np.ndarray :=
  match get_writer (os_path_join (project_dir self) (filename self)) (fps self) with
  | Raise e => (Raise e, eopatch, [])
  | Ok _ =>
      match (let* v := get_feature (DATA, "BANDS-S2-L1C") in
             let* bands := lift (as_array v) in
             lift (np.iter bands)) eopatch with
      | (Ok images, eopatch') =>
          let '(r, written) := append_frames self images [] in
          (r, eopatch', written)
      | (Raise e, eopatch') => (Raise e, eopatch', [])
      end
  end.

End TimeLapseTask.

Record CloudCoverageFilter := mk_CloudCoverageFilter { max_cc : Q }.

(** [CloudCoverageFilter.__call__] *)
Definition CloudCoverageFilter_call (self : CloudCoverageFilter)
           (cloud_mask : np.ndarray) : result bool :=
  match np.shape cloud_mask with
  | [height; width; _] =>
      let cloud_coverage := np.true_divide (np.sum cloud_mask) (height * width) in
      Ok (np.le_float cloud_coverage (max_cc self))
  | _ => Raise ValueError
  end.

End timelapse.

(** ** Vocabulary of the statements *)

(** Number of elements equal to zero. *)
Fixpoint count_zeros (l : list Q) : nat :=
  match l with
  | [] => 0
  | x :: l' => (if Qeq_bool x 0 then 1 else 0) + count_zeros l'
  end.

(** The exact quotient of two counts, and the [float] nearest to it. *)
Definition nat_quot (a b : nat) : Q :=
  (inject_Z (Z.of_nat a) / inject_Z (Z.of_nat b))%Q.

Definition float_quot (a b : nat) : Q := float.round float.binary64 (nat_quot a b).

(** A Python [float]: a finite number of binary64. *)
Definition is_float (x : Q) : Prop := float.representable float.binary64 x.

(** [r] contains [b]. *)
Definition contains (r b : workshop.bounds) : Prop :=
  (workshop.b_minx r <= workshop.b_minx b)%Q /\
  (workshop.b_miny r <= workshop.b_miny b)%Q /\
  (workshop.b_maxx b <= workshop.b_maxx r)%Q /\
  (workshop.b_maxy b <= workshop.b_maxy r)%Q.

(** The corners of a rectangle are in order, as the bounds of a geometry are. *)
Definition ordered (b : workshop.bounds) : Prop :=
  (workshop.b_minx b <= workshop.b_maxx b)%Q /\
  (workshop.b_miny b <= workshop.b_maxy b)%Q.

Definition width_of (b : workshop.bounds) : Q :=
  (workshop.b_maxx b - workshop.b_minx b)%Q.

Definition height_of (b : workshop.bounds) : Q :=
  (workshop.b_maxy b - workshop.b_miny b)%Q.

(** Two elements of a buffer differ. *)
Definition two_distinct (l : list Q) : Prop :=
  exists x y, In x l /\ In y l /\ ~ (x == y)%Q.

(** What renaming [feature self] into [new_feature self] is to achieve on a
    patch that holds [feature self]: the task returns, the value is under the
    new name, the old name is gone and nothing else has changed. *)
Definition renamed (delitem : feature_key -> M unit)
           (self : basics.RenameFeature) (p : EOPatch) : Prop :=
  forall v,
    features p !! basics.feature self = Some v ->
    exists p',
      basics.RenameFeature_execute delitem self p = (Ok tt, p') /\
      features p' !! basics.new_feature self = Some v /\
      features p' !! basics.feature self = None /\
      (forall k, k <> basics.feature self -> k <> basics.new_feature self ->
                 features p' !! k = features p !! k) /\
      bbox p' = bbox p /\ timestamp p' = timestamp p.

(** The patch after [eopatch[k] = v]. *)
Definition assigned (k : feature_key) (v : value) (p : EOPatch) : EOPatch :=
  with_features p (<[k := v]> (features p)).

(** The container removes the feature [k] of [p] on [del], and nothing else. *)
Definition removes (delitem : feature_key -> M unit) (k : feature_key) (p : EOPatch)
  : Prop :=
  delitem k p = (Ok tt, with_features p (delete k (features p))).

(** The container refuses [del] on [p] with [e] and leaves [p] as it is. *)
Definition refuses (delitem : feature_key -> M unit) (k : feature_key) (p : EOPatch)
           (e : exn) : Prop :=
  delitem k p = (Raise e, p).

(** The byte written for a band value [x] of a stack of dtype [d] under
    brightness factor [bf]: scaled, clipped to [0, 1], multiplied by 255,
    fraction dropped; the two products are rounded in the dtype. *)
Definition rgb_pixel (d : np.dtype) (bf x : Q) : Z :=
  let r := float.round (np.format_of d) in
  Qfloor (r (Qmin (Qmax (r (x * r bf)%Q) 0) 1 * 255)%Q).

(** [frame] is the picture of bands 3, 2, 1 of [image]. *)
Definition is_rgb_frame (d : np.dtype) (bf : Q) (image frame : np.ndarray) : Prop :=
  exists rgb,
    np.take_last [3; 2; 1] image = Ok rgb /\
    np.shape frame = np.shape rgb /\
    np.data frame = map (fun x => inject_Z (rgb_pixel d bf x)) (np.data rgb).

(** Every element is one of the integers 0..255. *)
Definition pixels_in_range (frame : np.ndarray) : Prop :=
  Forall (fun x => exists z : Z, x = inject_Z z /\ (0 <= z <= 255)%Z) (np.data frame).

(** The sub-arrays of [a] along its first axis, when it has one. *)
Definition slices (a : np.ndarray) : list np.ndarray :=
  match np.iter a with
  | Ok l => l
  | Raise _ => []
  end.

(** [a.flatten()]: the elements of [a] as a one-dimensional array. *)
Definition flatten (a : np.ndarray) : np.ndarray :=
  np.mk_ndarray [np.size a] (np.data a).

(** What a coverage task is to achieve on a patch whose valid-data mask is
    [vd]: it returns, [SCALAR 'COVERAGE'] holds one row per date with the
    value of [cov] on that date's flattened slice, and the features listed by
    [kept] are as before. *)
Definition coverage_added (cov : np.ndarray -> result Q) (execute : M unit)
           (kept : EOPatch -> feature_key -> Prop)
           (p : EOPatch) (vd : np.ndarray) : Prop :=
  exists p' c,
    execute p = (Ok tt, p') /\
    features p' !! (SCALAR, "COVERAGE"%string) = Some (Array c) /\
    np.shape c = [length (slices vd); 1] /\
    Forall2 (fun slice q => cov (flatten slice) = Ok q) (slices vd) (np.data c) /\
    (forall k, kept p k -> features p' !! k = features p !! k) /\
    bbox p' = bbox p /\ timestamp p' = timestamp p.

(** The features a patch holds. *)
Definition pre_existing (p : EOPatch) (k : feature_key) : Prop :=
  is_Some (features p !! k).

(** The features other than the coverage itself. *)
Definition other_than_coverage (p : EOPatch) (k : feature_key) : Prop :=
  k <> (SCALAR, "COVERAGE"%string).

(** A pixel is valid when it has data and is not cloud. *)
Definition valid_pixel (is_data clm : Q) : bool :=
  np.nonzero is_data && negb (np.nonzero clm).

(** The mask of the valid pixels of two masks of one shape. *)
Definition valid_mask (is_data clm : np.ndarray) : np.ndarray :=
  np.mk_ndarray (np.shape is_data)
    (np.zip_with_Q (fun x y => np.of_bool (valid_pixel x y))
                   (np.data is_data) (np.data clm)).

(** [inner] is zero wherever [outer] is. *)
Definition within (inner outer : list Q) : Prop :=
  forall i x, inner !! i = Some x ->
              exists n, outer !! i = Some n /\ ((n == 0)%Q -> (x == 0)%Q).


(** The entries of [xs] whose companion in [qs] is strictly below [m]. *)
Definition below {A} (m : Q) (qs : list Q) (xs : list A) : list A :=
  map fst (List.filter (fun xq => np.Qltb (snd xq) m) (combine xs qs)).

(** * Properties *)

(** ** Rounding to nearest *)

Section Rounding.

Local Open Scope Q_scope.

Lemma pow2_pos (e : Z) : 0 < 2 ^ e.
Proof. apply Qpower_0_lt. reflexivity. Qed.

Lemma pow2_nz (e : Z) : ~ 2 ^ e == 0.
Proof. intros H. pose proof (pow2_pos e) as P. rewrite H in P. discriminate P. Qed.

Lemma pow2_add (a b : Z) : 2 ^ (a + b) == 2 ^ a * 2 ^ b.
Proof. apply Qpower_plus. discriminate. Qed.

Lemma pow2_sub (a b : Z) : 2 ^ (a - b) == 2 ^ a / 2 ^ b.
Proof.
  unfold Z.sub. rewrite pow2_add, Qpower_opp. reflexivity.
Qed.

Lemma pow2_le (a b : Z) : (a <= b)%Z -> 2 ^ a <= 2 ^ b.
Proof. intros H. apply Qpower_le_compat_l; [exact H | discriminate]. Qed.

Lemma pow2_lt_inv (a b : Z) : 2 ^ a < 2 ^ b -> (a < b)%Z.
Proof. intros H. apply (Qpower_lt_compat_l_inv 2); [exact H | reflexivity]. Qed.

Lemma pow2_Z (n : Z) : (0 <= n)%Z -> 2 ^ n == inject_Z (2 ^ n).
Proof. intros H. rewrite Zpower_Qpower by exact H. reflexivity. Qed.

Lemma ilog2_spec (x : Q) :
  0 < x -> 2 ^ float.ilog2 x <= x /\ x < 2 ^ (float.ilog2 x + 1).
Proof.
  intros Hx. unfold float.ilog2.
  destruct x as [n d]. simpl Qnum. simpl Qden.
  assert (Hn : (0 < n)%Z) by (unfold Qlt in Hx; simpl in Hx; lia).
  set (a := Z.log2 n). set (b := Z.log2 (Z.pos d)).
  destruct (Z.log2_spec n Hn) as [Ha1 Ha2]. fold a in Ha1, Ha2.
  destruct (Z.log2_spec (Z.pos d) ltac:(lia)) as [Hb1 Hb2]. fold b in Hb1, Hb2.
  assert (Ha0 : (0 <= a)%Z) by apply Z.log2_nonneg.
  assert (Hb0 : (0 <= b)%Z) by apply Z.log2_nonneg.
  assert (Hlo : 2 ^ (a - b - 1) < n # d).
  { replace (a - b - 1)%Z with (a - (b + 1))%Z by lia.
    rewrite pow2_sub, (pow2_Z a), (pow2_Z (b + 1)) by lia.
    apply Qlt_shift_div_r.
    - change 0 with (inject_Z 0). rewrite <- Zlt_Qlt. lia.
    - unfold Qlt, Qmult, inject_Z. simpl.
      replace (Z.succ b) with (b + 1)%Z in Hb2 by lia. nia. }
  assert (Hhi : n # d < 2 ^ (a - b + 1)).
  { replace (a - b + 1)%Z with (a + 1 - b)%Z by lia.
    rewrite pow2_sub, (pow2_Z (a + 1)), (pow2_Z b) by lia.
    apply Qlt_shift_div_l.
    - change 0 with (inject_Z 0). rewrite <- Zlt_Qlt. lia.
    - unfold Qlt, Qmult, inject_Z. simpl.
      replace (Z.succ a) with (a + 1)%Z in Ha2 by lia. nia. }
  destruct (Qle_bool (2 ^ (a - b)) (n # d)) eqn:E.
  - apply Qle_bool_iff in E. split; assumption.
  - split.
    + apply Qlt_le_weak. exact Hlo.
    + replace (a - b - 1 + 1)%Z with (a - b)%Z by lia.
      apply Qnot_le_lt. intros H. apply Qle_bool_iff in H. congruence.
Qed.

Lemma ilog2_unique (x : Q) (e : Z) :
  0 < x -> 2 ^ e <= x -> x < 2 ^ (e + 1) -> float.ilog2 x = e.
Proof.
  intros Hx H1 H2. destruct (ilog2_spec x Hx) as [S1 S2].
  assert (A : (float.ilog2 x < e + 1)%Z).
  { apply pow2_lt_inv. eapply Qle_lt_trans; eassumption. }
  assert (B : (e < float.ilog2 x + 1)%Z).
  { apply pow2_lt_inv. eapply Qle_lt_trans; eassumption. }
  lia.
Qed.

Lemma ilog2_le (x y : Q) : 0 < x -> x <= y -> (float.ilog2 x <= float.ilog2 y)%Z.
Proof.
  intros Hx Hxy.
  assert (Hy : 0 < y) by (eapply Qlt_le_trans; eassumption).
  destruct (ilog2_spec x Hx) as [S1 _]. destruct (ilog2_spec y Hy) as [_ S2].
  assert (A : (float.ilog2 x < float.ilog2 y + 1)%Z).
  { apply pow2_lt_inv. eapply Qle_lt_trans; [exact S1|].
    eapply Qle_lt_trans; eassumption. }
  lia.
Qed.

Lemma ilog2_compat (x y : Q) : 0 < x -> x == y -> float.ilog2 x = float.ilog2 y.
Proof.
  intros Hx E. assert (Hy : 0 < y) by (rewrite <- E; exact Hx).
  destruct (ilog2_spec y Hy) as [S1 S2].
  apply ilog2_unique; [exact Hx | rewrite E; exact S1 | rewrite E; exact S2].
Qed.

Lemma rne_compat (x y : Q) : x == y -> float.rne x = float.rne y.
Proof.
  intros E. unfold float.rne.
  assert (Ef : Qfloor x = Qfloor y) by (apply Qfloor_comp; exact E).
  rewrite Ef.
  assert (Ec : (x - inject_Z (Qfloor y) ?= 1 # 2) = (y - inject_Z (Qfloor y) ?= 1 # 2)).
  { apply Qcompare_comp; [rewrite E; reflexivity | reflexivity]. }
  rewrite Ec. reflexivity.
Qed.

Lemma rne_cases (x : Q) :
  let f := Qfloor x in
  (float.rne x = f /\ x - inject_Z f <= 1 # 2 /\
   (x - inject_Z f == 1 # 2 -> Z.even f = true)) \/
  (float.rne x = (f + 1)%Z /\ 1 # 2 <= x - inject_Z f /\
   (x - inject_Z f == 1 # 2 -> Z.even f = false)).
Proof.
  intros f. unfold float.rne. fold f.
  destruct (Qcompare_spec (x - inject_Z f) (1 # 2)) as [E|L|G].
  - destruct (Z.even f) eqn:Ev.
    + left. split; [reflexivity|]. split; [rewrite E; apply Qle_refl | auto].
    + right. split; [reflexivity|]. split; [rewrite E; apply Qle_refl | auto].
  - left. split; [reflexivity|]. split; [apply Qlt_le_weak; exact L|].
    intros E. rewrite E in L. discriminate L.
  - right. split; [reflexivity|]. split; [apply Qlt_le_weak; exact G|].
    intros E. rewrite E in G. discriminate G.
Qed.

Lemma floor_bounds (x : Q) : inject_Z (Qfloor x) <= x /\ x < inject_Z (Qfloor x) + 1.
Proof.
  split; [apply Qfloor_le|].
  pose proof (Qlt_floor x) as H. rewrite inject_Z_plus in H. exact H.
Qed.

Lemma rne_Z (z : Z) : float.rne (inject_Z z) = z.
Proof.
  destruct (rne_cases (inject_Z z)) as [(E & _)|(E & H & _)]; rewrite Qfloor_Z in *.
  - exact E.
  - exfalso. lra.
Qed.

Lemma rne_le (x y : Q) : x <= y -> (float.rne x <= float.rne y)%Z.
Proof.
  intros Hxy. pose proof (Qfloor_resp_le x y Hxy) as Hf.
  destruct (floor_bounds x) as [X1 X2]. destruct (floor_bounds y) as [Y1 Y2].
  destruct (rne_cases x) as [(Ex & Hx & Tx)|(Ex & Hx & Tx)];
    destruct (rne_cases y) as [(Ey & Hy & Ty)|(Ey & Hy & Ty)];
    rewrite Ex, Ey; try lia.
  destruct (Z.eq_dec (Qfloor x) (Qfloor y)) as [E|N]; [|lia].
  exfalso. rewrite E in *.
  assert (Hhalf : x - inject_Z (Qfloor y) == 1 # 2) by lra.
  assert (Hhalf' : y - inject_Z (Qfloor y) == 1 # 2) by lra.
  specialize (Tx Hhalf). specialize (Ty Hhalf'). congruence.
Qed.

Lemma rne_error (x : Q) : Qabs (inject_Z (float.rne x) - x) <= 1 # 2.
Proof.
  destruct (floor_bounds x) as [X1 X2].
  apply Qabs_Qle_condition.
  destruct (rne_cases x) as [(E & H & _)|(E & H & _)]; rewrite E;
    try rewrite inject_Z_plus; change (inject_Z 1) with 1; split; lra.
Qed.

Lemma rne_nonneg (x : Q) : 0 <= x -> (0 <= float.rne x)%Z.
Proof.
  intros H. change 0%Z with (float.rne (inject_Z 0)). apply rne_le. exact H.
Qed.

Lemma Qabs_pos_nz (x : Q) : ~ x == 0 -> 0 < Qabs x.
Proof.
  intros H. destruct (Qlt_le_dec 0 (Qabs x)) as [L|G]; [exact L|].
  exfalso. apply H. apply Qabs_Qle_condition in G. lra.
Qed.

Section Round.

Variable f : float.format.
Hypothesis Hprec : (1 <= float.prec f)%Z.

Lemma round_0 : float.round f 0 = 0.
Proof. reflexivity. Qed.

Lemma ulp_exp_compat (x y : Q) :
  ~ x == 0 -> x == y -> float.ulp_exp f x = float.ulp_exp f y.
Proof.
  intros Hx E. unfold float.ulp_exp.
  rewrite (ilog2_compat (Qabs x) (Qabs y)); [reflexivity | | rewrite E; reflexivity].
  apply Qabs_pos_nz. exact Hx.
Qed.

Lemma round_compat (x y : Q) : x == y -> float.round f x = float.round f y.
Proof.
  intros E. unfold float.round.
  rewrite <- (Qeqb_comp x y E 0 0 (Qeq_refl 0)).
  destruct (Qeq_bool x 0) eqn:Hz; [reflexivity|].
  assert (Hx : ~ x == 0) by (intros H; apply Qeq_bool_iff in H; congruence).
  rewrite <- (ulp_exp_compat x y Hx E).
  rewrite <- (Qleb_comp 0 0 (Qeq_refl 0) x y E).
  rewrite (rne_compat (Qabs x / 2 ^ float.ulp_exp f x) (Qabs y / 2 ^ float.ulp_exp f x))
    by (apply Qdiv_comp; [apply Qabs_wd; exact E | reflexivity]).
  reflexivity.
Qed.

Lemma round_pos (x : Q) :
  0 < x ->
  float.round f x ==
  inject_Z (float.rne (x / 2 ^ float.ulp_exp f x)) * 2 ^ float.ulp_exp f x.
Proof.
  intros Hx. unfold float.round.
  destruct (Qeq_bool x 0) eqn:Hz.
  { apply Qeq_bool_iff in Hz. lra. }
  destruct (Qle_bool 0 x) eqn:Hs.
  - rewrite Qred_correct.
    rewrite (rne_compat (Qabs x / 2 ^ float.ulp_exp f x) (x / 2 ^ float.ulp_exp f x)).
    + reflexivity.
    + apply Qdiv_comp; [apply Qabs_pos; lra | reflexivity].
  - exfalso. assert (H : Qle_bool 0 x = true) by (apply Qle_bool_iff; lra). congruence.
Qed.

Lemma round_neg (x : Q) : x < 0 -> float.round f x == - float.round f (- x).
Proof.
  intros Hx.
  assert (Hnz : ~ x == 0) by lra.
  assert (Habs : Qabs x == - x) by (apply Qabs_neg; lra).
  assert (He : float.ulp_exp f x = float.ulp_exp f (- x)).
  { unfold float.ulp_exp.
    rewrite (ilog2_compat (Qabs x) (Qabs (- x))); [reflexivity | |].
    - apply Qabs_pos_nz. exact Hnz.
    - rewrite Qabs_opp. reflexivity. }
  rewrite (round_pos (- x)) by lra.
  unfold float.round.
  destruct (Qeq_bool x 0) eqn:Hz.
  { apply Qeq_bool_iff in Hz. lra. }
  destruct (Qle_bool 0 x) eqn:Hs.
  { apply Qle_bool_iff in Hs. lra. }
  rewrite Qred_correct. rewrite <- He.
  rewrite (rne_compat (Qabs x / 2 ^ float.ulp_exp f x) (- x / 2 ^ float.ulp_exp f x))
    by (apply Qdiv_comp; [exact Habs | reflexivity]).
  rewrite inject_Z_opp. ring.
Qed.

Lemma round_nonneg (x : Q) : 0 <= x -> 0 <= float.round f x.
Proof.
  intros Hx. destruct (Qlt_le_dec 0 x) as [L|G].
  - rewrite (round_pos x L). apply Qmult_le_0_compat.
    + change 0 with (inject_Z 0). rewrite <- Zle_Qle. apply rne_nonneg.
      apply Qle_shift_div_l; [apply pow2_pos | lra].
    + apply Qlt_le_weak, pow2_pos.
  - rewrite (round_compat x 0) by lra. rewrite round_0. apply Qle_refl.
Qed.

(** A multiple of a power of two on or above the grid of [x] bounds the
    rounding of [x] the way it bounds [x]. *)
Lemma grid_scale (m g g' : Z) :
  (g <= g')%Z -> inject_Z m * 2 ^ g' == inject_Z (m * 2 ^ (g' - g)) * 2 ^ g.
Proof.
  intros H. rewrite inject_Z_mult, <- pow2_Z by lia.
  rewrite <- Qmult_assoc, <- pow2_add.
  replace (g' - g + g)%Z with g' by lia. reflexivity.
Qed.

Lemma round_le_grid (x : Q) (m g' : Z) :
  0 < x -> (float.ulp_exp f x <= g')%Z ->
  x <= inject_Z m * 2 ^ g' -> float.round f x <= inject_Z m * 2 ^ g'.
Proof.
  intros Hx Hg Hle. rewrite (round_pos x Hx).
  set (g := float.ulp_exp f x) in *.
  rewrite (grid_scale m g g' Hg) in *.
  apply Qmult_le_compat_r; [|apply Qlt_le_weak, pow2_pos].
  rewrite <- Zle_Qle. rewrite <- (rne_Z (m * 2 ^ (g' - g))).
  apply rne_le. apply Qle_shift_div_r; [apply pow2_pos | exact Hle].
Qed.

Lemma grid_le_round (x : Q) (m g' : Z) :
  0 < x -> (float.ulp_exp f x <= g')%Z ->
  inject_Z m * 2 ^ g' <= x -> inject_Z m * 2 ^ g' <= float.round f x.
Proof.
  intros Hx Hg Hle. rewrite (round_pos x Hx).
  set (g := float.ulp_exp f x) in *.
  rewrite (grid_scale m g g' Hg) in *.
  apply Qmult_le_compat_r; [|apply Qlt_le_weak, pow2_pos].
  rewrite <- Zle_Qle. rewrite <- (rne_Z (m * 2 ^ (g' - g))) at 1.
  apply rne_le. apply Qle_shift_div_l; [apply pow2_pos | exact Hle].
Qed.

Lemma ulp_exp_pos (x : Q) :
  0 < x -> float.ulp_exp f x = Z.max (float.ilog2 x - float.prec f + 1) (float.emin f).
Proof.
  intros Hx. unfold float.ulp_exp.
  rewrite (ilog2_compat (Qabs x) x); [reflexivity | |].
  - rewrite Qabs_pos by lra. exact Hx.
  - apply Qabs_pos. lra.
Qed.

Lemma round_le_pos (x y : Q) : 0 < x -> x <= y -> float.round f x <= float.round f y.
Proof.
  intros Hx Hxy.
  assert (Hy : 0 < y) by lra.
  pose proof (ilog2_le x y Hx Hxy) as He.
  pose proof (ulp_exp_pos x Hx) as Gx. pose proof (ulp_exp_pos y Hy) as Gy.
  destruct (Z.eq_dec (float.ulp_exp f x) (float.ulp_exp f y)) as [E|N].
  - rewrite (round_pos x Hx), (round_pos y Hy), E.
    apply Qmult_le_compat_r; [|apply Qlt_le_weak, pow2_pos].
    rewrite <- Zle_Qle. apply rne_le.
    apply Qmult_le_compat_r; [exact Hxy|].
    apply Qlt_le_weak, Qinv_lt_0_compat, pow2_pos.
  - destruct (ilog2_spec x Hx) as [_ X2]. destruct (ilog2_spec y Hy) as [Y1 _].
    assert (Hlt : (float.ilog2 x < float.ilog2 y)%Z) by lia.
    apply Qle_trans with (inject_Z 1 * 2 ^ float.ilog2 y).
    + apply round_le_grid; [exact Hx | lia |].
      change (inject_Z 1) with 1. rewrite Qmult_1_l.
      apply Qlt_le_weak. eapply Qlt_le_trans; [exact X2|].
      apply pow2_le. lia.
    + apply grid_le_round; [exact Hy | lia |].
      change (inject_Z 1) with 1. rewrite Qmult_1_l. exact Y1.
Qed.

Lemma round_le (x y : Q) : x <= y -> float.round f x <= float.round f y.
Proof.
  intros Hxy.
  destruct (Qlt_le_dec 0 x) as [Px|Nx].
  - apply round_le_pos; assumption.
  - destruct (Qlt_le_dec y 0) as [Ny|Py].
    + rewrite (round_neg x) by lra. rewrite (round_neg y) by lra.
      apply Qopp_le_compat. apply round_le_pos; lra.
    + apply Qle_trans with 0; [|apply round_nonneg; exact Py].
      destruct (Qlt_le_dec x 0) as [L|G].
      * rewrite (round_neg x L).
        assert (H : 0 <= float.round f (- x)) by (apply round_nonneg; lra). lra.
      * rewrite (round_compat x 0) by lra. rewrite round_0. apply Qle_refl.
Qed.

(** Numbers of the format are left as they are. *)
Lemma round_grid (m g' : Z) :
  (Z.abs m < 2 ^ float.prec f)%Z -> (float.emin f <= g')%Z ->
  float.round f (inject_Z m * 2 ^ g') == inject_Z m * 2 ^ g'.
Proof.
  assert (Hposcase : forall m, (0 < m < 2 ^ float.prec f)%Z -> (float.emin f <= g')%Z ->
            float.round f (inject_Z m * 2 ^ g') == inject_Z m * 2 ^ g').
  { clear m. intros m Hm Hg.
    assert (Hx : 0 < inject_Z m * 2 ^ g').
    { apply Qmult_lt_0_compat; [|apply pow2_pos].
      change 0 with (inject_Z 0). rewrite <- Zlt_Qlt. lia. }
    assert (Hulp : (float.ulp_exp f (inject_Z m * 2 ^ g') <= g')%Z).
    { rewrite (ulp_exp_pos _ Hx).
      destruct (ilog2_spec _ Hx) as [S1 _].
      assert (Hlt : 2 ^ float.ilog2 (inject_Z m * 2 ^ g') < 2 ^ (float.prec f + g')).
      { eapply Qle_lt_trans; [exact S1|].
        rewrite pow2_add. apply Qmult_lt_compat_r; [apply pow2_pos|].
        rewrite pow2_Z by lia. rewrite <- Zlt_Qlt. lia. }
      apply pow2_lt_inv in Hlt. lia. }
    apply Qle_antisym.
    - apply round_le_grid; [exact Hx | exact Hulp | apply Qle_refl].
    - apply grid_le_round; [exact Hx | exact Hulp | apply Qle_refl]. }
  intros Hm Hg.
  destruct (Z.lt_trichotomy m 0) as [L|[E|G]].
  - assert (Hneg : inject_Z m * 2 ^ g' < 0).
    { assert (H : 0 < inject_Z (- m) * 2 ^ g').
      { apply Qmult_lt_0_compat; [|apply pow2_pos].
        change 0 with (inject_Z 0). rewrite <- Zlt_Qlt. lia. }
      rewrite inject_Z_opp in H. lra. }
    rewrite (round_neg _ Hneg).
    rewrite (round_compat (- (inject_Z m * 2 ^ g')) (inject_Z (- m) * 2 ^ g'))
      by (rewrite inject_Z_opp; ring).
    rewrite Hposcase by lia. rewrite inject_Z_opp. ring.
  - subst m. rewrite (round_compat _ 0) by ring. rewrite round_0. ring.
  - apply Hposcase; lia.
Qed.

Lemma round_Z (z : Z) :
  (float.emin f <= 0)%Z -> (Z.abs z < 2 ^ float.prec f)%Z ->
  float.round f (inject_Z z) == inject_Z z.
Proof.
  intros He Hz.
  rewrite (round_compat (inject_Z z) (inject_Z z * 2 ^ 0)) by (simpl; ring).
  rewrite (round_grid z 0 Hz He). simpl. ring.
Qed.

(** Rounding a number of the unit interval moves it by at most half a unit
    in the last place of the numbers just below one. *)
Lemma round_error_unit (x : Q) :
  (float.emin f <= - float.prec f)%Z ->
  0 <= x <= 1 ->
  Qabs (float.round f x - x) <= 2 ^ (- float.prec f - 1).
Proof.
  intros He [H0 H1].
  assert (Hp : 0 < 2 ^ (- float.prec f - 1)) by apply pow2_pos.
  destruct (Qlt_le_dec 0 x) as [Px|Nx].
  2:{ rewrite (round_compat x 0) by lra. rewrite round_0.
      apply Qabs_Qle_condition. split; lra. }
  destruct (Qlt_le_dec x 1) as [L1|G1].
  2:{ assert (E : x == inject_Z 1) by (change (inject_Z 1) with 1; lra).
      rewrite (round_compat x (inject_Z 1) E).
      rewrite round_Z; [| lia |].
      - apply Qabs_Qle_condition. change (inject_Z 1) with 1. split; lra.
      - simpl. apply Z.pow_gt_1; lia. }
  set (g := float.ulp_exp f x).
  assert (Hg : (g <= - float.prec f)%Z).
  { subst g. rewrite (ulp_exp_pos x Px).
    destruct (ilog2_spec x Px) as [S1 _].
    assert (Hlt : 2 ^ float.ilog2 x < 2 ^ 0) by (simpl; lra).
    apply pow2_lt_inv in Hlt. lia. }
  rewrite (round_pos x Px). fold g.
  set (y := x / 2 ^ g).
  assert (Ex : x == y * 2 ^ g).
  { subst y. field. apply pow2_nz. }
  assert (Ed : inject_Z (float.rne y) * 2 ^ g - x == (inject_Z (float.rne y) - y) * 2 ^ g).
  { rewrite Ex at 1. ring. }
  rewrite Ed, Qabs_Qmult, (Qabs_pos (2 ^ g)) by (apply Qlt_le_weak, pow2_pos).
  apply Qle_trans with ((1 # 2) * 2 ^ g).
  - apply Qmult_le_compat_r; [apply rne_error | apply Qlt_le_weak, pow2_pos].
  - replace (- float.prec f - 1)%Z with (-1 + - float.prec f)%Z by lia.
    rewrite pow2_add. change (2 ^ (-1)) with (1 # 2).
    apply Qmult_le_l; [reflexivity | apply pow2_le; exact Hg].
Qed.

End Round.

End Rounding.

(** ** The formats of Python and NumPy *)

Section Formats.

Local Open Scope Q_scope.

Lemma prec_format_of (d : np.dtype) : (1 <= float.prec (np.format_of d))%Z.
Proof. destruct d; discriminate. Qed.

Lemma emin_format_of (d : np.dtype) : (float.emin (np.format_of d) <= 0)%Z.
Proof. destruct d; discriminate. Qed.

#[global] Instance round_proper (f : float.format) :
  Proper (Qeq ==> Qeq) (float.round f).
Proof. intros x y E. rewrite (round_compat f x y E). reflexivity. Qed.

Lemma round_unit (f : float.format) (x : Q) :
  (1 <= float.prec f)%Z -> (float.emin f <= 0)%Z ->
  0 <= x <= 1 -> 0 <= float.round f x <= 1.
Proof.
  intros Hp He [H0 H1]. split; [apply round_nonneg; exact H0|].
  assert (E1 : float.round f (inject_Z 1) == inject_Z 1).
  { apply round_Z; [exact Hp | exact He |]. simpl. apply Z.pow_gt_1; lia. }
  change (inject_Z 1) with 1 in E1. rewrite <- E1.
  apply round_le; assumption.
Qed.

Lemma round64_le (x y : Q) :
  x <= y -> float.round float.binary64 x <= float.round float.binary64 y.
Proof. apply round_le. discriminate. Qed.

Lemma round64_unit (x : Q) : 0 <= x <= 1 -> 0 <= float.round float.binary64 x <= 1.
Proof. apply round_unit; discriminate. Qed.

Lemma round64_error_unit (x : Q) :
  0 <= x <= 1 -> x - 2 ^ (-54) <= float.round float.binary64 x <= x + 2 ^ (-54).
Proof.
  intros H.
  pose proof (round_error_unit float.binary64 ltac:(discriminate) x
                ltac:(discriminate) H) as E.
  apply Qabs_Qle_condition in E.
  change (2 ^ (- float.prec float.binary64 - 1)) with (2 ^ (-54)) in E.
  split; lra.
Qed.

Lemma finite_unit (x : Q) : 0 <= x <= 1 -> float.finite float.binary64 x = true.
Proof.
  intros [H0 H1]. unfold float.finite. apply Qle_bool_iff.
  rewrite Qabs_pos by exact H0.
  apply Qle_trans with 1; [exact H1|]. vm_compute. discriminate.
Qed.

(** A float compared with a number: the comparison is kept by rounding
    the number. *)
Lemma round64_le_float (x m : Q) :
  is_float m -> x <= m -> float.round float.binary64 x <= m.
Proof.
  intros [Hm _] H. rewrite <- Hm. apply round64_le. exact H.
Qed.

Lemma float_le_round64 (x m : Q) :
  is_float m -> m <= x -> m <= float.round float.binary64 x.
Proof.
  intros [Hm _] H. rewrite <- Hm. apply round64_le. exact H.
Qed.


End Formats.

(** The rounding agrees with the binary64 arithmetic of the machine on the
    quotients, differences and products that tell it from exact
    arithmetic. *)
Example round_one_third :
  let third := PrimFloat.div (float.prim_nat 1) (float.prim_nat 3) in
  float.of_prim third = Some (float.round float.binary64 (1 # 3)) /\
  float.of_prim (PrimFloat.sub (float.prim_nat 1) third)
  = Some (py_sub 1 (float.round float.binary64 (1 # 3))) /\
  float.of_prim (PrimFloat.mul third (float.prim_nat 3))
  = Some (py_mul (float.round float.binary64 (1 # 3)) 3).
Proof. vm_compute. repeat split. Qed.

Example round_four_fifths :
  float.of_prim (PrimFloat.sub (float.prim_nat 1)
                   (PrimFloat.div (float.prim_nat 4) (float.prim_nat 5)))
  = Some (py_sub 1 (float.round float.binary64 (4 # 5))) /\
  float.of_prim (PrimFloat.div (float.prim_nat 3) (float.prim_nat 10))
  = Some (float.round float.binary64 (3 # 10)) /\
  float.of_prim (PrimFloat.div (float.prim_nat 1) (float.prim_nat 10))
  = Some (float.round float.binary64 (1 # 10)).
Proof. vm_compute. repeat split. Qed.

(** ** Arithmetic of counts and quotients *)

Section Counting.

Lemma count_nz_zeros (l : list Q) :
  np.count_nz l + count_zeros l = length l.
Proof.
  induction l as [|x l IH]; simpl; [reflexivity|].
  unfold np.nonzero. destruct (Qeq_bool x 0); simpl; lia.
Qed.

Lemma count_nz_none (l : list Q) :
  np.count_nz l = 0 <-> Forall (fun x => (x == 0)%Q) l.
Proof.
  induction l as [|x l IH]; simpl.
  - split; [constructor | reflexivity].
  - unfold np.nonzero. destruct (Qeq_bool x 0) eqn:E; simpl.
    + apply Qeq_bool_iff in E. rewrite IH. split.
      * intros H. constructor; assumption.
      * intros H. inversion H; assumption.
    + split; [lia|]. intros H. inversion H as [|? ? Hx _]; subst.
      apply Qeq_bool_iff in Hx. congruence.
Qed.

Lemma count_nz_length (l : list Q) : np.count_nz l <= length l.
Proof.
  induction l as [|x l IH]; simpl; [lia|]. destruct (np.nonzero x); lia.
Qed.

Lemma nat_quot_bounds (a b : nat) :
  a <= b -> 0 < b -> (0 <= nat_quot a b <= 1)%Q.
Proof.
  intros Hab Hb. unfold nat_quot.
  assert (Hpos : (0 < inject_Z (Z.of_nat b))%Q).
  { replace 0%Q with (inject_Z 0) by reflexivity. rewrite <- Zlt_Qlt. lia. }
  split.
  - apply Qle_shift_div_l; [assumption|].
    rewrite Qmult_0_l. replace 0%Q with (inject_Z 0) by reflexivity.
    rewrite <- Zle_Qle. lia.
  - apply Qle_shift_div_r; [assumption|].
    rewrite Qmult_1_l. rewrite <- Zle_Qle. lia.
Qed.

Lemma nat_quot_complement (a b c : nat) :
  a + c = b -> 0 < b -> (1 - nat_quot a b == nat_quot c b)%Q.
Proof.
  intros Hsum Hb. unfold nat_quot.
  assert (Hnz : ~ (inject_Z (Z.of_nat b) == 0)%Q).
  { replace 0%Q with (inject_Z 0) by reflexivity. rewrite inject_Z_injective. lia. }
  subst b. rewrite Nat2Z.inj_add, inject_Z_plus in *.
  field. exact Hnz.
Qed.

Lemma nat_quot_le (a b n : nat) :
  a <= b -> 0 < n -> (nat_quot a n <= nat_quot b n)%Q.
Proof.
  intros Hab Hn. unfold nat_quot, Qdiv. apply Qmult_le_compat_r.
  - rewrite <- Zle_Qle. lia.
  - apply Qinv_le_0_compat. replace 0%Q with (inject_Z 0) by reflexivity.
    rewrite <- Zle_Qle. lia.
Qed.

Lemma float_quot_bounds (a b : nat) :
  a <= b -> 0 < b -> (0 <= float_quot a b <= 1)%Q.
Proof.
  intros Hab Hb. apply round64_unit, nat_quot_bounds; assumption.
Qed.

Lemma float_quot_le (a b n : nat) :
  a <= b -> 0 < n -> (float_quot a n <= float_quot b n)%Q.
Proof.
  intros Hab Hn. apply round64_le, nat_quot_le; assumption.
Qed.

(** A quotient of counts that is at most one does not overflow. *)
Lemma py_div_ok (a b : nat) : a <= b -> 0 < b -> py_div a b = Ok (float_quot a b).
Proof.
  intros Hab Hb. unfold py_div. destruct (Nat.eqb_spec b 0); [lia|].
  fold (nat_quot a b). fold (float_quot a b).
  rewrite (finite_unit _ (float_quot_bounds a b Hab Hb)). reflexivity.
Qed.

(** One minus the rounded quotient of two counts, rounded: what
    [calculate_coverage] computes from the two counts. *)
Lemma coverage_of_counts (a n : nat) :
  a <= n -> 0 < n ->
  (0 <= py_sub 1 (float_quot a n) <= 1)%Q /\
  (Qabs (py_sub 1 (float_quot a n) - (1 - nat_quot a n)) <= 2 ^ (-53))%Q.
Proof.
  intros Han Hn.
  pose proof (nat_quot_bounds a n Han Hn) as Hq.
  pose proof (float_quot_bounds a n Han Hn) as Hf.
  pose proof (round64_error_unit (nat_quot a n) Hq) as E1.
  fold (float_quot a n) in E1.
  assert (Hd : (0 <= 1 - float_quot a n <= 1)%Q) by (split; lra).
  pose proof (round64_error_unit _ Hd) as E2.
  pose proof (round64_unit _ Hd) as Hu.
  fold (py_sub 1 (float_quot a n)) in E2, Hu.
  split; [exact Hu|].
  apply Qabs_Qle_condition.
  change (2 ^ (-54))%Q with (1 # 18014398509481984)%Q in *.
  change (2 ^ (-53))%Q with (1 # 9007199254740992)%Q.
  split; lra.
Qed.

Lemma calculate_coverage_value (a : np.ndarray) :
  np.count_nonzero a <= np.size a ->
  0 < np.size a ->
  workshop.calculate_coverage a
  = Ok (py_sub 1 (float_quot (np.count_nonzero a) (np.size a))).
Proof.
  intros Hc H. unfold workshop.calculate_coverage.
  rewrite py_div_ok by assumption. reflexivity.
Qed.

Lemma count_nonzero_size (a : np.ndarray) :
  np.well_shaped a = true -> np.count_nonzero a <= np.size a.
Proof.
  intros Hws. apply Nat.eqb_eq in Hws. unfold np.count_nonzero, np.size.
  rewrite <- Hws. apply count_nz_length.
Qed.

End Counting.

(** ** The coverage of an array *)

(** C3 (as amended).  For every non-empty array, [calculate_coverage] (and
    [coverage] of the water-level notebook, which is the same expression)
    returns one minus the quotient of the number of non-zero elements by the
    number of elements, both operations rounded to a [float]; the result is
    within [2^-53] of the fraction of zero elements and lies between 0
    and 1. *)
Theorem calculate_coverage_fraction_of_zeros (array : np.ndarray) :
  np.well_shaped array = true ->
  0 < np.size array ->
  exists q : Q,
    workshop.calculate_coverage array = Ok q /\
    water_level.coverage array = Ok q /\
    q = py_sub 1 (float_quot (np.count_nonzero array) (np.size array)) /\
    (Qabs (q - nat_quot (count_zeros (np.data array)) (np.size array)) <= 2 ^ (-53))%Q /\
    (0 <= q <= 1)%Q.
Proof.
  intros Hws Hsz.
  pose proof (count_nonzero_size array Hws) as Hc.
  exists (py_sub 1 (float_quot (np.count_nonzero array) (np.size array))).
  split; [apply calculate_coverage_value; assumption|].
  split; [apply calculate_coverage_value; assumption|].
  split; [reflexivity|].
  destruct (coverage_of_counts _ _ Hc Hsz) as [Hu He].
  split; [|exact Hu].
  assert (Hq : (1 - nat_quot (np.count_nonzero array) (np.size array)
                == nat_quot (count_zeros (np.data array)) (np.size array))%Q).
  { apply nat_quot_complement; [|exact Hsz].
    apply Nat.eqb_eq in Hws. pose proof (count_nz_zeros (np.data array)) as H.
    unfold np.count_nonzero, np.size. lia. }
  rewrite <- Hq. exact He.
Qed.

Lemma calculate_coverage_fraction_of_zeros_witness :
  exists q : Q,
    workshop.calculate_coverage (np.mk_ndarray [2; 2] [1; 0; 0; 0]%Q) = Ok q /\
    (q == 3 # 4)%Q.
Proof.
  destruct (calculate_coverage_fraction_of_zeros (np.mk_ndarray [2; 2] [1; 0; 0; 0]%Q)
              eq_refl (le_n_S _ _ (le_0_n _))) as (q & Hq & _ & E & _).
  exists q. split; [exact Hq|]. rewrite E. vm_compute. reflexivity.
Defined.

(** C3 (as stated) fails: of the three elements [1, 0, 0] two are zero, and
    [1.0 - 1/3] is the float [0.66666666666666674], which is not two
    thirds (nor the float nearest to two thirds). *)
Lemma calculate_coverage_one_of_three :
  ~ (forall array,
        np.well_shaped array = true ->
        0 < np.size array ->
        exists q : Q,
          workshop.calculate_coverage array = Ok q /\
          (q == nat_quot (count_zeros (np.data array)) (np.size array))%Q).
Proof.
  intros H.
  destruct (H (np.mk_ndarray [3] [1; 0; 0]%Q) eq_refl (le_n_S _ _ (le_0_n _)))
    as (q & Hq & E).
  vm_compute in Hq. injection Hq as <-. vm_compute in E. discriminate E.
Qed.

(** The value on [1, 0, 0], beside the float nearest to two thirds. *)
Example calculate_coverage_two_thirds :
  workshop.calculate_coverage (np.mk_ndarray [3] [1; 0; 0]%Q)
  = Ok (3002399751580331 # 4503599627370496)%Q /\
  float.round float.binary64 (2 # 3) = (6004799503160661 # 9007199254740992)%Q.
Proof. vm_compute. split; reflexivity. Qed.

(** ** The inflated bounding box of the dam *)

(** C10.  With [inflate_bbox = 0.1] the box is
    [minx - 0.1*(maxx-minx), miny - 0.1*(maxy-miny),
     maxx + 0.1*(maxx-minx), maxy + 0.1*(maxy-miny)]; it contains the bounds
    it was made from, and each of its sides is 1.2 times the original side. *)
Theorem dam_bbox_inflation (minx miny maxx maxy : Q) :
  let b := workshop.mk_bounds minx miny maxx maxy in
  ordered b ->
  workshop.dam_bbox b =
    workshop.mk_bounds (minx - (maxx - minx) * (1 # 10)) (miny - (maxy - miny) * (1 # 10))
                       (maxx + (maxx - minx) * (1 # 10)) (maxy + (maxy - miny) * (1 # 10)) /\
  contains (workshop.dam_bbox b) b /\
  (width_of (workshop.dam_bbox b) == (12 # 10) * width_of b)%Q /\
  (height_of (workshop.dam_bbox b) == (12 # 10) * height_of b)%Q.
Proof.
  intros b [Hx Hy]. simpl in Hx, Hy.
  split; [reflexivity|].
  unfold contains, width_of, height_of, workshop.dam_bbox, workshop.inflate_bbox.
  simpl. repeat split; try lra; field.
Qed.

Lemma dam_bbox_inflation_witness :
  contains (workshop.dam_bbox (workshop.mk_bounds 0 0 10 20))
           (workshop.mk_bounds 0 0 10 20).
Proof.
  refine (proj1 (proj2 (dam_bbox_inflation 0 0 10 20 _))).
  split; simpl; unfold Qle; simpl; lia.
Defined.

(** ** The cloud-coverage filter *)







(** ** Values the container rejects *)

Lemma ndim_3_not_time_dependent (ft : FeatureType) (a : np.ndarray) :
  np.ndim a = 3 ->
  ft = DATA \/ ft = MASK \/ ft = SCALAR \/ ft = LABEL ->
  admissible ft (Array a) = false.
Proof.
  intros H Hft. unfold admissible.
  destruct Hft as [-> | [-> | [-> | ->]]]; simpl; rewrite H; reflexivity.
Qed.

(** C1.  An array of shape [n x m x d], which has no time axis, stored under
    a time-dependent raster type raises [ValueError]; in the cell of the
    notebook the handler catches and prints it, and the patch is as it was
    before the assignment. *)
Theorem timeless_array_rejected (patch : EOPatch) (timeless_data : np.ndarray)
        (n m d : nat) :
  np.shape timeless_data = [n; m; d] ->
  (forall ft name,
      ft = DATA \/ ft = MASK \/ ft = SCALAR \/ ft = LABEL ->
      set_feature (ft, name) (Array timeless_data) patch = (Raise ValueError, patch)) /\
  workshop.try_timeless_example timeless_data patch = (Ok tt, patch, [ValueError]).
Proof.
  intros Hsh.
  assert (Hnd : np.ndim timeless_data = 3) by (unfold np.ndim; rewrite Hsh; reflexivity).
  split.
  - intros ft name Hft. unfold set_feature. simpl fst.
    rewrite (ndim_3_not_time_dependent ft _ Hnd Hft). reflexivity.
  - unfold workshop.try_timeless_example, set_feature. simpl fst.
    rewrite (ndim_3_not_time_dependent DATA _ Hnd (or_introl eq_refl)). reflexivity.
Qed.

Lemma timeless_array_rejected_witness :
  workshop.try_timeless_example (workshop.zeros [10; 10; 13]) (mk_EOPatch ∅ None [])
  = (Ok tt, mk_EOPatch ∅ None [], [ValueError]).
Proof.
  exact (proj2 (timeless_array_rejected (mk_EOPatch ∅ None [])
                  (workshop.zeros [10; 10; 13]) 10 10 13 eq_refl)).
Defined.

(** ** Thresholding the NDWI *)

Section Unique.

Lemma insert_unique_in (z x : Q) (u : list Q) :
  Exists (Qeq z) (np.insert_unique x u) <-> (z == x)%Q \/ Exists (Qeq z) u.
Proof.
  induction u as [|y u IH]; simpl.
  - rewrite Exists_cons, Exists_nil. tauto.
  - destruct (Qeq_bool x y) eqn:Exy.
    + apply Qeq_bool_iff in Exy. rewrite Exists_cons. split; [tauto|].
      intros [Hz | H]; [left; rewrite Hz; exact Exy | exact H].
    + destruct (Qle_bool x y).
      * rewrite !Exists_cons. tauto.
      * rewrite !Exists_cons, IH. tauto.
Qed.

Lemma unique_in (z : Q) (l : list Q) :
  Exists (Qeq z) (fold_right np.insert_unique [] l) <-> Exists (Qeq z) l.
Proof.
  induction l as [|x l IH]; simpl; [reflexivity|].
  rewrite insert_unique_in, IH, Exists_cons. tauto.
Qed.

Lemma unique_two_distinct (l : list Q) :
  1 < length (fold_right np.insert_unique [] l) <-> two_distinct l.
Proof.
  split.
  - induction l as [|x l IH]; simpl; [lia|].
    intros Hlen.
    destruct (le_lt_dec (length (fold_right np.insert_unique [] l)) 1) as [Hsmall|Hbig].
    + destruct (fold_right np.insert_unique [] l) as [|z [|z' u]] eqn:Hu;
        simpl in Hlen, Hsmall; try lia.
      destruct (Qeq_bool x z) eqn:Exz; [simpl in Hlen; lia|].
      assert (Hz : Exists (Qeq z) l).
      { apply unique_in. rewrite Hu. constructor. reflexivity. }
      apply Exists_exists in Hz. destruct Hz as (y & Hy & Hzy).
      apply list_elem_of_In in Hy.
      exists x, y. repeat split; [left; reflexivity | right; exact Hy |].
      intros Hxy. assert (Hxz : (x == z)%Q) by (rewrite Hxy, Hzy; reflexivity).
      apply Qeq_bool_iff in Hxz. congruence.
    + destruct (IH Hbig) as (a & b & Ha & Hb & Hab).
      exists a, b. repeat split; [right; exact Ha | right; exact Hb | exact Hab].
  - intros (x & y & Hx & Hy & Hxy).
    assert (Hx' : Exists (Qeq x) (fold_right np.insert_unique [] l)).
    { apply unique_in, Exists_exists. exists x.
      split; [apply list_elem_of_In; exact Hx | reflexivity]. }
    assert (Hy' : Exists (Qeq y) (fold_right np.insert_unique [] l)).
    { apply unique_in, Exists_exists. exists y.
      split; [apply list_elem_of_In; exact Hy | reflexivity]. }
    destruct (fold_right np.insert_unique [] l) as [|z [|z' u]]; simpl; try lia.
    + inversion Hx'.
    + exfalso. apply Hxy.
      inversion Hx' as [? ? Hxz | ? ? Hn]; [|inversion Hn].
      inversion Hy' as [? ? Hyz | ? ? Hn]; [|inversion Hn].
      rewrite Hxz, Hyz. reflexivity.
Qed.

End Unique.

Lemma Qgtb_lt (x y : Q) : np.Qgtb x y = true <-> (y < x)%Q.
Proof.
  unfold np.Qgtb. rewrite negb_true_iff.
  destruct (Qle_bool x y) eqn:E.
  - apply Qle_bool_iff in E. split; [discriminate | intros H; exfalso; lra].
  - split; [intros _ | reflexivity].
    apply Qnot_le_lt. intros H. apply Qle_bool_iff in H. congruence.
Qed.

(** C2.  [detect_water] returns, in the shape of its argument, the mask of
    the pixels strictly above a threshold; the threshold is Otsu's when the
    array holds two different values and 1.0 when it does not, so that an
    array of one value that is at most 1.0 gives a mask without any
    [True]. *)
Theorem detect_water_threshold (threshold_otsu : np.ndarray -> Q) (ndwi : np.ndarray) :
  exists thr : Q,
    (two_distinct (np.data ndwi) -> thr = threshold_otsu ndwi) /\
    (~ two_distinct (np.data ndwi) -> thr = 1%Q) /\
    np.shape (workshop.detect_water threshold_otsu ndwi) = np.shape ndwi /\
    Forall2 (fun x m => exists b : bool, m = np.of_bool b /\ (b = true <-> (thr < x)%Q))
            (np.data ndwi) (np.data (workshop.detect_water threshold_otsu ndwi)) /\
    (~ two_distinct (np.data ndwi) ->
     Forall (fun x => (x <= 1)%Q) (np.data ndwi) ->
     Forall (fun m => m = np.of_bool false)
            (np.data (workshop.detect_water threshold_otsu ndwi))).
Proof.
  unfold workshop.detect_water, np.unique.
  pose proof (unique_two_distinct (np.data ndwi)) as Hu.
  set (thr := if 1 <? length (fold_right np.insert_unique [] (np.data ndwi))
              then threshold_otsu ndwi else 1%Q).
  assert (Hpix : forall l, Forall2
            (fun x m => exists b : bool, m = np.of_bool b /\ (b = true <-> (thr < x)%Q))
            l (map (fun x => np.of_bool (np.Qgtb x thr)) l)).
  { induction l as [|x l IH]; simpl; constructor; [|exact IH].
    exists (np.Qgtb x thr). split; [reflexivity | apply Qgtb_lt]. }
  exists thr. repeat split.
  - intros Hd. apply Hu in Hd. subst thr.
    destruct (Nat.ltb_spec 1 (length (fold_right np.insert_unique [] (np.data ndwi))));
      [reflexivity | lia].
  - intros Hnd. subst thr.
    destruct (Nat.ltb_spec 1 (length (fold_right np.insert_unique [] (np.data ndwi))));
      [exfalso; apply Hnd, Hu; assumption | reflexivity].
  - apply Hpix.
  - intros Hnd Hle. simpl.
    assert (Hthr : thr = 1%Q).
    { subst thr.
      destruct (Nat.ltb_spec 1 (length (fold_right np.insert_unique [] (np.data ndwi))));
        [exfalso; apply Hnd, Hu; assumption | reflexivity]. }
    rewrite Hthr. clear -Hle.
    induction Hle as [|x l Hx Hl IH]; simpl; constructor; [|exact IH].
    destruct (np.Qgtb x 1) eqn:E; [|reflexivity].
    apply Qgtb_lt in E. exfalso. lra.
Qed.

(** ** Renaming a feature *)

Lemma wf_lookup (p : EOPatch) (k : feature_key) (v : value) :
  wf p -> features p !! k = Some v -> valid_value (fst k) v = true.
Proof. intros Hwf Hk. exact (Hwf k v Hk). Qed.

Lemma wf_admissible (p : EOPatch) (k : feature_key) (v : value) :
  wf p -> features p !! k = Some v -> admissible (fst k) v = true.
Proof.
  intros Hwf Hk. pose proof (wf_lookup p k v Hwf Hk) as H.
  unfold valid_value in H. apply andb_true_iff in H. tauto.
Qed.

Lemma wf_singleton (k : feature_key) (v : value) b ts :
  valid_value (fst k) v = true -> wf (mk_EOPatch {[ k := v ]} b ts).
Proof.
  intros Hv k' v' Hk. simpl in Hk.
  apply lookup_singleton_Some in Hk. destruct Hk as [<- <-]. exact Hv.
Qed.

Section Rename.

Variable delitem : feature_key -> M unit.
Variable self : basics.RenameFeature.

(** After the assignment the outcome is that of the container's [del]. *)
Lemma rename_assigns (p : EOPatch) (v : value) :
  features p !! basics.feature self = Some v ->
  admissible (fst (basics.new_feature self)) v = true ->
  basics.RenameFeature_execute delitem self p =
    match delitem (basics.feature self) (assigned (basics.new_feature self) v p) with
    | (Ok _, p') => (Ok tt, p')
    | (Raise e, p') => (Raise e, p')
    end.
Proof.
  intros Hget Hadm.
  unfold basics.RenameFeature_execute, bind, get_feature, set_feature, ret, assigned.
  rewrite Hget, Hadm. reflexivity.
Qed.


Lemma rename_rejected (p : EOPatch) (v : value) :
  features p !! basics.feature self = Some v ->
  admissible (fst (basics.new_feature self)) v = false ->
  basics.RenameFeature_execute delitem self p = (Raise ValueError, p).
Proof.
  intros Hget Hadm. unfold basics.RenameFeature_execute, bind, get_feature, set_feature.
  rewrite Hget, Hadm. reflexivity.
Qed.

End Rename.

(** C7 (as amended).  When the patch holds [feature], [new_feature] is a
    different key and the value is one the container accepts under
    [new_feature]'s type -- as every value of a well-formed patch is when
    both keys have one feature type -- [RenameFeature.execute] stores the
    value under [new_feature] and then executes [del eopatch[feature]].  With
    a container whose [del] removes the feature, the task returns the patch
    with the value under [new_feature], without [feature], and with every
    other feature as before.  With a container that refuses the [del], the
    task raises the container's error after the assignment, and the patch
    holds the value under both keys. *)
Theorem rename_feature_moves (delitem : feature_key -> M unit)
        (self : basics.RenameFeature) (p : EOPatch) (v : value) :
  features p !! basics.feature self = Some v ->
  basics.new_feature self <> basics.feature self ->
  admissible (fst (basics.new_feature self)) v = true \/
  (wf p /\ fst (basics.new_feature self) = fst (basics.feature self)) ->
  let p1 := assigned (basics.new_feature self) v p in
  (removes delitem (basics.feature self) p1 -> renamed delitem self p) /\
  (forall e,
      refuses delitem (basics.feature self) p1 e ->
      basics.RenameFeature_execute delitem self p = (Raise e, p1) /\
      features p1 !! basics.new_feature self = Some v /\
      features p1 !! basics.feature self = Some v /\
      (forall k, k <> basics.new_feature self -> features p1 !! k = features p !! k)).
Proof.
  intros Hget Hne Hadm p1.
  assert (Ha : admissible (fst (basics.new_feature self)) v = true).
  { destruct Hadm as [H | [Hwf Hty]]; [exact H|].
    rewrite Hty. exact (wf_admissible p _ v Hwf Hget). }
  pose proof (rename_assigns delitem self p v Hget Ha) as Hrun. fold p1 in Hrun.
  split.
  - intros Hdel v' Hv'. rewrite Hget in Hv'. injection Hv' as <-.
    unfold removes in Hdel. rewrite Hdel in Hrun.
    eexists. split; [exact Hrun|]. simpl. repeat split.
    + rewrite lookup_delete_ne by (intros E; apply Hne; symmetry; exact E).
      apply lookup_insert_eq.
    + apply lookup_delete_eq.
    + intros k Hk1 Hk2.
      rewrite lookup_delete_ne by (intros E; apply Hk1; symmetry; exact E).
      apply lookup_insert_ne. intros E; apply Hk2; symmetry; exact E.
  - intros e Hdel. unfold refuses in Hdel. rewrite Hdel in Hrun.
    split; [exact Hrun|]. subst p1. simpl.
    split; [apply lookup_insert_eq|].
    split; [rewrite lookup_insert_ne by exact Hne; exact Hget|].
    intros k Hk. apply lookup_insert_ne. intros E; apply Hk; symmetry; exact E.
Qed.

(** The patch of the basics notebook after
    [new_eopatch[FeatureType.MASK_TIMELESS]['NEW_MASK'] = np.zeros((10, 10, 13))],
    in a container whose [del] removes. *)
Lemma rename_feature_moves_witness :
  renamed delitem_removes
          (basics.mk_RenameFeature (MASK_TIMELESS, "NEW_MASK") (MASK_TIMELESS, "MASK"))
          (mk_EOPatch {[ (MASK_TIMELESS, "NEW_MASK") := Array (workshop.zeros [10; 10; 13]) ]}
                      None []).
Proof.
  apply (rename_feature_moves delitem_removes _ _ (Array (workshop.zeros [10; 10; 13]))).
  - reflexivity.
  - discriminate.
  - left. reflexivity.
  - reflexivity.
Defined.

(** C7 (as stated) fails, whatever the container does on [del]: the
    basics notebook itself remarks that the [10 x 10 x 13] array "wouldn't
    work" under [FeatureType.MASK]; renaming the timeless mask to a [MASK]
    feature raises [ValueError] at the assignment. *)
Lemma rename_feature_across_types_raises :
  ~ (exists delitem,
        forall self p, wf p ->
                       basics.new_feature self <> basics.feature self ->
                       renamed delitem self p).
Proof.
  intros [delitem H].
  specialize (H (basics.mk_RenameFeature (MASK_TIMELESS, "NEW_MASK") (MASK, "NEW_MASK"))
                (mk_EOPatch {[ (MASK_TIMELESS, "NEW_MASK") := Array (workshop.zeros [10; 10; 13]) ]}
                            None [])).
  assert (Hwf : wf (mk_EOPatch {[ (MASK_TIMELESS, "NEW_MASK")
                                  := Array (workshop.zeros [10; 10; 13]) ]} None [])).
  { apply wf_singleton. reflexivity. }
  assert (Hne : (MASK, "NEW_MASK"%string) <> (MASK_TIMELESS, "NEW_MASK"%string))
    by discriminate.
  destruct (H Hwf Hne (Array (workshop.zeros [10; 10; 13])) eq_refl)
    as (p' & Hexec & _).
  rewrite (rename_rejected delitem _ _ (Array (workshop.zeros [10; 10; 13])))
    in Hexec by reflexivity.
  discriminate Hexec.
Qed.




(** The same rename in the two containers. *)
Example rename_to_itself_in_two_containers :
  let p := mk_EOPatch {[ (MASK_TIMELESS, "NEW_MASK"%string)
                         := Array (workshop.zeros [1; 1; 1]) ]} None [] in
  let self := basics.mk_RenameFeature (MASK_TIMELESS, "NEW_MASK") (MASK_TIMELESS, "NEW_MASK") in
  basics.RenameFeature_execute delitem_removes self p = (Ok tt, mk_EOPatch ∅ None []) /\
  basics.RenameFeature_execute delitem_unsupported self p = (Raise AttributeError, p).
Proof. split; reflexivity. Qed.

(** ** The time-lapse task *)

Section TimeLapse.

Variable dtype : np.dtype.
Variable self : timelapse.TimeLapseTask.

Lemma round_255 : (float.round (np.format_of dtype) 255 == 255)%Q.
Proof.
  change 255%Q with (inject_Z 255).
  apply round_Z; [apply prec_format_of | apply emin_format_of |].
  destruct dtype; reflexivity.
Qed.

(** The byte of a clipped value. *)
Lemma clipped_byte (y : Q) :
  (0 <= y <= 1)%Q ->
  let z := float.round (np.format_of dtype) (y * 255) in
  np.wrap_uint8 (np.Qtruncate z) = Qfloor z /\
  (0 <= Qfloor z <= 255)%Z.
Proof.
  intros [H0 H1] z.
  assert (Hlo : (0 <= z)%Q).
  { subst z. apply round_nonneg. lra. }
  assert (Hhi : (z <= 255)%Q).
  { subst z. rewrite <- round_255 at 2.
    apply round_le; [apply prec_format_of | lra]. }
  assert (Hfl : (0 <= Qfloor z <= 255)%Z).
  { split.
    - change 0%Z with (Qfloor 0). apply Qfloor_resp_le. exact Hlo.
    - change 255%Z with (Qfloor 255). apply Qfloor_resp_le. exact Hhi. }
  split; [|exact Hfl].
  assert (Htr : np.Qtruncate z = Qfloor z).
  { unfold np.Qtruncate, Qfloor. destruct z as [n d] eqn:E. simpl.
    apply Z.quot_div_nonneg; [|lia].
    unfold Qle in Hlo. simpl in Hlo. lia. }
  rewrite Htr. unfold np.wrap_uint8. apply Z.mod_small. lia.
Qed.

Lemma clip_unit (x : Q) : (0 <= Qmin (Qmax x 0) 1 <= 1)%Q.
Proof.
  split.
  - apply Q.min_glb; [apply Q.le_max_r | lra].
  - apply Q.le_min_r.
Qed.

Lemma rgb_frame_spec (image frame : np.ndarray) :
  timelapse.rgb_frame dtype self image = Ok frame ->
  is_rgb_frame dtype (timelapse.brightness_factor self) image frame /\
  pixels_in_range frame.
Proof.
  unfold timelapse.rgb_frame, rbind.
  destruct (np.take_last [3; 2; 1] image) as [rgb|e] eqn:Hrgb; [|discriminate].
  intros H. injection H as <-.
  assert (Hpix : forall l,
    map (fun x => inject_Z (np.wrap_uint8 (np.Qtruncate x)))
        (map (fun x => float.round (np.format_of dtype)
                         (x * float.round (np.format_of dtype) timelapse.size_of_uint8))
             (map (fun x => Qmin (Qmax x 0) 1)
                  (map (fun x => float.round (np.format_of dtype)
                                   (x * float.round (np.format_of dtype)
                                          (timelapse.brightness_factor self))) l)))
    = map (fun x => inject_Z (rgb_pixel dtype (timelapse.brightness_factor self) x)) l).
  { induction l as [|x l IH]; simpl; [reflexivity|]. rewrite IH. f_equal.
    unfold rgb_pixel, timelapse.size_of_uint8.
    set (y := Qmin (Qmax _ 0) 1).
    rewrite (round_compat (np.format_of dtype)
               (y * float.round (np.format_of dtype) 255) (y * 255))
      by (rewrite round_255; reflexivity).
    rewrite (proj1 (clipped_byte y (clip_unit _))). reflexivity. }
  split.
  - exists rgb. split; [exact Hrgb|]. split; [reflexivity|].
    simpl. apply Hpix.
  - unfold pixels_in_range. simpl. rewrite Hpix.
    apply Forall_map, Forall_forall. intros x _.
    exists (rgb_pixel dtype (timelapse.brightness_factor self) x). split; [reflexivity|].
    unfold rgb_pixel. apply (clipped_byte _ (clip_unit _)).
Qed.

Lemma append_frames_range (images written : list np.ndarray) :
  Forall pixels_in_range written ->
  Forall pixels_in_range (snd (timelapse.append_frames dtype self images written)).
Proof.
  revert written. induction images as [|image rest IH]; intros written Hw; simpl.
  - exact Hw.
  - destruct (timelapse.rgb_frame dtype self image) as [frame|e] eqn:Hf; simpl; [|exact Hw].
    apply IH. apply Forall_app. split; [exact Hw|].
    constructor; [|constructor]. apply (rgb_frame_spec image frame Hf).
Qed.

Lemma append_frames_all (images written : list np.ndarray) :
  Forall (fun image => exists frame, timelapse.rgb_frame dtype self image = Ok frame)
         images ->
  exists frames,
    timelapse.append_frames dtype self images written = (Ok tt, written ++ frames) /\
    Forall2 (is_rgb_frame dtype (timelapse.brightness_factor self)) images frames.
Proof.
  revert written. induction images as [|image rest IH]; intros written Hall; simpl.
  - exists []. rewrite app_nil_r. split; [reflexivity | constructor].
  - inversion Hall as [|? ? [frame Hf] Hrest]; subst.
    rewrite Hf. destruct (IH (written ++ [frame]) Hrest) as (frames & Happ & Hrel).
    exists (frame :: frames). rewrite Happ, <- app_assoc. split; [reflexivity|].
    constructor; [apply (rgb_frame_spec image frame Hf) | exact Hrel].
Qed.

End TimeLapse.

Lemma chunks_length (k n : nat) (l : list Q) : length (np.chunks k n l) = n.
Proof. revert l. induction n as [|n IH]; intros l; simpl; [reflexivity | rewrite IH; reflexivity]. Qed.

Lemma iter_cons (a : np.ndarray) (n : nat) (s : list nat) :
  np.shape a = n :: s ->
  np.iter a = Ok (map (np.mk_ndarray s) (np.chunks (np.prod s) n (np.data a))).
Proof. intros H. unfold np.iter. rewrite H. reflexivity. Qed.

Lemma slices_shape (a : np.ndarray) (n : nat) (s : list nat) :
  np.shape a = n :: s ->
  length (slices a) = n /\ Forall (fun x => np.shape x = s) (slices a).
Proof.
  intros H. unfold slices. rewrite (iter_cons a n s H). split.
  - rewrite length_map. apply chunks_length.
  - apply Forall_map, Forall_forall. intros x _. reflexivity.
Qed.

Lemma rgb_frame_four_bands (dtype : np.dtype) (self : timelapse.TimeLapseTask)
      (image : np.ndarray) (h w c : nat) :
  np.shape image = [h; w; c] -> 4 <= c ->
  exists frame, timelapse.rgb_frame dtype self image = Ok frame.
Proof.
  intros Hsh Hc. unfold timelapse.rgb_frame, np.take_last, np.split_last.
  rewrite Hsh. simpl.
  destruct (Nat.ltb_spec 3 c); [|lia].
  destruct (Nat.ltb_spec 2 c); [|lia].
  destruct (Nat.ltb_spec 1 c); [|lia].
  simpl. eexists. reflexivity.
Qed.

(** While the writer cannot be opened nothing else happens. *)
Lemma timelapse_writer_fails (get_writer : string -> Q -> result unit)
      (dtype : np.dtype) (self : timelapse.TimeLapseTask) (eopatch : EOPatch) (e : exn) :
  get_writer (timelapse.os_path_join (timelapse.project_dir self) (timelapse.filename self))
             (timelapse.fps self) = Raise e ->
  timelapse.TimeLapseTask_execute get_writer dtype self eopatch = (Raise e, eopatch, []).
Proof. intros H. unfold timelapse.TimeLapseTask_execute. rewrite H. reflexivity. Qed.

(** Once the writer is open the task reads the stack and writes. *)
Lemma timelapse_writer_open (get_writer : string -> Q -> result unit)
      (dtype : np.dtype) (self : timelapse.TimeLapseTask) (eopatch : EOPatch) (u : unit) :
  get_writer (timelapse.os_path_join (timelapse.project_dir self) (timelapse.filename self))
             (timelapse.fps self) = Ok u ->
  timelapse.TimeLapseTask_execute get_writer dtype self eopatch =
    match (let* v := get_feature (DATA, "BANDS-S2-L1C") in
           let* bands := lift (as_array v) in
           lift (np.iter bands)) eopatch with
    | (Ok images, eopatch') =>
        let '(r, written) := timelapse.append_frames dtype self images [] in
        (r, eopatch', written)
    | (Raise e, eopatch') => (Raise e, eopatch', [])
    end.
Proof. intros H. unfold timelapse.TimeLapseTask_execute. rewrite H. reflexivity. Qed.

(** C9 (as amended).  [TimeLapseTask.execute] never changes the patch,
    whether it returns or raises, and every pixel it writes is one of
    0..255.  When the GIF writer opens and [data['BANDS-S2-L1C']] is present
    with at least four bands it returns the patch and has written one frame
    per image: bands 3, 2, 1 scaled by the brightness factor, clipped to
    [0, 1], multiplied by 255 and cut to an integer, the two products being
    rounded in the float dtype of the stack. *)
Theorem timelapse_task_frame (get_writer : string -> Q -> result unit)
        (dtype : np.dtype) (self : timelapse.TimeLapseTask) (eopatch : EOPatch) :
  let out := timelapse.TimeLapseTask_execute get_writer dtype self eopatch in
  snd (fst out) = eopatch /\
  Forall pixels_in_range (snd out) /\
  (forall bands t h w c,
      get_writer (timelapse.os_path_join (timelapse.project_dir self)
                                         (timelapse.filename self))
                 (timelapse.fps self) = Ok tt ->
      features eopatch !! (DATA, "BANDS-S2-L1C"%string) = Some (Array bands) ->
      np.shape bands = [t; h; w; c] ->
      4 <= c ->
      fst (fst out) = Ok tt /\
      length (snd out) = t /\
      Forall2 (is_rgb_frame dtype (timelapse.brightness_factor self))
              (slices bands) (snd out)).
Proof.
  destruct (get_writer (timelapse.os_path_join (timelapse.project_dir self)
                                               (timelapse.filename self))
                       (timelapse.fps self)) as [u|e] eqn:Hw.
  2:{ rewrite (timelapse_writer_fails _ _ _ _ e Hw). simpl.
      split; [reflexivity|]. split; [constructor|]. intros; discriminate. }
  rewrite (timelapse_writer_open _ _ _ _ u Hw).
  unfold bind, get_feature, lift.
  destruct (features eopatch !! _) as [v|] eqn:Hget; simpl.
  - destruct (as_array v) as [bands'|e] eqn:Harr; simpl.
    + destruct (np.iter bands') as [images|e] eqn:Hiter; simpl.
      * pose proof (append_frames_range dtype self images [] ltac:(constructor)) as Hrange.
        destruct (timelapse.append_frames dtype self images []) as [r written] eqn:Happ.
        simpl in *. split; [reflexivity|]. split; [exact Hrange|].
        intros bands t h w c _ Hv Hsh Hc. injection Hv as ->.
        simpl in Harr. injection Harr as <-.
        destruct (slices_shape bands t [h; w; c] Hsh) as [Hlen Hshapes].
        unfold slices in *. rewrite Hiter in *.
        destruct (append_frames_all dtype self images []) as (frames & Happ' & Hrel).
        { eapply Forall_impl; [exact Hshapes|]. intros image Him.
          exact (rgb_frame_four_bands dtype self image h w c Him Hc). }
        rewrite Happ in Happ'. injection Happ' as -> ->. simpl.
        split; [reflexivity|]. split; [|exact Hrel].
        rewrite <- Hlen. symmetry. exact (Forall2_length _ _ _ Hrel).
      * split; [reflexivity|]. split; [constructor|].
        intros bands t h w c _ Hv Hsh Hc. injection Hv as ->.
        simpl in Harr. injection Harr as <-.
        rewrite (iter_cons bands t [h; w; c] Hsh) in Hiter. discriminate.
    + split; [reflexivity|]. split; [constructor|].
      intros bands t h w c _ Hv. injection Hv as ->. discriminate.
  - split; [reflexivity|]. split; [constructor|].
    intros bands t h w c _ Hv. discriminate.
Qed.

Lemma timelapse_task_frame_witness :
  fst (fst (timelapse.TimeLapseTask_execute (fun _ _ => Ok tt) np.float32
              (timelapse.mk_TimeLapseTask "." "timelapse.gif" 5 1)
              (mk_EOPatch {[ (DATA, "BANDS-S2-L1C"%string)
                             := Array (np.mk_ndarray [1; 1; 1; 4] [0; 1 # 2; 1 # 4; 2]%Q) ]}
                          None []))) = Ok tt.
Proof.
  refine (proj1 (proj2 (proj2 (timelapse_task_frame (fun _ _ => Ok tt) np.float32
            (timelapse.mk_TimeLapseTask "." "timelapse.gif" 5 1)
            (mk_EOPatch {[ (DATA, "BANDS-S2-L1C"%string)
                           := Array (np.mk_ndarray [1; 1; 1; 4] [0; 1 # 2; 1 # 4; 2]%Q) ]}
                        None [])))
            (np.mk_ndarray [1; 1; 1; 4] [0; 1 # 2; 1 # 4; 2]%Q) 1 1 1 4 _ _ _ _)).
  - reflexivity.
  - reflexivity.
  - reflexivity.
  - lia.
Defined.

(** C9 (as stated) fails, whatever the writer does: on a patch without
    [data['BANDS-S2-L1C']] the task raises (the writer's error, or
    [KeyError] once the writer is open) instead of returning. *)
Lemma timelapse_task_missing_bands_raises :
  ~ (exists get_writer dtype,
        forall self eopatch,
        exists frames,
          timelapse.TimeLapseTask_execute get_writer dtype self eopatch
          = (Ok tt, eopatch, frames)).
Proof.
  intros (get_writer & dtype & H).
  destruct (H (timelapse.mk_TimeLapseTask "." "timelapse.gif" 5 1)
              (mk_EOPatch ∅ None [])) as [frames Hexec].
  destruct (get_writer
              (timelapse.os_path_join
                 (timelapse.project_dir (timelapse.mk_TimeLapseTask "." "timelapse.gif" 5 1))
                 (timelapse.filename (timelapse.mk_TimeLapseTask "." "timelapse.gif" 5 1)))
              (timelapse.fps (timelapse.mk_TimeLapseTask "." "timelapse.gif" 5 1)))
    as [u|e] eqn:Hw.
  - rewrite (timelapse_writer_open _ _ _ _ u Hw) in Hexec. discriminate Hexec.
  - rewrite (timelapse_writer_fails _ _ _ _ e Hw) in Hexec. discriminate Hexec.
Qed.

(** A band value of one third, as a [float64], under brightness factor 3:
    the product rounds to exactly one and the byte is 255, where the exact
    product would stay below one and give 254. *)
Example frame_of_one_third :
  let third := float.round float.binary64 (1 # 3) in
  timelapse.rgb_frame np.float64 (timelapse.mk_TimeLapseTask "." "timelapse.gif" 6 3)
                      (np.mk_ndarray [1; 1; 4] [0%Q; third; third; third])
  = Ok (np.mk_ndarray [1; 1; 3] [255; 255; 255]%Q) /\
  Qfloor (Qmin (Qmax (third * 3) 0) 1 * 255) = 254%Z.
Proof. vm_compute. split; reflexivity. Qed.

(** [os.path.join] of the task's default directory and file name. *)
Example timelapse_path :
  timelapse.os_path_join "." "timelapse.gif" = "./timelapse.gif"%string /\
  timelapse.os_path_join "gifs/" "timelapse.gif" = "gifs/timelapse.gif"%string /\
  timelapse.os_path_join "gifs" "/tmp/t.gif" = "/tmp/t.gif"%string.
Proof. repeat split. Qed.

(** ** The coverage of the valid data *)

Lemma rmap_Forall2 {A B} (f : A -> result B) (l : list A) (ys : list B) :
  rmap f l = Ok ys <-> Forall2 (fun x y => f x = Ok y) l ys.
Proof.
  revert ys. induction l as [|x l IH]; intros ys; simpl.
  - split.
    + intros H. injection H as <-. constructor.
    + intros H. inversion H. reflexivity.
  - split.
    + unfold rbind. destruct (f x) as [y|e] eqn:Hx; [|discriminate].
      destruct (rmap f l) as [ys'|e] eqn:Hl; [|discriminate].
      intros H. injection H as <-. constructor; [exact Hx | apply IH; reflexivity].
    + intros H. inversion H as [|? y ? ys' Hx Hl]; subst.
      apply IH in Hl. rewrite Hx, Hl. reflexivity.
Qed.

Lemma rmap_total {A B} (f : A -> result B) (l : list A) :
  Forall (fun x => exists y, f x = Ok y) l -> exists ys, rmap f l = Ok ys.
Proof.
  induction 1 as [|x l [y Hy] _ [ys Hys]]; simpl.
  - exists []. reflexivity.
  - exists (y :: ys). rewrite Hy, Hys. reflexivity.
Qed.

Lemma chunks_length_le (k n : nat) (l : list Q) :
  Forall (fun ch => length ch <= k) (np.chunks k n l).
Proof.
  revert l. induction n as [|n IH]; intros l; simpl; constructor.
  - rewrite length_take. lia.
  - apply IH.
Qed.

Section Coverage.

Variables (p : EOPatch) (vd : np.ndarray) (t h w c : nat).
Hypothesis Hget : features p !! (MASK, "VALID_DATA"%string) = Some (Array vd).
Hypothesis Hshape : np.shape vd = [t; h; w; c].
Hypothesis Hdates : 1 <= t.
Hypothesis Hpixels : 1 <= h * w * c.

(** The rows the task hands to the coverage function are the flattened
    slices of the mask. *)
Lemma rows_are_flat_slices :
  map (np.mk_ndarray [h * w * c]) (np.chunks (h * w * c) t (np.data vd))
  = map flatten (slices vd).
Proof.
  unfold slices. rewrite (iter_cons vd t [h; w; c] Hshape).
  rewrite map_map. unfold flatten, np.size. simpl.
  replace (h * (w * (c * 1))) with (h * w * c) by lia. reflexivity.
Qed.

Lemma coverage_of_rows (cov : np.ndarray -> result Q) :
  (forall a, cov a = workshop.calculate_coverage a) ->
  exists ys,
    rmap cov (map (np.mk_ndarray [h * w * c]) (np.chunks (h * w * c) t (np.data vd)))
    = Ok ys /\
    length ys = t /\
    Forall2 (fun slice q => cov (flatten slice) = Ok q) (slices vd) ys.
Proof.
  intros Hcov.
  destruct (rmap_total cov
              (map (np.mk_ndarray [h * w * c]) (np.chunks (h * w * c) t (np.data vd))))
    as [ys Hys].
  { apply Forall_map.
    eapply Forall_impl; [apply (chunks_length_le (h * w * c) t (np.data vd))|].
    intros row Hrow. cbv beta in Hrow. simpl. rewrite Hcov.
    rewrite calculate_coverage_value; [eexists; reflexivity | |].
    - pose proof (count_nz_length row) as Hnz.
      unfold np.count_nonzero, np.size. cbn [np.data np.shape np.prod fold_right]. lia.
    - unfold np.size. cbn [np.shape np.prod fold_right]. lia. }
  exists ys. split; [exact Hys|].
  apply rmap_Forall2 in Hys. rewrite rows_are_flat_slices in Hys.
  split.
  - apply Forall2_length in Hys. rewrite length_map in Hys.
    rewrite <- Hys. apply (slices_shape vd t [h; w; c] Hshape).
  - clear -Hys. remember (slices vd) as l eqn:E. clear E.
    revert ys Hys. induction l as [|x l IH]; intros ys Hys; simpl in Hys.
    + inversion Hys. constructor.
    + inversion Hys as [|? y ? ys' Hx Hl]; subst. constructor; [exact Hx | exact (IH _ Hl)].
Qed.

Lemma store_coverage (ys : list Q) :
  length ys = t ->
  Forall2 (fun slice q => workshop.calculate_coverage (flatten slice) = Ok q)
          (slices vd) ys ->
  let p' := with_features p
              (<[(SCALAR, "COVERAGE"%string) := Array (np.newaxis_last (np.of_scalars ys))]>
                 (features p)) in
  features p' !! (SCALAR, "COVERAGE"%string)
    = Some (Array (np.newaxis_last (np.of_scalars ys))) /\
  np.shape (np.newaxis_last (np.of_scalars ys)) = [length (slices vd); 1] /\
  Forall2 (fun slice q => workshop.calculate_coverage (flatten slice) = Ok q)
          (slices vd) (np.data (np.newaxis_last (np.of_scalars ys))) /\
  (forall k, other_than_coverage p k -> features p' !! k = features p !! k) /\
  bbox p' = bbox p /\ timestamp p' = timestamp p.
Proof.
  intros Hlen Hrel p'. subst p'. simpl.
  split; [apply lookup_insert_eq|].
  split; [rewrite Hlen, (proj1 (slices_shape vd t [h; w; c] Hshape)); reflexivity|].
  split; [exact Hrel|].
  split; [|split; reflexivity].
  intros k Hk. apply lookup_insert_ne. intros E. apply Hk. symmetry. exact E.
Qed.

Lemma workshop_coverage_added :
  coverage_added workshop.calculate_coverage workshop.AddValidDataCoverage_execute
                 other_than_coverage p vd.
Proof.
  destruct (coverage_of_rows workshop.calculate_coverage (fun a => eq_refl))
    as (ys & Hys & Hlen & Hrel).
  unfold coverage_added.
  exists (with_features p
            (<[(SCALAR, "COVERAGE"%string) := Array (np.newaxis_last (np.of_scalars ys))]>
               (features p))),
         (np.newaxis_last (np.of_scalars ys)).
  split; [|exact (store_coverage ys Hlen Hrel)].
  unfold workshop.AddValidDataCoverage_execute, bind, get_feature, lift, ret.
  rewrite Hget. simpl. rewrite Hshape.
  unfold np.reshape, np.size. rewrite Hshape. simpl.
  replace (t * (h * w * c * 1) =? t * (h * (w * (c * 1)))) with true
    by (symmetry; apply Nat.eqb_eq; lia).
  unfold np.apply_along_axis_1. simpl.
  destruct (Nat.eqb_spec t 0) as [Ht|_]; [lia|].
  unfold rbind at 1. rewrite Hys. reflexivity.
Qed.

Lemma water_level_coverage_added :
  c = 1 ->
  coverage_added water_level.coverage water_level.AddValidDataCoverage_execute
                 other_than_coverage p vd.
Proof.
  intros Hc.
  destruct (coverage_of_rows workshop.calculate_coverage (fun a => eq_refl))
    as (ys & Hys & Hlen & Hrel).
  unfold coverage_added.
  exists (with_features p
            (<[(SCALAR, "COVERAGE"%string) := Array (np.newaxis_last (np.of_scalars ys))]>
               (features p))),
         (np.newaxis_last (np.of_scalars ys)).
  split; [|exact (store_coverage ys Hlen Hrel)].
  unfold water_level.AddValidDataCoverage_execute, bind, get_feature, lift, ret.
  rewrite Hget. simpl. rewrite Hshape.
  unfold np.reshape, np.size. rewrite Hshape. simpl.
  replace (t * (h * w * 1) =? t * (h * (w * (c * 1)))) with true
    by (symmetry; apply Nat.eqb_eq; subst c; lia).
  unfold np.apply_along_axis_1. simpl.
  destruct (Nat.eqb_spec t 0) as [Ht|_]; [lia|].
  replace (h * w) with (h * w * c) by (subst c; lia).
  change water_level.coverage with workshop.calculate_coverage.
  unfold rbind at 1. rewrite Hys. reflexivity.
Qed.

End Coverage.

(** C6 (as amended).  When [MASK 'VALID_DATA'] has shape [t x h x w x c]
    with at least one date and at least one element per date, the workshop's
    [AddValidDataCoverage.execute] returns the patch with [SCALAR 'COVERAGE']
    of shape [t x 1], whose entry for each date is [calculate_coverage] of
    that date's flattened slice, and with every other feature as before; so
    does the task of the water-level notebook when [c = 1]. *)
Theorem add_valid_data_coverage (p : EOPatch) (vd : np.ndarray) (t h w c : nat) :
  features p !! (MASK, "VALID_DATA"%string) = Some (Array vd) ->
  np.shape vd = [t; h; w; c] ->
  1 <= t ->
  1 <= h * w * c ->
  coverage_added workshop.calculate_coverage workshop.AddValidDataCoverage_execute
                 other_than_coverage p vd /\
  (c = 1 ->
   coverage_added water_level.coverage water_level.AddValidDataCoverage_execute
                  other_than_coverage p vd).
Proof.
  intros Hget Hshape Ht Hpix. split.
  - exact (workshop_coverage_added p vd t h w c Hget Hshape Ht Hpix).
  - exact (water_level_coverage_added p vd t h w c Hget Hshape Ht Hpix).
Qed.

Lemma add_valid_data_coverage_witness :
  coverage_added workshop.calculate_coverage workshop.AddValidDataCoverage_execute
    other_than_coverage
    (mk_EOPatch {[ (MASK, "VALID_DATA"%string)
                   := Array (np.mk_ndarray [2; 1; 2; 1] [1; 0; 1; 1]%Q) ]} None [])
    (np.mk_ndarray [2; 1; 2; 1] [1; 0; 1; 1]%Q).
Proof.
  refine (proj1 (add_valid_data_coverage
                   (mk_EOPatch {[ (MASK, "VALID_DATA"%string)
                                  := Array (np.mk_ndarray [2; 1; 2; 1] [1; 0; 1; 1]%Q) ]}
                               None [])
                   (np.mk_ndarray [2; 1; 2; 1] [1; 0; 1; 1]%Q) 2 1 2 1 _ _ _ _)).
  - reflexivity.
  - reflexivity.
  - lia.
  - simpl. lia.
Defined.

(** C6 (as stated) fails: on a patch whose valid-data mask has no date
    (shape [0 x 1 x 1 x 1]) [np.apply_along_axis] raises [ValueError] and no
    coverage is added. *)
Lemma add_valid_data_coverage_no_dates_raises :
  ~ (forall p vd t h w c,
        wf p ->
        features p !! (MASK, "VALID_DATA"%string) = Some (Array vd) ->
        np.shape vd = [t; h; w; c] ->
        coverage_added workshop.calculate_coverage workshop.AddValidDataCoverage_execute
                       pre_existing p vd).
Proof.
  intros H.
  destruct (H (mk_EOPatch {[ (MASK, "VALID_DATA"%string)
                             := Array (workshop.zeros [0; 1; 1; 1]) ]} None [])
              (workshop.zeros [0; 1; 1; 1]) 0 1 1 1)
    as (p' & cov & Hexec & _).
  - apply wf_singleton. reflexivity.
  - reflexivity.
  - reflexivity.
  - discriminate Hexec.
Qed.

(** Dates without any element: the quotient of [calculate_coverage] has a
    zero denominator. *)
Example no_pixels_zero_division :
  fst (workshop.AddValidDataCoverage_execute
         (mk_EOPatch {[ (MASK, "VALID_DATA"%string)
                        := Array (workshop.zeros [1; 0; 1; 1]) ]} None []))
  = Raise ZeroDivisionError.
Proof. reflexivity. Qed.

(** The task of the water-level notebook on a mask with two channels: the
    reshape to [t x (h * w)] does not fit. *)
Example two_channels_reshape_fails :
  fst (water_level.AddValidDataCoverage_execute
         (mk_EOPatch {[ (MASK, "VALID_DATA"%string)
                        := Array (workshop.zeros [1; 1; 1; 2]) ]} None []))
  = Raise ValueError.
Proof. reflexivity. Qed.

(** ** Buffers cut into blocks, and broadcasting *)

Section Blocks.

Lemma chunks_block_length (k n : nat) (l : list Q) :
  length l = n * k -> Forall (fun ch => length ch = k) (np.chunks k n l).
Proof.
  revert l. induction n as [|n IH]; intros l Hl; simpl; constructor.
  - rewrite length_take. simpl in Hl. lia.
  - apply IH. rewrite length_drop. simpl in Hl. lia.
Qed.

Lemma concat_chunks (k n : nat) (l : list Q) :
  length l = n * k -> concat (np.chunks k n l) = l.
Proof.
  revert l. induction n as [|n IH]; intros l Hl; simpl.
  - destruct l; [reflexivity | discriminate].
  - rewrite IH by (rewrite length_drop; simpl in Hl; lia).
    apply take_drop.
Qed.

Lemma map_id_on {A} (f : A -> A) (P : A -> Prop) (l : list A) :
  (forall x, P x -> f x = x) -> Forall P l -> map f l = l.
Proof.
  intros Hf. induction 1 as [|x l Hx _ IH]; simpl; [reflexivity|].
  rewrite Hf by exact Hx. rewrite IH. reflexivity.
Qed.

(** Viewing an array at its own shape changes nothing. *)
Lemma broadcast_data_same (s : list nat) (d : list Q) :
  length d = np.prod s -> np.broadcast_data s s d = d.
Proof.
  revert d. induction s as [|a s IH]; intros d Hd; simpl; [reflexivity|].
  rewrite Nat.eqb_refl. simpl in Hd.
  rewrite (map_id_on _ (fun ch => length ch = np.prod s)).
  - apply concat_chunks. exact Hd.
  - exact IH.
  - apply chunks_block_length. exact Hd.
Qed.

Lemma broadcast_data_cons (t s : nat) (ts ss : list nat) (d : list Q) :
  np.broadcast_data (t :: ts) (s :: ss) d =
  if s =? t
  then concat (map (np.broadcast_data ts ss) (np.chunks (np.prod ss) t d))
  else concat (repeat (np.broadcast_data ts ss d) t).
Proof. reflexivity. Qed.

(** An array without a leading axis, viewed with one of length [t], is
    its buffer [t] times. *)
Lemma broadcast_data_leading (t : nat) (s : list nat) (d : list Q) :
  length d = np.prod s ->
  np.broadcast_data (t :: s) (1 :: s) d = concat (repeat d t).
Proof.
  intros Hd. rewrite broadcast_data_cons.
  destruct (Nat.eqb_spec 1 t) as [<-|_].
  - simpl. rewrite <- Hd, firstn_all. rewrite broadcast_data_same by exact Hd.
    reflexivity.
  - rewrite broadcast_data_same by exact Hd. reflexivity.
Qed.

Lemma zip_with_Q_take (f : Q -> Q -> Q) (k : nat) (l1 l2 : list Q) :
  take k (np.zip_with_Q f l1 l2) = np.zip_with_Q f (take k l1) (take k l2).
Proof.
  revert l1 l2. induction k as [|k IH]; intros [|x l1] [|y l2]; simpl;
    try reflexivity.
  rewrite IH. reflexivity.
Qed.

Lemma zip_with_Q_drop (f : Q -> Q -> Q) (k : nat) (l1 l2 : list Q) :
  drop k (np.zip_with_Q f l1 l2) = np.zip_with_Q f (drop k l1) (drop k l2).
Proof.
  revert l1 l2. induction k as [|k IH]; intros [|x l1] [|y l2]; simpl;
    try reflexivity.
  - destruct (drop k l1); reflexivity.
  - apply IH.
Qed.

Lemma nonzero_product (x y : Q) :
  np.nonzero (x * y) = true -> np.nonzero y = true.
Proof.
  unfold np.nonzero. rewrite !negb_true_iff.
  intros H. destruct (Qeq_bool y 0) eqn:E; [|reflexivity].
  apply Qeq_bool_iff in E.
  assert (Hz : (x * y == 0)%Q) by (rewrite E; ring).
  apply Qeq_bool_iff in Hz. congruence.
Qed.

(** A product has no more non-zero elements than either factor. *)
Lemma count_nz_product (l1 l2 : list Q) :
  np.count_nz (np.zip_with_Q Qmult l1 l2) <= np.count_nz l2.
Proof.
  revert l2. induction l1 as [|x l1 IH]; intros [|y l2]; simpl; try lia.
  specialize (IH l2).
  destruct (np.nonzero (x * y)) eqn:E.
  - rewrite (nonzero_product x y E). lia.
  - destruct (np.nonzero y); lia.
Qed.

(** Each block of a product with a buffer repeated once per block has no
    more non-zero elements than that buffer. *)
Lemma count_nz_blocks (N : list Q) (t : nat) (X : list Q) :
  Forall (fun ch => np.count_nz ch <= np.count_nz N)
         (np.chunks (length N) t (np.zip_with_Q Qmult X (concat (repeat N t)))).
Proof.
  revert X. induction t as [|t IH]; intros X; simpl; constructor.
  - rewrite zip_with_Q_take, take_app_length. apply count_nz_product.
  - rewrite zip_with_Q_drop, drop_app_length. apply IH.
Qed.

End Blocks.

(** ** The water level *)

Lemma rmap_map_Forall {A B} (f : A -> result B) (g : A -> B) (l : list A) :
  Forall (fun x => f x = Ok (g x)) l -> rmap f l = Ok (map g l).
Proof.
  induction 1 as [|x l Hx _ IH]; simpl; [reflexivity|].
  rewrite Hx, IH. reflexivity.
Qed.

Lemma broadcast_shapes_length (s1 s2 s : list nat) :
  np.broadcast_shapes s1 s2 = Ok s -> length s = length s1.
Proof.
  revert s2 s. induction s1 as [|a s1 IH]; intros [|b s2] s; simpl; try discriminate.
  - intros H. injection H as <-. reflexivity.
  - destruct (np.broadcast_shapes s1 s2) as [s'|e] eqn:E; simpl; [|discriminate].
    specialize (IH s2 s' E).
    destruct (a =? b); [intros H; injection H as <-; simpl; lia|].
    destruct (a =? 1); [intros H; injection H as <-; simpl; lia|].
    destruct (b =? 1); [intros H; injection H as <-; simpl; lia | discriminate].
Qed.

Lemma broadcast_shapes_cons (a b : nat) (s1 s2 : list nat) :
  np.broadcast_shapes (a :: s1) (b :: s2) =
  rbind (np.broadcast_shapes s1 s2) (fun s =>
    if a =? b then Ok (a :: s)
    else if a =? 1 then Ok (b :: s)
    else if b =? 1 then Ok (a :: s)
    else Raise ValueError).
Proof. reflexivity. Qed.

Lemma broadcast_shapes_mask_nominal (t h w d : nat) :
  np.broadcast_shapes [t; h; w; 1] [1; h; w; d] = Ok [t; h; w; d].
Proof.
  rewrite !broadcast_shapes_cons.
  change (np.broadcast_shapes [] []) with (@Ok (list nat) []).
  unfold rbind. rewrite !Nat.eqb_refl.
  destruct (Nat.eqb_spec 1 d) as [<-|_]; destruct (t =? 1); reflexivity.
Qed.

Lemma multiply_mask_nominal (a b : np.ndarray) (t h w d : nat) :
  np.shape a = [t; h; w; 1] ->
  np.shape b = [h; w; d] ->
  np.multiply a b =
    Ok (np.mk_ndarray [t; h; w; d]
          (np.zip_with_Q Qmult
             (np.broadcast_data [t; h; w; d] [t; h; w; 1] (np.data a))
             (np.broadcast_data [t; h; w; d] [1; h; w; d] (np.data b)))).
Proof.
  intros Ha Hb. unfold np.multiply, np.ndim. rewrite Ha, Hb.
  change (np.pad_shape (Nat.max (length [t; h; w; 1]) (length [h; w; d])) [t; h; w; 1])
    with [t; h; w; 1].
  change (np.pad_shape (Nat.max (length [t; h; w; 1]) (length [h; w; d])) [h; w; d])
    with [1; h; w; d].
  rewrite broadcast_shapes_mask_nominal. reflexivity.
Qed.

Section Steps.

Context {A B : Type}.

Lemma bind_get (k : feature_key) (v : value) (K : value -> M B) (p : EOPatch) :
  features p !! k = Some v -> bind (get_feature k) K p = K v p.
Proof. intros H. unfold bind, get_feature. rewrite H. reflexivity. Qed.

Lemma bind_lift_ok (r : result A) (a : A) (K : A -> M B) (p : EOPatch) :
  r = Ok a -> bind (lift r) K p = K a p.
Proof. intros ->. reflexivity. Qed.

Lemma bind_lift_raise (r : result A) (e : exn) (K : A -> M B) (p : EOPatch) :
  r = Raise e -> bind (lift r) K p = (Raise e, p).
Proof. intros ->. reflexivity. Qed.

Lemma bind_set_ok (k : feature_key) (v : value) (K : unit -> M B) (p : EOPatch) :
  admissible (fst k) v = true ->
  bind (set_feature k v) K p = K tt (with_features p (<[k := v]> (features p))).
Proof. intros H. unfold bind, set_feature. rewrite H. reflexivity. Qed.

Lemma bind_set_rejected (k : feature_key) (v : value) (K : unit -> M B) (p : EOPatch) :
  admissible (fst k) v = false ->
  bind (set_feature k v) K p = (Raise ValueError, p).
Proof. intros H. unfold bind, set_feature. rewrite H. reflexivity. Qed.

End Steps.

Lemma rmap_raise {A B} (f : A -> result B) (e : exn) (x : A) (l : list A) :
  f x = Raise e -> rmap f (x :: l) = Raise e.
Proof. intros H. simpl. rewrite H. reflexivity. Qed.

Lemma pad_shape_length (n : nat) (s : list nat) :
  length s <= n -> length (np.pad_shape n s) = n.
Proof.
  intros H. unfold np.pad_shape. rewrite length_app, repeat_length. lia.
Qed.

Lemma multiply_ndim (a b r : np.ndarray) :
  np.multiply a b = Ok r -> np.ndim r = Nat.max (np.ndim a) (np.ndim b).
Proof.
  unfold np.multiply, rbind.
  destruct (np.broadcast_shapes _ _) as [s|e] eqn:E; [|discriminate].
  intros H. injection H as <-. unfold np.ndim at 1. simpl.
  rewrite (broadcast_shapes_length _ _ _ E).
  apply pad_shape_length. unfold np.ndim. lia.
Qed.

Section WaterLevel.

Variable threshold_otsu : np.ndarray -> Q.
Variables (p : EOPatch) (ndwi nominal : np.ndarray) (t h w c d : nat).
Hypothesis Hndwi : features p !! (DATA, "NDWI"%string) = Some (Array ndwi).
Hypothesis Hnominal :
  features p !! (MASK_TIMELESS, "NOMINAL_WATER"%string) = Some (Array nominal).
Hypothesis Hshape_ndwi : np.shape ndwi = [t; h; w; c].
Hypothesis Hshape_nominal : np.shape nominal = [h; w; d].
Hypothesis Hws_nominal : np.well_shaped nominal = true.

Lemma detect_band (image : np.ndarray) :
  np.shape image = [h; w; c] -> 1 <= c ->
  exists mask,
    rbind (np.index_last 0 image)
          (fun band => Ok (workshop.detect_water threshold_otsu band)) = Ok mask /\
    np.shape mask = [h; w].
Proof.
  intros Hsh Hc. unfold np.index_last, np.split_last. rewrite Hsh. simpl.
  destruct (Nat.ltb_spec 0 c); [|lia]. simpl.
  eexists. split; reflexivity.
Qed.

Lemma detect_bands (images : list np.ndarray) :
  Forall (fun image => np.shape image = [h; w; c]) images -> 1 <= c ->
  exists masks,
    rmap (fun image => rbind (np.index_last 0 image)
                             (fun band => Ok (workshop.detect_water threshold_otsu band)))
         images = Ok masks /\
    length masks = length images /\
    Forall (fun mask => np.shape mask = [h; w]) masks.
Proof.
  intros Hall Hc. induction Hall as [|image images Him _ (masks & Hm & Hlen & Hsh)].
  - exists []. repeat split. constructor.
  - destruct (detect_band image Him Hc) as (mask & Hmask & Hshape).
    exists (mask :: masks). simpl. rewrite Hmask. simpl. rewrite Hm. simpl.
    repeat split; [lia | constructor; assumption].
Qed.

Lemma stack_masks (masks : list np.ndarray) :
  length masks = t -> 1 <= t ->
  Forall (fun mask => np.shape mask = [h; w]) masks ->
  np.shape (np.newaxis_last (np.stack masks)) = [t; h; w; 1].
Proof.
  intros Hlen Ht Hall. destruct masks as [|m ms]; [simpl in Hlen; lia|].
  inversion Hall as [|? ? Hm _]; subst. simpl. rewrite Hm. reflexivity.
Qed.

Lemma nominal_length : length (np.data nominal) = np.prod [h; w; d].
Proof.
  unfold np.well_shaped in Hws_nominal. apply Nat.eqb_eq in Hws_nominal.
  rewrite Hws_nominal, Hshape_nominal. reflexivity.
Qed.

(** The per-date masks, cut to the nominal water, have no more non-zero
    pixels than the nominal water. *)
Lemma per_date_counts (a : np.ndarray) :
  Forall (fun mask => np.count_nonzero mask <= np.count_nonzero nominal)
         (map (np.mk_ndarray [h; w; d])
              (np.chunks (np.prod [h; w; d]) t
                 (np.zip_with_Q Qmult
                    (np.broadcast_data [t; h; w; d] [t; h; w; 1] (np.data a))
                    (np.broadcast_data [t; h; w; d] [1; h; w; d] (np.data nominal))))).
Proof.
  rewrite (broadcast_data_leading t [h; w; d] _ nominal_length).
  rewrite <- nominal_length.
  apply Forall_map. eapply Forall_impl; [apply count_nz_blocks|].
  intros ch Hch. exact Hch.
Qed.

Lemma water_detector_run :
  1 <= t -> 1 <= c -> 0 < np.count_nonzero nominal ->
  exists wm levels,
    workshop.WaterDetector_execute threshold_otsu p =
      (Ok tt,
       with_features p
         (<[(SCALAR, "WATER_LEVEL"%string) := Array (np.newaxis_last (np.of_scalars levels))]>
            (<[(MASK, "WATER_MASK"%string) := Array wm]> (features p)))) /\
    length levels = t /\
    Forall (fun x => (0 <= x <= 1)%Q) levels.
Proof.
  intros Ht Hc Hcnt.
  destruct (detect_bands (map (np.mk_ndarray [h; w; c])
                              (np.chunks (np.prod [h; w; c]) t (np.data ndwi))))
    as (masks & Hmasks & Hlen & Hshapes); [|exact Hc|].
  { apply Forall_map, Forall_forall. intros x _. reflexivity. }
  rewrite length_map, chunks_length in Hlen.
  pose proof (stack_masks masks Hlen Ht Hshapes) as Hstack.
  pose proof (per_date_counts (np.newaxis_last (np.stack masks))) as Hcounts.
  set (wm := np.mk_ndarray [t; h; w; d]
               (np.zip_with_Q Qmult
                  (np.broadcast_data [t; h; w; d] [t; h; w; 1]
                     (np.data (np.newaxis_last (np.stack masks))))
                  (np.broadcast_data [t; h; w; d] [1; h; w; d] (np.data nominal)))).
  set (per_date := map (np.mk_ndarray [h; w; d])
                       (np.chunks (np.prod [h; w; d]) t (np.data wm))).
  set (levels := map (fun mask => float_quot (np.count_nonzero mask)
                                             (np.count_nonzero nominal)) per_date).
  exists wm, levels. split; [|split].
  - unfold workshop.WaterDetector_execute.
    rewrite (bind_get _ _ _ _ Hndwi). rewrite (bind_lift_ok _ ndwi) by reflexivity.
    rewrite (bind_lift_ok _ _ _ _ (iter_cons ndwi t [h; w; c] Hshape_ndwi)).
    rewrite (bind_lift_ok _ _ _ _ Hmasks).
    rewrite (bind_get _ _ _ _ Hnominal). rewrite (bind_lift_ok _ nominal) by reflexivity.
    rewrite (bind_lift_ok _ _ _ _
               (multiply_mask_nominal _ nominal t h w d Hstack Hshape_nominal)).
    fold wm.
    rewrite (bind_lift_ok _ per_date) by (apply (iter_cons wm t [h; w; d]); reflexivity).
    rewrite (bind_lift_ok _ levels).
    2:{ apply rmap_map_Forall. eapply Forall_impl; [exact Hcounts|].
        intros mask Hle. apply py_div_ok; [exact Hle | exact Hcnt]. }
    rewrite bind_set_ok by reflexivity.
    rewrite bind_set_ok by reflexivity.
    reflexivity.
  - subst levels per_date. rewrite !length_map. apply chunks_length.
  - subst levels. apply Forall_map. eapply Forall_impl; [exact Hcounts|].
    intros mask Hle. apply float_quot_bounds; [exact Hle | exact Hcnt].
Qed.

(** No date: the stack of masks has shape [(0,)], and whatever the product
    with the nominal water is, it is not a four-dimensional mask. *)
Lemma water_detector_no_dates :
  t = 0 -> forall p', workshop.WaterDetector_execute threshold_otsu p <> (Ok tt, p').
Proof.
  intros Ht p'. unfold workshop.WaterDetector_execute.
  rewrite (bind_get _ _ _ _ Hndwi). rewrite (bind_lift_ok _ ndwi) by reflexivity.
  rewrite (bind_lift_ok _ _ _ _ (iter_cons ndwi t [h; w; c] Hshape_ndwi)).
  rewrite Ht. change (np.chunks (np.prod [h; w; c]) 0 (np.data ndwi)) with (@nil (list Q)).
  rewrite (bind_lift_ok _ []) by reflexivity.
  rewrite (bind_get _ _ _ _ Hnominal). rewrite (bind_lift_ok _ nominal) by reflexivity.
  destruct (np.multiply (np.newaxis_last (np.stack [])) nominal) as [wm|e] eqn:Hmul;
    [|rewrite (bind_lift_raise _ e) by reflexivity; discriminate].
  rewrite (bind_lift_ok _ wm) by reflexivity.
  apply multiply_ndim in Hmul. unfold np.ndim at 2 3 in Hmul.
  rewrite Hshape_nominal in Hmul. simpl in Hmul.
  destruct (np.iter wm) as [per_date|e] eqn:Hiter;
    [|rewrite (bind_lift_raise _ e) by reflexivity; discriminate].
  rewrite (bind_lift_ok _ per_date) by reflexivity.
  destruct (rmap (fun mask => py_div (np.count_nonzero mask) (np.count_nonzero nominal))
                 per_date) as [levels|e] eqn:Hlev;
    [|rewrite (bind_lift_raise _ e) by reflexivity; discriminate].
  rewrite (bind_lift_ok _ levels) by reflexivity.
  rewrite bind_set_rejected; [discriminate|].
  unfold admissible. simpl. rewrite Hmul. reflexivity.
Qed.

(** Dates without a band: [ndwi[..., 0]] is out of range. *)
Lemma water_detector_no_band :
  1 <= t -> c = 0 ->
  workshop.WaterDetector_execute threshold_otsu p = (Raise IndexError, p).
Proof.
  intros Ht Hc. unfold workshop.WaterDetector_execute.
  rewrite (bind_get _ _ _ _ Hndwi). rewrite (bind_lift_ok _ ndwi) by reflexivity.
  rewrite (bind_lift_ok _ _ _ _ (iter_cons ndwi t [h; w; c] Hshape_ndwi)).
  destruct t as [|t']; [lia|].
  rewrite (bind_lift_raise _ IndexError); [reflexivity|].
  simpl. unfold np.index_last at 1, np.split_last. simpl. rewrite Hc. reflexivity.
Qed.

(** Nominal water without any non-zero pixel: the quotient of the first
    date already has a zero denominator, and nothing has been written. *)
Lemma water_detector_zero_denominator :
  1 <= t -> 1 <= c -> np.count_nonzero nominal = 0 ->
  workshop.WaterDetector_execute threshold_otsu p = (Raise ZeroDivisionError, p).
Proof.
  intros Ht Hc Hcnt.
  destruct (detect_bands (map (np.mk_ndarray [h; w; c])
                              (np.chunks (np.prod [h; w; c]) t (np.data ndwi))))
    as (masks & Hmasks & Hlen & Hshapes); [|exact Hc|].
  { apply Forall_map, Forall_forall. intros x _. reflexivity. }
  rewrite length_map, chunks_length in Hlen.
  pose proof (stack_masks masks Hlen Ht Hshapes) as Hstack.
  unfold workshop.WaterDetector_execute.
  rewrite (bind_get _ _ _ _ Hndwi). rewrite (bind_lift_ok _ ndwi) by reflexivity.
  rewrite (bind_lift_ok _ _ _ _ (iter_cons ndwi t [h; w; c] Hshape_ndwi)).
  rewrite (bind_lift_ok _ _ _ _ Hmasks).
  rewrite (bind_get _ _ _ _ Hnominal). rewrite (bind_lift_ok _ nominal) by reflexivity.
  rewrite (bind_lift_ok _ _ _ _
             (multiply_mask_nominal _ nominal t h w d Hstack Hshape_nominal)).
  match goal with
  | |- context [np.iter ?wm] =>
      rewrite (bind_lift_ok _ _ _ _ (iter_cons wm t [h; w; d] eq_refl))
  end.
  rewrite (bind_lift_raise _ ZeroDivisionError); [reflexivity|].
  destruct t as [|t']; [lia|].
  apply rmap_raise. rewrite Hcnt. reflexivity.
Qed.

End WaterLevel.

(** C4 (as amended).  In a patch whose NDWI stack and nominal water mask
    have one height and one width and whose nominal water mask has a
    non-zero pixel, every value [WaterDetector.execute] stores in
    [SCALAR 'WATER_LEVEL'] lies between 0 and 1 (and it does store them when
    the NDWI stack is not empty); when the nominal mask is all zeros the
    denominator of the quotient, its count of non-zero pixels, is zero, and
    the quotient of the first date raises [ZeroDivisionError]. *)
Theorem water_level_in_unit_interval (threshold_otsu : np.ndarray -> Q)
        (p : EOPatch) (ndwi nominal : np.ndarray) (t h w c d : nat) :
  features p !! (DATA, "NDWI"%string) = Some (Array ndwi) ->
  features p !! (MASK_TIMELESS, "NOMINAL_WATER"%string) = Some (Array nominal) ->
  np.shape ndwi = [t; h; w; c] ->
  np.shape nominal = [h; w; d] ->
  np.well_shaped nominal = true ->
  (0 < np.count_nonzero nominal ->
   (forall p',
       workshop.WaterDetector_execute threshold_otsu p = (Ok tt, p') ->
       exists levels,
         features p' !! (SCALAR, "WATER_LEVEL"%string) = Some (Array levels) /\
         Forall (fun x => (0 <= x <= 1)%Q) (np.data levels)) /\
   (0 < np.size ndwi ->
    exists p', workshop.WaterDetector_execute threshold_otsu p = (Ok tt, p'))) /\
  (Forall (fun x => (x == 0)%Q) (np.data nominal) ->
   np.count_nonzero nominal = 0 /\
   (0 < np.size ndwi ->
    workshop.WaterDetector_execute threshold_otsu p = (Raise ZeroDivisionError, p))).
Proof.
  intros Hn Hm Hs Hs' Hws.
  assert (Hsize : 0 < np.size ndwi -> 1 <= t /\ 1 <= c).
  { unfold np.size. rewrite Hs. simpl. intros H.
    destruct t; [simpl in H; lia|]. destruct c; [|lia].
    rewrite !Nat.mul_0_l, !Nat.mul_0_r in H. lia. }
  split.
  - intros Hcnt. split.
    + intros p' Hexec.
      destruct (Nat.eq_dec t 0) as [Ht|Ht].
      { exfalso. exact (water_detector_no_dates threshold_otsu p ndwi nominal
                          t h w c d Hn Hm Hs Hs' Ht p' Hexec). }
      destruct (Nat.eq_dec c 0) as [Hc|Hc].
      { rewrite (water_detector_no_band threshold_otsu p ndwi t h w c Hn Hs) in Hexec
          by (try assumption; lia).
        discriminate. }
      destruct (water_detector_run threshold_otsu p ndwi nominal t h w c d
                  Hn Hm Hs Hs' Hws) as (wm & levels & Hrun & _ & Hrange); try lia.
      rewrite Hrun in Hexec. injection Hexec as <-.
      exists (np.newaxis_last (np.of_scalars levels)). split; [|exact Hrange].
      simpl. apply lookup_insert_eq.
    + intros Hsz. destruct (Hsize Hsz) as [Ht Hc].
      destruct (water_detector_run threshold_otsu p ndwi nominal t h w c d
                  Hn Hm Hs Hs' Hws Ht Hc Hcnt) as (wm & levels & Hrun & _).
      eexists. exact Hrun.
  - intros Hzero.
    assert (Hcnt : np.count_nonzero nominal = 0) by (apply count_nz_none; exact Hzero).
    split; [exact Hcnt|].
    intros Hsz. destruct (Hsize Hsz) as [Ht Hc].
    exact (water_detector_zero_denominator threshold_otsu p ndwi nominal t h w c d
             Hn Hm Hs Hs' Ht Hc Hcnt).
Qed.

Lemma water_level_in_unit_interval_witness :
  exists p',
    workshop.WaterDetector_execute (fun _ => 0%Q)
      (mk_EOPatch (<[(DATA, "NDWI"%string) := Array (np.mk_ndarray [1; 1; 2; 1] [2; 2]%Q)]>
                     {[ (MASK_TIMELESS, "NOMINAL_WATER"%string)
                        := Array (np.mk_ndarray [1; 2; 1] [1; 0]%Q) ]})
                  None [])
    = (Ok tt, p').
Proof.
  refine (proj2 (proj1 (water_level_in_unit_interval (fun _ => 0%Q)
            (mk_EOPatch (<[(DATA, "NDWI"%string) := Array (np.mk_ndarray [1; 1; 2; 1] [2; 2]%Q)]>
                           {[ (MASK_TIMELESS, "NOMINAL_WATER"%string)
                              := Array (np.mk_ndarray [1; 2; 1] [1; 0]%Q) ]})
                        None [])
            (np.mk_ndarray [1; 1; 2; 1] [2; 2]%Q)
            (np.mk_ndarray [1; 2; 1] [1; 0]%Q) 1 1 2 1 1 _ _ _ _ _) _) _).
  - reflexivity.
  - reflexivity.
  - reflexivity.
  - reflexivity.
  - reflexivity.
  - vm_compute. lia.
  - vm_compute. lia.
Defined.

(** C4 (as stated) fails when the two rasters are not on one grid, which
    the container does not prevent: a [2 x 2] NDWI image over a nominal
    water mask of a single pixel broadcasts to a water mask of four pixels,
    and the level stored is 4. *)
Lemma water_level_off_grid_above_one :
  ~ (forall threshold_otsu p nominal,
        wf p ->
        features p !! (MASK_TIMELESS, "NOMINAL_WATER"%string) = Some (Array nominal) ->
        0 < np.count_nonzero nominal ->
        forall p',
          workshop.WaterDetector_execute threshold_otsu p = (Ok tt, p') ->
          exists levels,
            features p' !! (SCALAR, "WATER_LEVEL"%string) = Some (Array levels) /\
            Forall (fun x => (0 <= x <= 1)%Q) (np.data levels)).
Proof.
  intros H.
  destruct (H (fun _ => 0%Q)
              (mk_EOPatch
                 (<[(DATA, "NDWI"%string) := Array (np.mk_ndarray [1; 2; 2; 1] [2; 2; 2; 2]%Q)]>
                    {[ (MASK_TIMELESS, "NOMINAL_WATER"%string)
                       := Array (np.mk_ndarray [1; 1; 1] [1]%Q) ]})
                 None [])
              (np.mk_ndarray [1; 1; 1] [1]%Q)) with
    (p' := mk_EOPatch
             (<[(SCALAR, "WATER_LEVEL"%string) := Array (np.mk_ndarray [1; 1] [4]%Q)]>
                (<[(MASK, "WATER_MASK"%string)
                   := Array (np.mk_ndarray [1; 2; 2; 1] [1; 1; 1; 1]%Q)]>
                   (<[(DATA, "NDWI"%string)
                      := Array (np.mk_ndarray [1; 2; 2; 1] [2; 2; 2; 2]%Q)]>
                      {[ (MASK_TIMELESS, "NOMINAL_WATER"%string)
                         := Array (np.mk_ndarray [1; 1; 1] [1]%Q) ]})))
             None [])
    as (levels & Hlev & Hrange).
  - apply map_Forall_insert_2; [reflexivity|].
    apply map_Forall_singleton. reflexivity.
  - reflexivity.
  - vm_compute. lia.
  - vm_compute. reflexivity.
  - simpl in Hlev. rewrite lookup_insert_eq in Hlev. injection Hlev as <-.
    simpl in Hrange. inversion Hrange as [|x l [_ Hx] _]; subst.
    vm_compute in Hx. apply Hx. reflexivity.
Qed.

(** ** The tasks on small patches *)

(** A constant band at most 1.0 has no water, whatever Otsu's method is. *)
Example detect_water_constant (threshold_otsu : np.ndarray -> Q) :
  workshop.detect_water threshold_otsu (np.mk_ndarray [2; 2] [1; 1; 1; 1]%Q)
  = np.mk_ndarray [2; 2] [0; 0; 0; 0]%Q.
Proof. reflexivity. Qed.

(** Two dates of [1 x 2] pixels over a nominal water of two pixels: all of
    it is water on the first date, half of it on the second. *)
Example water_levels_two_dates :
  features
    (snd (workshop.WaterDetector_execute (fun _ => 1%Q)
            (mk_EOPatch
               (<[(DATA, "NDWI"%string) := Array (np.mk_ndarray [2; 1; 2; 1] [2; 2; 0; 3]%Q)]>
                  {[ (MASK_TIMELESS, "NOMINAL_WATER"%string)
                     := Array (np.mk_ndarray [1; 2; 1] [1; 5]%Q) ]})
               None [])))
    !! (SCALAR, "WATER_LEVEL"%string)
  = Some (Array (np.mk_ndarray [2; 1] [1; 1 # 2]%Q)).
Proof. vm_compute. reflexivity. Qed.

(** A coverage that is already there is replaced. *)
Example existing_coverage_replaced :
  exists c,
    features
      (snd (workshop.AddValidDataCoverage_execute
              (mk_EOPatch
                 (<[(MASK, "VALID_DATA"%string) := Array (np.mk_ndarray [1; 1; 2; 1] [1; 0]%Q)]>
                    {[ (SCALAR, "COVERAGE"%string) := Array (np.mk_ndarray [1; 1] [0]%Q) ]})
                 None [])))
      !! (SCALAR, "COVERAGE"%string)
    = Some (Array (np.mk_ndarray [1; 1] [c])) /\ (c == 1 # 2)%Q.
Proof. eexists. split; [vm_compute; reflexivity | reflexivity]. Qed.

(** * Further properties of the notebooks' code *)

(** ** The outcomes of a rename *)


(** ** The mask of the valid data *)

Lemma broadcast_shapes_same (s : list nat) : np.broadcast_shapes s s = Ok s.
Proof.
  induction s as [|a s IH]; [reflexivity|].
  rewrite broadcast_shapes_cons, IH. unfold rbind. rewrite Nat.eqb_refl. reflexivity.
Qed.

Lemma pad_shape_same (s : list nat) :
  np.pad_shape (Nat.max (length s) (length s)) s = s.
Proof.
  unfold np.pad_shape. rewrite Nat.max_id, Nat.sub_diag. reflexivity.
Qed.

Lemma logical_and_same_shape (a b : np.ndarray) :
  np.shape b = np.shape a ->
  np.well_shaped a = true -> np.well_shaped b = true ->
  np.logical_and a b =
    Ok (np.mk_ndarray (np.shape a) (np.zip_with_Q np.and_Q (np.data a) (np.data b))).
Proof.
  intros Hsh Ha Hb. apply Nat.eqb_eq in Ha. apply Nat.eqb_eq in Hb.
  unfold np.logical_and, np.ndim. rewrite Hsh, pad_shape_same, broadcast_shapes_same.
  simpl. rewrite !broadcast_data_same; [reflexivity | |]; congruence.
Qed.

Lemma nonzero_of_bool (b : bool) : np.nonzero (np.of_bool b) = b.
Proof. destruct b; reflexivity. Qed.

Lemma zip_valid_pixels (l1 l2 : list Q) :
  np.zip_with_Q np.and_Q
    (map (fun x => np.of_bool (np.nonzero x)) l1)
    (map (fun x => np.of_bool (negb (np.nonzero x)))
         (map (fun x => np.of_bool (np.nonzero x)) l2))
  = np.zip_with_Q (fun x y => np.of_bool (valid_pixel x y)) l1 l2.
Proof.
  revert l2. induction l1 as [|x l1 IH]; intros [|y l2]; simpl; try reflexivity.
  rewrite IH. unfold np.and_Q, valid_pixel. rewrite !nonzero_of_bool. reflexivity.
Qed.

Lemma valid_mask_of (is_data clm : np.ndarray) :
  np.shape clm = np.shape is_data ->
  np.well_shaped is_data = true -> np.well_shaped clm = true ->
  np.logical_and (np.astype_bool is_data) (np.logical_not (np.astype_bool clm))
  = Ok (valid_mask is_data clm).
Proof.
  intros Hsh Ha Hb. apply Nat.eqb_eq in Ha. apply Nat.eqb_eq in Hb.
  rewrite logical_and_same_shape.
  - simpl. rewrite zip_valid_pixels. reflexivity.
  - simpl. exact Hsh.
  - unfold np.well_shaped. simpl. rewrite length_map. apply Nat.eqb_eq. exact Ha.
  - unfold np.well_shaped. simpl. rewrite !length_map. apply Nat.eqb_eq. exact Hb.
Qed.

(** X7.  On two masks [IS_DATA] and [CLM] of one shape both
    [calculate_valid_data_mask] and [ValidDataPredicate.__call__] return,
    in that shape, the boolean mask whose pixel is [True] exactly where
    [IS_DATA] is non-zero and [CLM] is zero, and leave the patch alone. *)
Theorem valid_data_mask_pixels (p : EOPatch) (is_data clm : np.ndarray) :
  features p !! (MASK, "IS_DATA"%string) = Some (Array is_data) ->
  features p !! (MASK, "CLM"%string) = Some (Array clm) ->
  np.shape clm = np.shape is_data ->
  np.well_shaped is_data = true ->
  np.well_shaped clm = true ->
  workshop.calculate_valid_data_mask p = (Ok (valid_mask is_data clm), p) /\
  water_level.ValidDataPredicate_call p = (Ok (valid_mask is_data clm), p).
Proof.
  intros Hd Hc Hsh Ha Hb.
  unfold workshop.calculate_valid_data_mask, water_level.ValidDataPredicate_call.
  rewrite !(bind_get _ _ _ _ Hd). rewrite !(bind_lift_ok _ is_data) by reflexivity.
  rewrite !(bind_get _ _ _ _ Hc). rewrite !(bind_lift_ok _ clm) by reflexivity.
  rewrite (valid_mask_of is_data clm Hsh Ha Hb). split; reflexivity.
Qed.

Lemma valid_data_mask_pixels_witness :
  workshop.calculate_valid_data_mask
    (mk_EOPatch (<[(MASK, "IS_DATA"%string) := Array (np.mk_ndarray [1; 1; 3; 1] [1; 1; 0]%Q)]>
                   {[ (MASK, "CLM"%string) := Array (np.mk_ndarray [1; 1; 3; 1] [0; 1; 0]%Q) ]})
                None [])
  = (Ok (valid_mask (np.mk_ndarray [1; 1; 3; 1] [1; 1; 0]%Q)
                    (np.mk_ndarray [1; 1; 3; 1] [0; 1; 0]%Q)),
     mk_EOPatch (<[(MASK, "IS_DATA"%string) := Array (np.mk_ndarray [1; 1; 3; 1] [1; 1; 0]%Q)]>
                   {[ (MASK, "CLM"%string) := Array (np.mk_ndarray [1; 1; 3; 1] [0; 1; 0]%Q) ]})
                None []).
Proof.
  refine (proj1 (valid_data_mask_pixels _ (np.mk_ndarray [1; 1; 3; 1] [1; 1; 0]%Q)
                   (np.mk_ndarray [1; 1; 3; 1] [0; 1; 0]%Q) _ _ _ _ _));
    reflexivity.
Defined.

(** X8.  Neither function ever changes the patch; without [IS_DATA], or
    with [IS_DATA] but without [CLM], they raise [KeyError]. *)
Theorem valid_data_mask_reads_only (p : EOPatch) :
  snd (workshop.calculate_valid_data_mask p) = p /\
  snd (water_level.ValidDataPredicate_call p) = p /\
  (features p !! (MASK, "IS_DATA"%string) = None \/
   (exists is_data, features p !! (MASK, "IS_DATA"%string) = Some (Array is_data)) /\
   features p !! (MASK, "CLM"%string) = None ->
   fst (workshop.calculate_valid_data_mask p) = Raise KeyError /\
   fst (water_level.ValidDataPredicate_call p) = Raise KeyError).
Proof.
  unfold workshop.calculate_valid_data_mask, water_level.ValidDataPredicate_call,
    bind, get_feature, lift.
  destruct (features p !! (MASK, "IS_DATA"%string)) as [v|] eqn:Hd; simpl.
  - destruct (as_array v) as [is_data|e] eqn:Ha; simpl.
    + destruct (features p !! (MASK, "CLM"%string)) as [v'|] eqn:Hc; simpl.
      * destruct (as_array v') as [clm|e] eqn:Hb; simpl.
        -- split; [reflexivity | split; [reflexivity|]].
           intros [H|[_ H]]; discriminate.
        -- split; [reflexivity | split; [reflexivity|]].
           intros [H|[_ H]]; discriminate.
      * split; [reflexivity | split; [reflexivity|]]. intros _. split; reflexivity.
    + split; [reflexivity | split; [reflexivity|]].
      intros [H1|[[d H2] _]]; [discriminate|]. injection H2 as ->. discriminate.
  - split; [reflexivity | split; [reflexivity|]]. intros _. split; reflexivity.
Qed.

Lemma valid_data_mask_reads_only_witness :
  fst (workshop.calculate_valid_data_mask
         (mk_EOPatch {[ (MASK, "IS_DATA"%string) := Array (workshop.zeros [1; 1; 2; 1]) ]}
                     None []))
  = Raise KeyError /\
  fst (water_level.ValidDataPredicate_call
         (mk_EOPatch {[ (MASK, "IS_DATA"%string) := Array (workshop.zeros [1; 1; 2; 1]) ]}
                     None []))
  = Raise KeyError.
Proof.
  apply (proj2 (proj2 (valid_data_mask_reads_only
           (mk_EOPatch {[ (MASK, "IS_DATA"%string) := Array (workshop.zeros [1; 1; 2; 1]) ]}
                       None [])))).
  right. split; [eexists|]; reflexivity.
Defined.

Lemma count_valid_le (l1 l2 : list Q) :
  np.count_nz (np.zip_with_Q (fun x y => np.of_bool (valid_pixel x y)) l1 l2)
  <= np.count_nz l1.
Proof.
  revert l2. induction l1 as [|x l1 IH]; intros [|y l2]; simpl; try lia.
  specialize (IH l2). rewrite nonzero_of_bool. unfold valid_pixel in *.
  destruct (np.nonzero x), (np.nonzero y); simpl; lia.
Qed.

Lemma count_valid_clear (l1 l2 : list Q) :
  length l2 = length l1 ->
  np.count_nz l2 = 0 ->
  np.count_nz (np.zip_with_Q (fun x y => np.of_bool (valid_pixel x y)) l1 l2)
  = np.count_nz l1.
Proof.
  revert l2. induction l1 as [|x l1 IH]; intros [|y l2] Hlen Hz; simpl in *;
    try reflexivity; try discriminate.
  rewrite nonzero_of_bool. unfold valid_pixel at 1.
  destruct (np.nonzero y); simpl in Hz; [lia|].
  rewrite andb_true_r. rewrite IH by lia. reflexivity.
Qed.

(** X9.  The valid pixels are among the pixels with data, so the coverage
    computed from the valid-data mask is at least the coverage computed from
    [IS_DATA]; without any cloud the two are the same number. *)
Theorem valid_coverage_bounds (p : EOPatch) (is_data clm : np.ndarray) :
  features p !! (MASK, "IS_DATA"%string) = Some (Array is_data) ->
  features p !! (MASK, "CLM"%string) = Some (Array clm) ->
  np.shape clm = np.shape is_data ->
  np.well_shaped is_data = true ->
  np.well_shaped clm = true ->
  0 < np.size is_data ->
  exists valid q_valid q_data,
    workshop.calculate_valid_data_mask p = (Ok valid, p) /\
    workshop.calculate_coverage valid = Ok q_valid /\
    workshop.calculate_coverage is_data = Ok q_data /\
    (q_data <= q_valid)%Q /\
    (np.count_nonzero clm = 0 -> q_valid = q_data).
Proof.
  intros Hd Hc Hsh Ha Hb Hsz.
  pose proof (count_nonzero_size is_data Ha) as Hdata.
  assert (Hvalid : np.count_nonzero (valid_mask is_data clm)
                   <= np.count_nonzero is_data) by apply count_valid_le.
  exists (valid_mask is_data clm). eexists. eexists.
  split; [|split; [|split; [|split]]].
  - unfold workshop.calculate_valid_data_mask.
    rewrite (bind_get _ _ _ _ Hd). rewrite (bind_lift_ok _ is_data) by reflexivity.
    rewrite (bind_get _ _ _ _ Hc). rewrite (bind_lift_ok _ clm) by reflexivity.
    rewrite (valid_mask_of is_data clm Hsh Ha Hb). reflexivity.
  - apply calculate_coverage_value; [|exact Hsz].
    change (np.size (valid_mask is_data clm)) with (np.size is_data). lia.
  - apply calculate_coverage_value; [exact Hdata | exact Hsz].
  - change (np.size (valid_mask is_data clm)) with (np.size is_data).
    apply round64_le.
    pose proof (float_quot_le _ _ (np.size is_data) Hvalid Hsz) as H.
    lra.
  - intros Hclear. change (np.size (valid_mask is_data clm)) with (np.size is_data).
    unfold np.count_nonzero at 1. simpl.
    rewrite count_valid_clear; [reflexivity | | exact Hclear].
    apply Nat.eqb_eq in Ha. apply Nat.eqb_eq in Hb. congruence.
Qed.

Lemma valid_coverage_bounds_witness :
  exists valid q_valid q_data,
    workshop.calculate_valid_data_mask
      (mk_EOPatch (<[(MASK, "IS_DATA"%string) := Array (np.mk_ndarray [1; 1; 3; 1] [1; 1; 0]%Q)]>
                     {[ (MASK, "CLM"%string) := Array (np.mk_ndarray [1; 1; 3; 1] [0; 1; 0]%Q) ]})
                  None [])
    = (Ok valid,
       mk_EOPatch (<[(MASK, "IS_DATA"%string) := Array (np.mk_ndarray [1; 1; 3; 1] [1; 1; 0]%Q)]>
                     {[ (MASK, "CLM"%string) := Array (np.mk_ndarray [1; 1; 3; 1] [0; 1; 0]%Q) ]})
                  None []) /\
    workshop.calculate_coverage valid = Ok q_valid /\
    workshop.calculate_coverage (np.mk_ndarray [1; 1; 3; 1] [1; 1; 0]%Q) = Ok q_data /\
    (q_data <= q_valid)%Q.
Proof.
  destruct (valid_coverage_bounds
              (mk_EOPatch (<[(MASK, "IS_DATA"%string) := Array (np.mk_ndarray [1; 1; 3; 1] [1; 1; 0]%Q)]>
                             {[ (MASK, "CLM"%string) := Array (np.mk_ndarray [1; 1; 3; 1] [0; 1; 0]%Q) ]})
                          None [])
              (np.mk_ndarray [1; 1; 3; 1] [1; 1; 0]%Q)
              (np.mk_ndarray [1; 1; 3; 1] [0; 1; 0]%Q))
    as (valid & qv & qd & H1 & H2 & H3 & H4 & _);
    try reflexivity.
  - vm_compute. lia.
  - exists valid, qv, qd. auto.
Defined.

(** ** The predicate that removes cloudy scenes *)

Lemma Qltb_lt (x y : Q) : np.Qltb x y = true <-> (x < y)%Q.
Proof.
  unfold np.Qltb. rewrite negb_true_iff.
  destruct (Qle_bool y x) eqn:E.
  - apply Qle_bool_iff in E. split; [discriminate | intros H; exfalso; lra].
  - split; [intros _ | reflexivity].
    apply Qnot_le_lt. intros H. apply Qle_bool_iff in H. congruence.
Qed.

(** X10.  On a non-empty array [ValidDataCoveragePredicate(threshold)]
    answers whether the coverage that [calculate_coverage] computes is
    strictly below the threshold.  The float coverage is within [2^-53] of
    the fraction of zero elements, so the answer is [True] when the fraction
    is more than that below the threshold and [False] when it is that much
    above or more; in between the rounding decides.  On an empty array the
    predicate raises [ZeroDivisionError]. *)
Theorem coverage_predicate_strict (threshold : Q) (array : np.ndarray) :
  np.well_shaped array = true ->
  (0 < np.size array ->
   exists (q : Q) (b : bool),
     workshop.calculate_coverage array = Ok q /\
     workshop.ValidDataCoveragePredicate_call
       (workshop.mk_ValidDataCoveragePredicate threshold) array = Ok b /\
     (b = true <-> (q < threshold)%Q) /\
     ((nat_quot (count_zeros (np.data array)) (np.size array) < threshold - 2 ^ (-53))%Q ->
      b = true) /\
     ((threshold + 2 ^ (-53) <= nat_quot (count_zeros (np.data array)) (np.size array))%Q ->
      b = false)) /\
  (np.size array = 0 ->
   workshop.ValidDataCoveragePredicate_call
     (workshop.mk_ValidDataCoveragePredicate threshold) array = Raise ZeroDivisionError).
Proof.
  intros Hws. split.
  - intros Hsz.
    pose proof (count_nonzero_size array Hws) as Hc.
    destruct (coverage_of_counts _ _ Hc Hsz) as [_ He].
    assert (Hq : (1 - nat_quot (np.count_nonzero array) (np.size array)
                  == nat_quot (count_zeros (np.data array)) (np.size array))%Q).
    { apply nat_quot_complement; [|exact Hsz].
      apply Nat.eqb_eq in Hws. pose proof (count_nz_zeros (np.data array)) as H.
      unfold np.count_nonzero, np.size. lia. }
    rewrite Hq in He. apply Qabs_Qle_condition in He.
    change (2 ^ (-53))%Q with (1 # 9007199254740992)%Q in *.
    unfold workshop.ValidDataCoveragePredicate_call.
    rewrite (calculate_coverage_value array Hc Hsz). unfold rbind.
    eexists. eexists. split; [reflexivity|]. split; [reflexivity|].
    cbn [workshop.threshold].
    split; [apply Qltb_lt|].
    split.
    + intros H. apply Qltb_lt. lra.
    + intros H. apply not_true_is_false. rewrite Qltb_lt. lra.
  - intros Hz. unfold workshop.ValidDataCoveragePredicate_call,
      workshop.calculate_coverage. rewrite Hz. reflexivity.
Qed.

Lemma coverage_predicate_strict_witness :
  workshop.ValidDataCoveragePredicate_call
    (workshop.mk_ValidDataCoveragePredicate (1 # 2))
    (np.mk_ndarray [1; 5; 1] [1; 1; 1; 1; 0]%Q) = Ok true.
Proof.
  destruct (proj1 (coverage_predicate_strict (1 # 2)
                     (np.mk_ndarray [1; 5; 1] [1; 1; 1; 1; 0]%Q) eq_refl))
    as (q & b & _ & Hcall & _ & Hlow & _).
  - vm_compute. lia.
  - rewrite Hcall. f_equal. apply Hlow. vm_compute. reflexivity.
Defined.

(** One zero element of five under the threshold [0.2]: the fraction of
    zeros is one fifth, which is above the float [0.2], but [1.0 - 4/5] is
    the float [0.19999999999999996], and the scene is kept. *)
Example one_zero_of_five :
  workshop.ValidDataCoveragePredicate_call
    (workshop.mk_ValidDataCoveragePredicate (float.round float.binary64 (2 # 10)))
    (np.mk_ndarray [1; 5; 1] [1; 1; 1; 1; 0]%Q) = Ok true.
Proof. vm_compute. reflexivity. Qed.

(** ** More on the coverage task *)

Lemma calculate_coverage_flatten (a : np.ndarray) :
  workshop.calculate_coverage (flatten a) = workshop.calculate_coverage a.
Proof.
  unfold workshop.calculate_coverage, flatten, np.size, np.count_nonzero. simpl.
  rewrite Nat.mul_1_r. reflexivity.
Qed.

Lemma calculate_coverage_unit (a : np.ndarray) (q : Q) :
  length (np.data a) <= np.size a ->
  workshop.calculate_coverage a = Ok q -> (0 <= q <= 1)%Q.
Proof.
  intros Hlen.
  assert (Hc : np.count_nonzero a <= np.size a).
  { pose proof (count_nz_length (np.data a)). unfold np.count_nonzero. lia. }
  destruct (Nat.eq_dec (np.size a) 0) as [Hz|Hnz].
  - unfold workshop.calculate_coverage, py_div. rewrite Hz. discriminate.
  - rewrite (calculate_coverage_value a Hc ltac:(lia)).
    intros H. injection H as <-. apply (coverage_of_counts _ _ Hc). lia.
Qed.

Section CoverageMore.

Variables (p : EOPatch) (vd : np.ndarray) (t h w c : nat).
Hypothesis Hget : features p !! (MASK, "VALID_DATA"%string) = Some (Array vd).
Hypothesis Hshape : np.shape vd = [t; h; w; c].

Lemma slices_short :
  Forall (fun slice => length (np.data slice) <= np.size slice) (slices vd).
Proof.
  unfold slices. rewrite (iter_cons vd t [h; w; c] Hshape).
  apply Forall_map. eapply Forall_impl; [apply chunks_length_le|].
  intros ch Hch. exact Hch.
Qed.

Lemma Forall2_Forall_l {A B} (P : A -> Prop) (R : A -> B -> Prop) (Q' : B -> Prop)
      (l : list A) (k : list B) :
  (forall x y, P x -> R x y -> Q' y) ->
  Forall P l -> Forall2 R l k -> Forall Q' k.
Proof.
  intros H HP HR. induction HR as [|x y l k Hxy _ IH]; constructor;
    inversion HP; subst; eauto.
Qed.

End CoverageMore.

(** X11.  Every value the workshop's [AddValidDataCoverage.execute] stores
    in [SCALAR 'COVERAGE'] lies between 0 and 1. *)
Theorem coverage_values_in_unit_interval (p : EOPatch) (vd : np.ndarray) (t h w c : nat) :
  features p !! (MASK, "VALID_DATA"%string) = Some (Array vd) ->
  np.shape vd = [t; h; w; c] ->
  1 <= t ->
  1 <= h * w * c ->
  exists p' cov,
    workshop.AddValidDataCoverage_execute p = (Ok tt, p') /\
    features p' !! (SCALAR, "COVERAGE"%string) = Some (Array cov) /\
    Forall (fun q => (0 <= q <= 1)%Q) (np.data cov).
Proof.
  intros Hget Hshape Ht Hpix.
  destruct (workshop_coverage_added p vd t h w c Hget Hshape Ht Hpix)
    as (p' & cov & Hexec & Hcov & _ & Hrel & _).
  exists p', cov. split; [exact Hexec|]. split; [exact Hcov|].
  eapply Forall2_Forall_l; [|exact (slices_short vd t h w c Hshape)|exact Hrel].
  intros slice q Hlen Hq. cbv beta in Hq. rewrite calculate_coverage_flatten in Hq.
  exact (calculate_coverage_unit slice q Hlen Hq).
Qed.

Lemma coverage_values_in_unit_interval_witness :
  exists p' cov,
    workshop.AddValidDataCoverage_execute
      (mk_EOPatch {[ (MASK, "VALID_DATA"%string)
                     := Array (np.mk_ndarray [2; 1; 2; 1] [1; 0; 1; 1]%Q) ]} None [])
    = (Ok tt, p') /\
    features p' !! (SCALAR, "COVERAGE"%string) = Some (Array cov) /\
    Forall (fun q => (0 <= q <= 1)%Q) (np.data cov).
Proof.
  apply (coverage_values_in_unit_interval _ (np.mk_ndarray [2; 1; 2; 1] [1; 0; 1; 1]%Q)
           2 1 2 1).
  - reflexivity.
  - reflexivity.
  - lia.
  - simpl. lia.
Defined.

(** X12.  The predicate that removes cloudy scenes decides each date as
    the stored coverage does: on the slice of a date it answers whether
    that date's [COVERAGE] entry is strictly below the threshold. *)
Theorem predicate_agrees_with_coverage (p : EOPatch) (vd : np.ndarray) (t h w c : nat) :
  features p !! (MASK, "VALID_DATA"%string) = Some (Array vd) ->
  np.shape vd = [t; h; w; c] ->
  1 <= t ->
  1 <= h * w * c ->
  exists p' cov,
    workshop.AddValidDataCoverage_execute p = (Ok tt, p') /\
    features p' !! (SCALAR, "COVERAGE"%string) = Some (Array cov) /\
    Forall2 (fun slice q =>
               forall threshold,
                 workshop.ValidDataCoveragePredicate_call
                   (workshop.mk_ValidDataCoveragePredicate threshold) slice
                 = Ok (np.Qltb q threshold))
            (slices vd) (np.data cov).
Proof.
  intros Hget Hshape Ht Hpix.
  destruct (workshop_coverage_added p vd t h w c Hget Hshape Ht Hpix)
    as (p' & cov & Hexec & Hcov & _ & Hrel & _).
  exists p', cov. split; [exact Hexec|]. split; [exact Hcov|].
  eapply Forall2_impl; [exact Hrel|].
  intros slice q Hq threshold. cbv beta in Hq. rewrite calculate_coverage_flatten in Hq.
  unfold workshop.ValidDataCoveragePredicate_call. rewrite Hq. reflexivity.
Qed.

Lemma predicate_agrees_with_coverage_witness :
  exists p' cov,
    workshop.AddValidDataCoverage_execute
      (mk_EOPatch {[ (MASK, "VALID_DATA"%string)
                     := Array (np.mk_ndarray [2; 1; 2; 1] [1; 0; 1; 1]%Q) ]} None [])
    = (Ok tt, p') /\
    features p' !! (SCALAR, "COVERAGE"%string) = Some (Array cov) /\
    Forall2 (fun slice q =>
               forall threshold,
                 workshop.ValidDataCoveragePredicate_call
                   (workshop.mk_ValidDataCoveragePredicate threshold) slice
                 = Ok (np.Qltb q threshold))
            (slices (np.mk_ndarray [2; 1; 2; 1] [1; 0; 1; 1]%Q)) (np.data cov).
Proof.
  apply (predicate_agrees_with_coverage _ (np.mk_ndarray [2; 1; 2; 1] [1; 0; 1; 1]%Q)
           2 1 2 1).
  - reflexivity.
  - reflexivity.
  - lia.
  - simpl. lia.
Defined.

(** X13.  On a valid-data mask with a single channel the coverage tasks of
    the two notebooks do the same: same outcome, same patch. *)
Theorem coverage_tasks_agree (p : EOPatch) (vd : np.ndarray) (t h w : nat) :
  features p !! (MASK, "VALID_DATA"%string) = Some (Array vd) ->
  np.shape vd = [t; h; w; 1] ->
  water_level.AddValidDataCoverage_execute p = workshop.AddValidDataCoverage_execute p.
Proof.
  intros Hget Hshape.
  unfold water_level.AddValidDataCoverage_execute, workshop.AddValidDataCoverage_execute.
  rewrite !(bind_get _ _ _ _ Hget). rewrite !(bind_lift_ok _ vd) by reflexivity.
  rewrite Hshape. rewrite Nat.mul_1_r. reflexivity.
Qed.

Lemma coverage_tasks_agree_witness :
  water_level.AddValidDataCoverage_execute
    (mk_EOPatch {[ (MASK, "VALID_DATA"%string)
                   := Array (np.mk_ndarray [2; 1; 2; 1] [1; 0; 1; 1]%Q) ]} None [])
  = workshop.AddValidDataCoverage_execute
      (mk_EOPatch {[ (MASK, "VALID_DATA"%string)
                     := Array (np.mk_ndarray [2; 1; 2; 1] [1; 0; 1; 1]%Q) ]} None []).
Proof.
  apply (coverage_tasks_agree _ (np.mk_ndarray [2; 1; 2; 1] [1; 0; 1; 1]%Q) 2 1 2).
  - reflexivity.
  - reflexivity.
Defined.

(** X14.  On a valid-data mask with pixels and a number of channels other
    than one, the coverage task of the water-level notebook raises
    [ValueError] (its rows have [height * width] elements) and leaves the
    patch as it was. *)
Theorem water_level_coverage_needs_one_channel
        (p : EOPatch) (vd : np.ndarray) (t h w c : nat) :
  features p !! (MASK, "VALID_DATA"%string) = Some (Array vd) ->
  np.shape vd = [t; h; w; c] ->
  1 <= t * (h * w) ->
  c <> 1 ->
  water_level.AddValidDataCoverage_execute p = (Raise ValueError, p).
Proof.
  intros Hget Hshape Hpix Hc.
  unfold water_level.AddValidDataCoverage_execute.
  rewrite (bind_get _ _ _ _ Hget). rewrite (bind_lift_ok _ vd) by reflexivity.
  rewrite Hshape. apply bind_lift_raise.
  unfold np.reshape, np.size. rewrite Hshape. simpl.
  destruct (Nat.eqb_spec (t * (h * w * 1)) (t * (h * (w * (c * 1))))) as [E|_];
    [|reflexivity].
  exfalso. apply Hc. nia.
Qed.

Lemma water_level_coverage_needs_one_channel_witness :
  water_level.AddValidDataCoverage_execute
    (mk_EOPatch {[ (MASK, "VALID_DATA"%string) := Array (workshop.zeros [1; 1; 1; 2]) ]}
                None [])
  = (Raise ValueError,
     mk_EOPatch {[ (MASK, "VALID_DATA"%string) := Array (workshop.zeros [1; 1; 1; 2]) ]}
                None []).
Proof.
  apply (water_level_coverage_needs_one_channel _ (workshop.zeros [1; 1; 1; 2]) 1 1 1 2).
  - reflexivity.
  - reflexivity.
  - simpl. lia.
  - lia.
Defined.

(** X15.  A coverage task either returns or leaves the patch exactly as it
    was: whatever it raises, nothing has been written. *)
Theorem coverage_tasks_fail_clean (p : EOPatch) :
  (fst (workshop.AddValidDataCoverage_execute p) = Ok tt \/
   snd (workshop.AddValidDataCoverage_execute p) = p) /\
  (fst (water_level.AddValidDataCoverage_execute p) = Ok tt \/
   snd (water_level.AddValidDataCoverage_execute p) = p).
Proof.
  unfold workshop.AddValidDataCoverage_execute, water_level.AddValidDataCoverage_execute,
    bind, get_feature, set_feature, lift, ret.
  split.
  - destruct (features p !! _) as [v|]; [|right; reflexivity].
    destruct (as_array v) as [a|]; [|right; reflexivity].
    destruct (np.shape a) as [|? [|? [|? [|? [|? ?]]]]]; try (right; reflexivity).
    destruct (np.reshape _ _) as [flat|]; [|right; reflexivity].
    destruct (np.apply_along_axis_1 _ _) as [cov|]; [|right; reflexivity].
    destruct (admissible _ _); [left | right]; reflexivity.
  - destruct (features p !! _) as [v|]; [|right; reflexivity].
    destruct (as_array v) as [a|]; [|right; reflexivity].
    destruct (np.shape a) as [|? [|? [|? ?]]]; try (right; reflexivity).
    destruct (np.reshape _ _) as [flat|]; [|right; reflexivity].
    destruct (np.apply_along_axis_1 _ _) as [cov|]; [|right; reflexivity].
    destruct (admissible _ _); [left | right]; reflexivity.
Qed.

(** ** More on the water detector *)

(** X16.  [detect_water] consults Otsu's method only on arrays with two
    different values: two threshold functions that agree on those arrays
    give the same mask on every array. *)
Theorem detect_water_guards_otsu (otsu otsu' : np.ndarray -> Q) (ndwi : np.ndarray) :
  (forall a, two_distinct (np.data a) -> otsu a = otsu' a) ->
  workshop.detect_water otsu ndwi = workshop.detect_water otsu' ndwi.
Proof.
  intros Hagree. unfold workshop.detect_water, np.unique.
  destruct (Nat.ltb_spec 1 (length (fold_right np.insert_unique [] (np.data ndwi))))
    as [Hlt|_]; [|reflexivity].
  rewrite (Hagree ndwi); [reflexivity|]. apply unique_two_distinct. exact Hlt.
Qed.

Lemma detect_water_guards_otsu_witness :
  workshop.detect_water (fun a => if 1 <? length (np.unique a) then 0%Q else 5%Q)
                        (np.mk_ndarray [1; 2] [2; 2]%Q)
  = workshop.detect_water (fun _ => 0%Q) (np.mk_ndarray [1; 2] [2; 2]%Q).
Proof.
  apply detect_water_guards_otsu.
  intros a Hd. apply unique_two_distinct in Hd. unfold np.unique.
  destruct (Nat.ltb_spec 1 (length (fold_right np.insert_unique [] (np.data a))));
    [reflexivity | lia].
Defined.

Lemma water_detector_fails_clean_lemma (threshold_otsu : np.ndarray -> Q) (p : EOPatch) :
  fst (workshop.WaterDetector_execute threshold_otsu p) = Ok tt \/
  snd (workshop.WaterDetector_execute threshold_otsu p) = p.
Proof.
  unfold workshop.WaterDetector_execute, bind, get_feature, lift, ret.
  destruct (features p !! (DATA, "NDWI"%string)) as [v|]; [|right; reflexivity].
  destruct (as_array v) as [ndwi|]; [|right; reflexivity].
  destruct (np.iter ndwi) as [images|]; [|right; reflexivity].
  destruct (rmap _ images) as [masks|]; [|right; reflexivity].
  destruct (features p !! (MASK_TIMELESS, "NOMINAL_WATER"%string)) as [nv|];
    [|right; reflexivity].
  destruct (as_array nv) as [nominal|]; [|right; reflexivity].
  destruct (np.multiply _ nominal) as [wm|]; [|right; reflexivity].
  destruct (np.iter wm) as [per_date|]; [|right; reflexivity].
  destruct (rmap _ per_date) as [levels|]; [|right; reflexivity].
  unfold set_feature. cbn [fst].
  destruct (admissible MASK (Array wm)); [|right; reflexivity].
  left. reflexivity.
Qed.

(** X17.  [WaterDetector.execute] either returns or leaves the patch
    exactly as it was: every step that can raise comes before the first
    write, and the second write cannot be rejected.  In particular a
    rejected [WATER_MASK] leaves no [WATER_LEVEL] behind. *)
Theorem water_detector_fails_clean (threshold_otsu : np.ndarray -> Q) (p : EOPatch) :
  (fst (workshop.WaterDetector_execute threshold_otsu p) = Ok tt \/
   snd (workshop.WaterDetector_execute threshold_otsu p) = p) /\
  (forall e, fst (workshop.WaterDetector_execute threshold_otsu p) = Raise e ->
             features (snd (workshop.WaterDetector_execute threshold_otsu p))
               !! (SCALAR, "WATER_LEVEL"%string)
             = features p !! (SCALAR, "WATER_LEVEL"%string)).
Proof.
  pose proof (water_detector_fails_clean_lemma threshold_otsu p) as [Hok | Hsame].
  - split; [left; exact Hok|]. intros e He. rewrite Hok in He. discriminate.
  - split; [right; exact Hsame|]. intros e _. rewrite Hsame. reflexivity.
Qed.

Lemma water_detector_fails_clean_witness :
  features (snd (workshop.WaterDetector_execute (fun _ => 0%Q)
                   (mk_EOPatch {[ (DATA, "NDWI"%string)
                                  := Array (np.mk_ndarray [1; 1; 2; 1] [2; 2]%Q) ]}
                               None [])))
    !! (SCALAR, "WATER_LEVEL"%string)
  = features (mk_EOPatch {[ (DATA, "NDWI"%string)
                            := Array (np.mk_ndarray [1; 1; 2; 1] [2; 2]%Q) ]}
                         None [])
      !! (SCALAR, "WATER_LEVEL"%string).
Proof.
  apply (proj2 (water_detector_fails_clean (fun _ => 0%Q)
                  (mk_EOPatch {[ (DATA, "NDWI"%string)
                                 := Array (np.mk_ndarray [1; 1; 2; 1] [2; 2]%Q) ]}
                              None [])) KeyError).
  reflexivity.
Defined.

Section WaterMask.

Variable threshold_otsu : np.ndarray -> Q.
Variables (p : EOPatch) (ndwi nominal : np.ndarray) (t h w c d : nat).
Hypothesis Hndwi : features p !! (DATA, "NDWI"%string) = Some (Array ndwi).
Hypothesis Hnominal :
  features p !! (MASK_TIMELESS, "NOMINAL_WATER"%string) = Some (Array nominal).
Hypothesis Hshape_ndwi : np.shape ndwi = [t; h; w; c].
Hypothesis Hshape_nominal : np.shape nominal = [h; w; d].
Hypothesis Hws_nominal : np.well_shaped nominal = true.

Lemma product_within (X N : list Q) : within (np.zip_with_Q Qmult X N) N.
Proof.
  revert N. induction X as [|x X IH]; intros [|n N] i z; simpl; try discriminate.
  destruct i as [|i]; simpl.
  - intros H. injection H as <-. exists n. split; [reflexivity|].
    intros Hn. rewrite Hn. ring.
  - apply IH.
Qed.

Lemma blocks_within (N : list Q) (k : nat) (X : list Q) :
  Forall (fun ch => within ch N)
         (np.chunks (length N) k (np.zip_with_Q Qmult X (concat (repeat N k)))).
Proof.
  revert X. induction k as [|k IH]; intros X; simpl; constructor.
  - rewrite zip_with_Q_take, take_app_length. apply product_within.
  - rewrite zip_with_Q_drop, drop_app_length. apply IH.
Qed.

Lemma water_detector_run_mask :
  1 <= t -> 1 <= c -> 0 < np.count_nonzero nominal ->
  exists wm lv,
    workshop.WaterDetector_execute threshold_otsu p =
      (Ok tt,
       with_features p
         (<[(SCALAR, "WATER_LEVEL"%string) := Array (np.newaxis_last (np.of_scalars lv))]>
            (<[(MASK, "WATER_MASK"%string) := Array wm]> (features p)))) /\
    np.shape wm = [t; h; w; d] /\
    length lv = t /\
    Forall (fun s => within (np.data s) (np.data nominal)) (slices wm) /\
    lv = map (fun s => float_quot (np.count_nonzero s) (np.count_nonzero nominal))
             (slices wm).
Proof.
  intros Ht Hc Hcnt.
  destruct (detect_bands threshold_otsu h w c
              (map (np.mk_ndarray [h; w; c])
                   (np.chunks (np.prod [h; w; c]) t (np.data ndwi))))
    as (masks & Hmasks & Hlen & Hshapes); [|exact Hc|].
  { apply Forall_map, Forall_forall. intros x _. reflexivity. }
  rewrite length_map, chunks_length in Hlen.
  pose proof (stack_masks ndwi t h w c Hshape_ndwi masks Hlen Ht Hshapes) as Hstack.
  set (wm := np.mk_ndarray [t; h; w; d]
               (np.zip_with_Q Qmult
                  (np.broadcast_data [t; h; w; d] [t; h; w; 1]
                     (np.data (np.newaxis_last (np.stack masks))))
                  (np.broadcast_data [t; h; w; d] [1; h; w; d] (np.data nominal)))).
  set (per_date := map (np.mk_ndarray [h; w; d])
                       (np.chunks (np.prod [h; w; d]) t (np.data wm))).
  set (lv := map (fun mask => float_quot (np.count_nonzero mask)
                                         (np.count_nonzero nominal)) per_date).
  pose proof (per_date_counts nominal t h w d Hshape_nominal Hws_nominal
                (np.newaxis_last (np.stack masks))) as Hcounts.
  exists wm, lv. split; [|split; [|split; [|split]]].
  - unfold workshop.WaterDetector_execute.
    rewrite (bind_get _ _ _ _ Hndwi). rewrite (bind_lift_ok _ ndwi) by reflexivity.
    rewrite (bind_lift_ok _ _ _ _ (iter_cons ndwi t [h; w; c] Hshape_ndwi)).
    rewrite (bind_lift_ok _ _ _ _ Hmasks).
    rewrite (bind_get _ _ _ _ Hnominal). rewrite (bind_lift_ok _ nominal) by reflexivity.
    rewrite (bind_lift_ok _ _ _ _
               (multiply_mask_nominal _ nominal t h w d Hstack Hshape_nominal)).
    fold wm.
    rewrite (bind_lift_ok _ per_date) by (apply (iter_cons wm t [h; w; d]); reflexivity).
    rewrite (bind_lift_ok _ lv).
    2:{ apply rmap_map_Forall. eapply Forall_impl; [exact Hcounts|].
        intros mask Hle. apply py_div_ok; [exact Hle | exact Hcnt]. }
    rewrite bind_set_ok by reflexivity.
    rewrite bind_set_ok by reflexivity.
    reflexivity.
  - reflexivity.
  - subst lv per_date. rewrite !length_map. apply chunks_length.
  - unfold slices. rewrite (iter_cons wm t [h; w; d] eq_refl).
    apply Forall_map. subst wm. cbn [np.data].
    pose proof (nominal_length nominal h w d Hshape_nominal Hws_nominal) as HN.
    rewrite (broadcast_data_leading t [h; w; d] _ HN). rewrite <- HN.
    eapply Forall_impl; [apply blocks_within|]. intros ch Hch. exact Hch.
  - unfold slices. rewrite (iter_cons wm t [h; w; d] eq_refl). reflexivity.
Qed.

End WaterMask.

(** X18.  On a non-empty NDWI stack over a nominal water mask of the same
    height and width, [WaterDetector.execute] stores a [WATER_MASK] of
    shape [t x h x w x d] that is zero wherever the nominal mask is zero
    (only water within the dam borders), a [WATER_LEVEL] of shape [t x 1],
    and leaves every other feature as it was. *)
Theorem water_mask_within_nominal (threshold_otsu : np.ndarray -> Q)
        (p : EOPatch) (ndwi nominal : np.ndarray) (t h w c d : nat) :
  features p !! (DATA, "NDWI"%string) = Some (Array ndwi) ->
  features p !! (MASK_TIMELESS, "NOMINAL_WATER"%string) = Some (Array nominal) ->
  np.shape ndwi = [t; h; w; c] ->
  np.shape nominal = [h; w; d] ->
  np.well_shaped nominal = true ->
  1 <= t -> 1 <= c ->
  0 < np.count_nonzero nominal ->
  exists p' wm wl,
    workshop.WaterDetector_execute threshold_otsu p = (Ok tt, p') /\
    features p' !! (MASK, "WATER_MASK"%string) = Some (Array wm) /\
    np.shape wm = [t; h; w; d] /\
    Forall (fun s => within (np.data s) (np.data nominal)) (slices wm) /\
    features p' !! (SCALAR, "WATER_LEVEL"%string) = Some (Array wl) /\
    np.shape wl = [t; 1] /\
    (forall k, k <> (MASK, "WATER_MASK"%string) ->
               k <> (SCALAR, "WATER_LEVEL"%string) ->
               features p' !! k = features p !! k) /\
    bbox p' = bbox p /\ timestamp p' = timestamp p.
Proof.
  intros Hn Hm Hs Hs' Hws Ht Hc Hcnt.
  destruct (water_detector_run_mask threshold_otsu p ndwi nominal t h w c d
              Hn Hm Hs Hs' Hws Ht Hc Hcnt) as (wm & lv & Hrun & Hshape & Hlen & Hin & _).
  eexists. exists wm, (np.newaxis_last (np.of_scalars lv)).
  split; [exact Hrun|]. simpl.
  split; [rewrite lookup_insert_ne by discriminate; apply lookup_insert_eq|].
  split; [exact Hshape|]. split; [exact Hin|].
  split; [apply lookup_insert_eq|].
  split; [rewrite Hlen; reflexivity|].
  split; [|split; reflexivity].
  intros k Hk1 Hk2.
  rewrite lookup_insert_ne by (intros E; apply Hk2; symmetry; exact E).
  apply lookup_insert_ne. intros E; apply Hk1; symmetry; exact E.
Qed.

Lemma water_mask_within_nominal_witness :
  exists p' wm,
    workshop.WaterDetector_execute (fun _ => 0%Q)
      (mk_EOPatch (<[(DATA, "NDWI"%string) := Array (np.mk_ndarray [1; 1; 2; 1] [2; 2]%Q)]>
                     {[ (MASK_TIMELESS, "NOMINAL_WATER"%string)
                        := Array (np.mk_ndarray [1; 2; 1] [1; 0]%Q) ]})
                  None [])
    = (Ok tt, p') /\
    features p' !! (MASK, "WATER_MASK"%string) = Some (Array wm) /\
    Forall (fun s => within (np.data s) [1; 0]%Q) (slices wm).
Proof.
  destruct (water_mask_within_nominal (fun _ => 0%Q)
              (mk_EOPatch (<[(DATA, "NDWI"%string) := Array (np.mk_ndarray [1; 1; 2; 1] [2; 2]%Q)]>
                             {[ (MASK_TIMELESS, "NOMINAL_WATER"%string)
                                := Array (np.mk_ndarray [1; 2; 1] [1; 0]%Q) ]})
                          None [])
              (np.mk_ndarray [1; 1; 2; 1] [2; 2]%Q)
              (np.mk_ndarray [1; 2; 1] [1; 0]%Q) 1 1 2 1 1)
    as (p' & wm & wl & H1 & H2 & _ & H3 & _); try reflexivity; try lia.
  - vm_compute. lia.
  - exists p', wm. auto.
Defined.

(** ** More on the bounding box of the dam *)

(** X19.  As Python computes it, on floats, the inflated box still
    contains the bounds it was made from and is ordered when they are, and a
    side of length zero stays of length zero.  (Its centre need not be the
    centre of the bounds: the two roundings of a side differ.) *)
Theorem inflated_box_on_floats (b : workshop.bounds) :
  is_float (workshop.b_minx b) -> is_float (workshop.b_miny b) ->
  is_float (workshop.b_maxx b) -> is_float (workshop.b_maxy b) ->
  (ordered b ->
   contains (workshop.dam_bbox_float b) b /\ ordered (workshop.dam_bbox_float b)) /\
  ((width_of b == 0)%Q -> (width_of (workshop.dam_bbox_float b) == 0)%Q) /\
  ((height_of b == 0)%Q -> (height_of (workshop.dam_bbox_float b) == 0)%Q).
Proof.
  destruct b as [minx miny maxx maxy]. simpl.
  intros Fminx Fminy Fmaxx Fmaxy.
  unfold ordered, contains, width_of, height_of, workshop.dam_bbox_float. simpl.
  set (r := float.round float.binary64 (1 # 10)).
  assert (Hr : (0 <= r)%Q) by (vm_compute; discriminate).
  assert (Hside : forall lo hi, (lo <= hi)%Q -> (0 <= py_mul (py_sub hi lo) r)%Q).
  { intros lo hi H. unfold py_mul, py_sub. apply round_nonneg.
    apply Qmult_le_0_compat; [apply round_nonneg; lra | exact Hr]. }
  assert (Hlow : forall x d, is_float x -> (0 <= d)%Q -> (py_sub x d <= x)%Q).
  { intros x d Fx Hd. unfold py_sub. apply round64_le_float; [exact Fx | lra]. }
  assert (Hup : forall x d, is_float x -> (0 <= d)%Q -> (x <= py_add x d)%Q).
  { intros x d Fx Hd. unfold py_add. apply float_le_round64; [exact Fx | lra]. }
  assert (Hzero : forall lo hi, is_float lo -> is_float hi -> (hi - lo == 0)%Q ->
                    (py_add hi (py_mul (py_sub hi lo) r)
                     - py_sub lo (py_mul (py_sub hi lo) r) == 0)%Q).
  { intros lo hi [Flo _] [Fhi _] H. unfold py_add, py_sub, py_mul.
    rewrite (round_compat float.binary64 (hi - lo) 0 H), round_0.
    rewrite (round_compat float.binary64 (0 * r) 0) by ring. rewrite round_0.
    rewrite (round_compat float.binary64 (hi + 0) hi) by ring.
    rewrite (round_compat float.binary64 (lo - 0) lo) by ring.
    rewrite Flo, Fhi. exact H. }
  split; [|split].
  - intros [Hx Hy].
    pose proof (Hside _ _ Hx) as Dx. pose proof (Hside _ _ Hy) as Dy.
    pose proof (Hlow minx _ Fminx Dx). pose proof (Hlow miny _ Fminy Dy).
    pose proof (Hup maxx _ Fmaxx Dx). pose proof (Hup maxy _ Fmaxy Dy).
    repeat split; lra.
  - apply Hzero; assumption.
  - apply Hzero; assumption.
Qed.

Lemma inflated_box_on_floats_witness :
  contains (workshop.dam_bbox_float (workshop.mk_bounds 0 0 10 20))
           (workshop.mk_bounds 0 0 10 20).
Proof.
  refine (proj1 (proj1 (inflated_box_on_floats (workshop.mk_bounds 0 0 10 20) _ _ _ _) _)).
  - split; vm_compute; reflexivity.
  - split; vm_compute; reflexivity.
  - split; vm_compute; reflexivity.
  - split; vm_compute; reflexivity.
  - split; vm_compute; discriminate.
Defined.

(** On floats the centre moves: for the side from 19.19 to 19.32 the two
    ends of the inflated side no longer add up to the sum of the ends. *)
Example inflated_box_centre_moves :
  let lo := float.round float.binary64 (1919 # 100) in
  let hi := float.round float.binary64 (1932 # 100) in
  let b := workshop.dam_bbox_float (workshop.mk_bounds lo 0 hi 0) in
  ~ (py_add (workshop.b_minx b) (workshop.b_maxx b) == py_add lo hi)%Q.
Proof. vm_compute. discriminate. Qed.

(** ** More on the cloud-coverage filter *)

(** X20.  The filter is monotone in its threshold: a frame kept under
    [max_cc] is kept under every larger threshold. *)
Theorem cloud_filter_monotone (max_cc max_cc' : Q) (cloud_mask : np.ndarray) :
  (max_cc <= max_cc')%Q ->
  timelapse.CloudCoverageFilter_call (timelapse.mk_CloudCoverageFilter max_cc) cloud_mask
  = Ok true ->
  timelapse.CloudCoverageFilter_call (timelapse.mk_CloudCoverageFilter max_cc') cloud_mask
  = Ok true.
Proof.
  intros Hle. unfold timelapse.CloudCoverageFilter_call.
  destruct (np.shape cloud_mask) as [|h [|w [|c [|? ?]]]]; try discriminate.
  simpl timelapse.max_cc. intros H. injection H as H. f_equal.
  destruct (np.true_divide (np.sum cloud_mask) (h * w)) as [q| | |]; simpl in *;
    try discriminate; try reflexivity.
  apply Qle_bool_iff. apply Qle_bool_iff in H. lra.
Qed.

Lemma cloud_filter_monotone_witness :
  timelapse.CloudCoverageFilter_call (timelapse.mk_CloudCoverageFilter (1 # 2))
    (np.mk_ndarray [2; 2; 1] [1; 0; 0; 0]%Q) = Ok true.
Proof.
  apply (cloud_filter_monotone (1 # 4) (1 # 2)).
  - unfold Qle. simpl. lia.
  - reflexivity.
Defined.





(** ** More on the time-lapse task *)



Lemma length_concat_rows {A B} (f : A -> list B) (k : nat) (l : list A) :
  (forall x, length (f x) = k) -> length (concat (map f l)) = length l * k.
Proof.
  intros H. induction l as [|x l IH]; simpl; [reflexivity|].
  rewrite length_app, H, IH. lia.
Qed.

Lemma rgb_frame_shape (dtype : np.dtype) (self : timelapse.TimeLapseTask)
      (image frame : np.ndarray) (h w c : nat) :
  np.shape image = [h; w; c] ->
  timelapse.rgb_frame dtype self image = Ok frame ->
  np.shape frame = [h; w; 3] /\ np.well_shaped frame = true.
Proof.
  intros Hsh. unfold timelapse.rgb_frame, np.take_last, np.split_last.
  rewrite Hsh. simpl rev. cbv iota beta.
  destruct (forallb _ _); [|discriminate].
  unfold rbind. intros H. injection H as <-. split; [reflexivity|].
  unfold np.well_shaped. simpl. rewrite !length_map.
  rewrite (length_concat_rows _ 3) by reflexivity.
  rewrite chunks_length. apply Nat.eqb_eq. lia.
Qed.

Lemma append_frames_shapes (dtype : np.dtype) (self : timelapse.TimeLapseTask)
      (h w c : nat) (images written : list np.ndarray) :
  Forall (fun image => np.shape image = [h; w; c]) images ->
  Forall (fun frame => np.shape frame = [h; w; 3] /\ np.well_shaped frame = true) written ->
  Forall (fun frame => np.shape frame = [h; w; 3] /\ np.well_shaped frame = true)
         (snd (timelapse.append_frames dtype self images written)).
Proof.
  intros Him. revert written.
  induction Him as [|image rest Hsh _ IH]; intros written Hw; simpl; [exact Hw|].
  destruct (timelapse.rgb_frame dtype self image) as [frame|e] eqn:Hf; simpl; [|exact Hw].
  apply IH. apply Forall_app. split; [exact Hw|].
  constructor; [|constructor]. exact (rgb_frame_shape dtype self image frame h w c Hsh Hf).
Qed.

(** X23.  Every frame the task writes for a stack of shape
    [t x h x w x c] is an [h x w x 3] picture holding exactly
    [h * w * 3] bytes. *)
Theorem timelapse_frames_are_rgb (get_writer : string -> Q -> result unit)
        (dtype : np.dtype) (self : timelapse.TimeLapseTask) (eopatch : EOPatch)
        (bands : np.ndarray) (t h w c : nat) :
  features eopatch !! (DATA, "BANDS-S2-L1C"%string) = Some (Array bands) ->
  np.shape bands = [t; h; w; c] ->
  Forall (fun frame => np.shape frame = [h; w; 3] /\ np.well_shaped frame = true)
         (snd (timelapse.TimeLapseTask_execute get_writer dtype self eopatch)).
Proof.
  intros Hget Hsh.
  destruct (get_writer (timelapse.os_path_join (timelapse.project_dir self)
                                               (timelapse.filename self))
                       (timelapse.fps self)) as [u|e] eqn:Hw.
  2:{ rewrite (timelapse_writer_fails _ _ _ _ e Hw). constructor. }
  rewrite (timelapse_writer_open _ _ _ _ u Hw).
  rewrite (bind_get _ _ _ _ Hget). rewrite (bind_lift_ok _ bands) by reflexivity.
  unfold lift. rewrite (iter_cons bands t [h; w; c] Hsh).
  pose proof (append_frames_shapes dtype self h w c
                (map (np.mk_ndarray [h; w; c])
                     (np.chunks (np.prod [h; w; c]) t (np.data bands))) []) as H.
  destruct (timelapse.append_frames dtype self _ []) as [r written]. simpl in *.
  apply H; [|constructor].
  apply Forall_map, Forall_forall. intros x _. reflexivity.
Qed.

Lemma timelapse_frames_are_rgb_witness :
  Forall (fun frame => np.shape frame = [1; 1; 3] /\ np.well_shaped frame = true)
         (snd (timelapse.TimeLapseTask_execute (fun _ _ => Ok tt) np.float32
                 (timelapse.mk_TimeLapseTask "." "timelapse.gif" 5 1)
                 (mk_EOPatch {[ (DATA, "BANDS-S2-L1C"%string)
                                := Array (np.mk_ndarray [1; 1; 1; 4] [0; 1 # 2; 1 # 4; 2]%Q) ]}
                             None []))).
Proof.
  apply (timelapse_frames_are_rgb _ _ _ _ (np.mk_ndarray [1; 1; 1; 4] [0; 1 # 2; 1 # 4; 2]%Q)
           1 1 1 4).
  - reflexivity.
  - reflexivity.
Defined.

(** ** The cells on timeless data *)

(** X24.  An array of shape [n x m x d] that the cell with the handler
    could not store under [data] is accepted under [data_timeless]: after
    the two cells the patch holds it as [DATA_TIMELESS 'timeless_example'],
    one error has been printed, and no other feature has changed. *)
Theorem timeless_example_stored (patch : EOPatch) (timeless_data : np.ndarray)
        (n m d : nat) :
  np.shape timeless_data = [n; m; d] ->
  exists patch1 patch2,
    workshop.try_timeless_example timeless_data patch = (Ok tt, patch1, [ValueError]) /\
    workshop.store_timeless_example timeless_data patch1 = (Ok tt, patch2) /\
    features patch2 =
      <[(DATA_TIMELESS, "timeless_example"%string) := Array timeless_data]> (features patch) /\
    bbox patch2 = bbox patch /\ timestamp patch2 = timestamp patch.
Proof.
  intros Hsh.
  assert (Hnd : np.ndim timeless_data = 3) by (unfold np.ndim; rewrite Hsh; reflexivity).
  exists patch. eexists. split; [|split].
  - unfold workshop.try_timeless_example, set_feature. simpl fst.
    rewrite (ndim_3_not_time_dependent DATA _ Hnd (or_introl eq_refl)). reflexivity.
  - unfold workshop.store_timeless_example, set_feature, admissible. simpl.
    rewrite Hnd. reflexivity.
  - simpl. repeat split.
Qed.

Lemma timeless_example_stored_witness :
  exists patch1 patch2,
    workshop.try_timeless_example (workshop.zeros [10; 10; 13]) (mk_EOPatch ∅ None [])
    = (Ok tt, patch1, [ValueError]) /\
    workshop.store_timeless_example (workshop.zeros [10; 10; 13]) patch1 = (Ok tt, patch2) /\
    features patch2 =
      <[(DATA_TIMELESS, "timeless_example"%string) := Array (workshop.zeros [10; 10; 13])]> ∅.
Proof.
  destruct (timeless_example_stored (mk_EOPatch ∅ None []) (workshop.zeros [10; 10; 13])
              10 10 13 eq_refl) as (p1 & p2 & H1 & H2 & H3 & _).
  exists p1, p2. auto.
Defined.

(** ** The curves of the water levels *)

Lemma chunks_singletons (l : list Q) :
  np.chunks 1 (length l) l = map (fun x => [x]) l.
Proof.
  induction l as [|x l IH]; simpl; [reflexivity|].
  rewrite drop_0, IH. reflexivity.
Qed.

Lemma compress_map {A B} (f : A -> B) (mask : list Q) (l : list A) :
  np.compress mask (map f l) = map f (np.compress mask l).
Proof.
  revert l. induction mask as [|m mask IH]; intros [|x l]; simpl; try reflexivity.
  destruct (np.nonzero m); simpl; rewrite IH; reflexivity.
Qed.

Lemma concat_singletons {A} (l : list A) : concat (map (fun x => [x]) l) = l.
Proof. induction l as [|x l IH]; simpl; [reflexivity | rewrite IH; reflexivity]. Qed.

Lemma compress_below {A} (m : Q) (qs : list Q) (xs : list A) :
  np.compress (map (fun q => np.of_bool (np.Qltb q m)) qs) xs = below m qs xs.
Proof.
  unfold below. revert xs. induction qs as [|q qs IH]; intros [|x xs]; simpl;
    try reflexivity.
  rewrite nonzero_of_bool. destruct (np.Qltb q m); simpl; rewrite IH; reflexivity.
Qed.

Lemma count_below {A} (m : Q) (qs : list Q) (xs : list A) :
  length xs = length qs ->
  np.count_nz (map (fun q => np.of_bool (np.Qltb q m)) qs) = length (below m qs xs).
Proof.
  unfold below. revert xs. induction qs as [|q qs IH]; intros [|x xs] Hlen; simpl in *;
    try reflexivity; try discriminate.
  rewrite nonzero_of_bool. destruct (np.Qltb q m); simpl; rewrite (IH xs) by lia;
    reflexivity.
Qed.

Lemma below_itself (m : Q) (qs : list Q) :
  Forall (fun q => (q < m)%Q) (below m qs qs).
Proof.
  unfold below. induction qs as [|q qs IH]; simpl; [constructor|].
  destruct (np.Qltb q m) eqn:E; simpl; [|exact IH].
  constructor; [apply Qltb_lt; exact E | exact IH].
Qed.

Lemma first_column (l : list Q) (t : nat) :
  length l = t ->
  map (fun row => nth 0 row 0%Q) (np.chunks 1 (np.prod [t]) l) = l.
Proof.
  intros <-. unfold np.prod. simpl fold_right. rewrite Nat.mul_1_r.
  rewrite chunks_singletons, map_map. simpl. apply map_id.
Qed.

Section Curves.

Variables (max_coverage : Q) (p : EOPatch) (cov wl : np.ndarray) (t d : nat).
Hypothesis Hcov : features p !! (SCALAR, "COVERAGE"%string) = Some (Array cov).
Hypothesis Hwl : features p !! (SCALAR, "WATER_LEVEL"%string) = Some (Array wl).
Hypothesis Hshape_cov : np.shape cov = [t; 1].
Hypothesis Hws_cov : np.well_shaped cov = true.
Hypothesis Hshape_wl : np.shape wl = [t; d].
Hypothesis Hdates : length (timestamp p) = t.

Lemma cov_length : length (np.data cov) = t.
Proof.
  unfold np.well_shaped in Hws_cov. apply Nat.eqb_eq in Hws_cov.
  rewrite Hws_cov, Hshape_cov. simpl. lia.
Qed.

Lemma coverage_below_run {B} (K : np.ndarray -> M B) :
  bind (workshop.coverage_below max_coverage) K p
  = K (np.mk_ndarray [t] (map (fun q => np.of_bool (np.Qltb q max_coverage)) (np.data cov))) p.
Proof.
  assert (Hfirst : np.index_last 0 cov = Ok (np.mk_ndarray [t] (np.data cov))).
  { unfold np.index_last, np.split_last. rewrite Hshape_cov.
    change (rev [t; 1]) with [1; t]. cbv iota beta. change (rev [t]) with [t].
    change (0 <? 1) with true. cbv iota. f_equal. f_equal.
    apply (first_column _ _ cov_length). }
  unfold workshop.coverage_below, bind, get_feature, lift, ret.
  rewrite Hcov. simpl as_array. cbv iota beta. rewrite Hfirst. reflexivity.
Qed.

Lemma curves_run :
  workshop.plot_water_levels max_coverage p =
  (Ok (workshop.mk_curves
         (below max_coverage (np.data cov) (timestamp p))
         (np.mk_ndarray [length (below max_coverage (np.data cov) (timestamp p)); d]
            (concat (below max_coverage (np.data cov) (map np.data (slices wl)))))
         (below max_coverage (np.data cov) (timestamp p))
         (np.mk_ndarray [length (below max_coverage (np.data cov) (timestamp p)); 1]
            (below max_coverage (np.data cov) (np.data cov)))), p).
Proof.
  pose proof cov_length as Hlen.
  assert (Hsel_dates :
    workshop.select_dates
      (np.mk_ndarray [t] (map (fun q => np.of_bool (np.Qltb q max_coverage)) (np.data cov)))
      (timestamp p) = Ok (below max_coverage (np.data cov) (timestamp p))).
  { unfold workshop.select_dates. simpl. rewrite Hdates, Nat.eqb_refl.
    rewrite compress_below. reflexivity. }
  assert (Hcount : np.count_nz (map (fun q => np.of_bool (np.Qltb q max_coverage))
                                    (np.data cov))
                   = length (below max_coverage (np.data cov) (timestamp p))).
  { apply count_below. congruence. }
  unfold workshop.plot_water_levels.
  unfold bind at 1. unfold workshop.get_timestamp at 1.
  rewrite coverage_below_run. rewrite (bind_lift_ok _ _ _ _ Hsel_dates).
  rewrite (bind_get _ _ _ _ Hwl). rewrite (bind_lift_ok _ wl) by reflexivity.
  rewrite coverage_below_run.
  rewrite (bind_lift_ok _
             (np.mk_ndarray [length (below max_coverage (np.data cov) (timestamp p)); d]
                (concat (below max_coverage (np.data cov) (map np.data (slices wl)))))).
  2:{ unfold np.select. simpl np.shape. rewrite Hshape_wl, Nat.eqb_refl.
      simpl np.data. rewrite Hcount, compress_below.
      unfold slices. rewrite (iter_cons wl t [d] Hshape_wl), map_map. simpl.
      rewrite map_id. reflexivity. }
  rewrite coverage_below_run. rewrite (bind_lift_ok _ _ _ _ Hsel_dates).
  rewrite (bind_get _ _ _ _ Hcov). rewrite (bind_lift_ok _ cov) by reflexivity.
  rewrite coverage_below_run.
  rewrite (bind_lift_ok _
             (np.mk_ndarray [length (below max_coverage (np.data cov) (timestamp p)); 1]
                (below max_coverage (np.data cov) (np.data cov)))).
  2:{ assert (Hch : np.chunks (np.prod [1]) t (np.data cov)
                    = map (fun x => [x]) (np.data cov)).
      { rewrite <- Hlen. apply chunks_singletons. }
      unfold np.select. simpl np.shape. rewrite Hshape_cov, Nat.eqb_refl.
      simpl np.data. rewrite Hcount, Hch, compress_map, concat_singletons.
      rewrite compress_below. reflexivity. }
  reflexivity.
Qed.

End Curves.

(** X25.  [plot_water_levels] draws both curves over the same dates: those
    whose coverage is strictly below [max_coverage], in order; the water
    levels and the coverages it draws are the rows of exactly those dates,
    so every coverage drawn is below the bound and a date whose coverage
    equals the bound is left out.  The patch is not changed. *)
Theorem water_level_curves (max_coverage : Q) (p : EOPatch) (cov wl : np.ndarray)
        (t d : nat) :
  features p !! (SCALAR, "COVERAGE"%string) = Some (Array cov) ->
  features p !! (SCALAR, "WATER_LEVEL"%string) = Some (Array wl) ->
  np.shape cov = [t; 1] ->
  np.well_shaped cov = true ->
  np.shape wl = [t; d] ->
  length (timestamp p) = t ->
  exists cv,
    workshop.plot_water_levels max_coverage p = (Ok cv, p) /\
    workshop.level_dates cv = below max_coverage (np.data cov) (timestamp p) /\
    workshop.coverage_dates cv = workshop.level_dates cv /\
    np.shape (workshop.levels cv) = [length (workshop.level_dates cv); d] /\
    np.data (workshop.levels cv)
      = concat (below max_coverage (np.data cov) (map np.data (slices wl))) /\
    np.shape (workshop.coverages cv) = [length (workshop.level_dates cv); 1] /\
    np.data (workshop.coverages cv) = below max_coverage (np.data cov) (np.data cov) /\
    Forall (fun q => (q < max_coverage)%Q) (np.data (workshop.coverages cv)).
Proof.
  intros Hcov Hwl Hs Hws Hs' Hd.
  eexists. split; [apply (curves_run max_coverage p cov wl t d); assumption|].
  simpl. repeat split. apply below_itself.
Qed.

Lemma water_level_curves_witness :
  exists cv,
    workshop.plot_water_levels 1
      (mk_EOPatch (<[(SCALAR, "COVERAGE"%string) := Array (np.mk_ndarray [2; 1] [1; 1 # 2]%Q)]>
                     {[ (SCALAR, "WATER_LEVEL"%string)
                        := Array (np.mk_ndarray [2; 1] [0; 3 # 4]%Q) ]})
                  None [20180101; 20180106]%Z)
    = (Ok cv,
       mk_EOPatch (<[(SCALAR, "COVERAGE"%string) := Array (np.mk_ndarray [2; 1] [1; 1 # 2]%Q)]>
                     {[ (SCALAR, "WATER_LEVEL"%string)
                        := Array (np.mk_ndarray [2; 1] [0; 3 # 4]%Q) ]})
                  None [20180101; 20180106]%Z) /\
    workshop.level_dates cv = [20180106]%Z.
Proof.
  destruct (water_level_curves 1
              (mk_EOPatch (<[(SCALAR, "COVERAGE"%string) := Array (np.mk_ndarray [2; 1] [1; 1 # 2]%Q)]>
                             {[ (SCALAR, "WATER_LEVEL"%string)
                                := Array (np.mk_ndarray [2; 1] [0; 3 # 4]%Q) ]})
                          None [20180101; 20180106]%Z)
              (np.mk_ndarray [2; 1] [1; 1 # 2]%Q) (np.mk_ndarray [2; 1] [0; 3 # 4]%Q) 2 1)
    as (cv & Hrun & Hdates & _); try reflexivity.
  exists cv. split; [exact Hrun|]. rewrite Hdates. reflexivity.
Defined.

(** ** Edge cases of the tasks *)

(** X26.  The water level of each date is the float nearest to the
    number of non-zero pixels of that date's stored water mask over the
    number of non-zero pixels of the nominal water: the two features
    [WaterDetector.execute] stores are consistent with each other. *)
Theorem water_level_matches_mask (threshold_otsu : np.ndarray -> Q)
        (p : EOPatch) (ndwi nominal : np.ndarray) (t h w c d : nat) :
  features p !! (DATA, "NDWI"%string) = Some (Array ndwi) ->
  features p !! (MASK_TIMELESS, "NOMINAL_WATER"%string) = Some (Array nominal) ->
  np.shape ndwi = [t; h; w; c] ->
  np.shape nominal = [h; w; d] ->
  np.well_shaped nominal = true ->
  1 <= t -> 1 <= c ->
  0 < np.count_nonzero nominal ->
  exists p' wm wl,
    workshop.WaterDetector_execute threshold_otsu p = (Ok tt, p') /\
    features p' !! (MASK, "WATER_MASK"%string) = Some (Array wm) /\
    features p' !! (SCALAR, "WATER_LEVEL"%string) = Some (Array wl) /\
    np.data wl = map (fun s => float.round float.binary64
                                 (nat_quot (np.count_nonzero s) (np.count_nonzero nominal)))
                     (slices wm).
Proof.
  intros Hn Hm Hs Hs' Hws Ht Hc Hcnt.
  destruct (water_detector_run_mask threshold_otsu p ndwi nominal t h w c d
              Hn Hm Hs Hs' Hws Ht Hc Hcnt) as (wm & lv & Hrun & _ & _ & _ & Hlv).
  eexists. exists wm, (np.newaxis_last (np.of_scalars lv)).
  split; [exact Hrun|]. simpl.
  split; [rewrite lookup_insert_ne by discriminate; apply lookup_insert_eq|].
  split; [apply lookup_insert_eq | exact Hlv].
Qed.

Lemma water_level_matches_mask_witness :
  exists p' wm wl,
    workshop.WaterDetector_execute (fun _ => 0%Q)
      (mk_EOPatch (<[(DATA, "NDWI"%string) := Array (np.mk_ndarray [1; 1; 2; 1] [2; 2]%Q)]>
                     {[ (MASK_TIMELESS, "NOMINAL_WATER"%string)
                        := Array (np.mk_ndarray [1; 2; 1] [1; 0]%Q) ]})
                  None [])
    = (Ok tt, p') /\
    features p' !! (MASK, "WATER_MASK"%string) = Some (Array wm) /\
    features p' !! (SCALAR, "WATER_LEVEL"%string) = Some (Array wl) /\
    np.data wl = map (fun s => float.round float.binary64
                                 (nat_quot (np.count_nonzero s) 1))
                     (slices wm).
Proof.
  apply (water_level_matches_mask (fun _ => 0%Q) _
           (np.mk_ndarray [1; 1; 2; 1] [2; 2]%Q) (np.mk_ndarray [1; 2; 1] [1; 0]%Q)
           1 1 2 1 1); try reflexivity; try lia.
  vm_compute. lia.
Defined.

(** X27.  Without [data['NDWI']] the water detector raises [KeyError]; with
    an NDWI stack that has a band but without
    [mask_timeless['NOMINAL_WATER']] it raises [KeyError] as well; the patch
    is as it was. *)
Theorem water_detector_missing_features (threshold_otsu : np.ndarray -> Q) (p : EOPatch) :
  (features p !! (DATA, "NDWI"%string) = None ->
   workshop.WaterDetector_execute threshold_otsu p = (Raise KeyError, p)) /\
  (forall ndwi t h w c,
      features p !! (DATA, "NDWI"%string) = Some (Array ndwi) ->
      np.shape ndwi = [t; h; w; c] ->
      1 <= c ->
      features p !! (MASK_TIMELESS, "NOMINAL_WATER"%string) = None ->
      workshop.WaterDetector_execute threshold_otsu p = (Raise KeyError, p)).
Proof.
  split.
  - intros Hn. unfold workshop.WaterDetector_execute, bind at 1, get_feature.
    rewrite Hn. reflexivity.
  - intros ndwi t h w c Hn Hs Hc Hm.
    destruct (detect_bands threshold_otsu h w c
                (map (np.mk_ndarray [h; w; c])
                     (np.chunks (np.prod [h; w; c]) t (np.data ndwi))))
      as (masks & Hmasks & _); [|exact Hc|].
    { apply Forall_map, Forall_forall. intros x _. reflexivity. }
    unfold workshop.WaterDetector_execute.
    rewrite (bind_get _ _ _ _ Hn). rewrite (bind_lift_ok _ ndwi) by reflexivity.
    rewrite (bind_lift_ok _ _ _ _ (iter_cons ndwi t [h; w; c] Hs)).
    rewrite (bind_lift_ok _ _ _ _ Hmasks).
    unfold bind, get_feature. rewrite Hm. reflexivity.
Qed.

Lemma water_detector_missing_features_witness :
  workshop.WaterDetector_execute (fun _ => 0%Q)
    (mk_EOPatch {[ (DATA, "NDWI"%string) := Array (np.mk_ndarray [1; 1; 2; 1] [2; 2]%Q) ]}
                None [])
  = (Raise KeyError,
     mk_EOPatch {[ (DATA, "NDWI"%string) := Array (np.mk_ndarray [1; 1; 2; 1] [2; 2]%Q) ]}
                None []).
Proof.
  apply (proj2 (water_detector_missing_features (fun _ => 0%Q) _)
           (np.mk_ndarray [1; 1; 2; 1] [2; 2]%Q) 1 1 2 1).
  - reflexivity.
  - reflexivity.
  - lia.
  - reflexivity.
Defined.

(** X28.  On an NDWI stack without any date the water detector does not
    return: the empty list of masks becomes an array of shape [(0,)], so
    the product with the nominal water has at most three dimensions, if it
    broadcasts at all, and cannot be stored as [WATER_MASK].  Whichever
    error is raised, the patch is as it was. *)
Theorem water_detector_needs_dates (threshold_otsu : np.ndarray -> Q)
        (p : EOPatch) (ndwi nominal : np.ndarray) (h w c d : nat) :
  features p !! (DATA, "NDWI"%string) = Some (Array ndwi) ->
  features p !! (MASK_TIMELESS, "NOMINAL_WATER"%string) = Some (Array nominal) ->
  np.shape ndwi = [0; h; w; c] ->
  np.shape nominal = [h; w; d] ->
  exists e, workshop.WaterDetector_execute threshold_otsu p = (Raise e, p).
Proof.
  intros Hn Hm Hs Hs'.
  pose proof (water_detector_no_dates threshold_otsu p ndwi nominal 0 h w c d
                Hn Hm Hs Hs' eq_refl) as Hno.
  destruct (water_detector_fails_clean_lemma threshold_otsu p) as [Hok | Hsame].
  - exfalso. apply (Hno (snd (workshop.WaterDetector_execute threshold_otsu p))).
    rewrite <- Hok. apply surjective_pairing.
  - destruct (workshop.WaterDetector_execute threshold_otsu p) as [[[]|e] p'] eqn:E;
      simpl in Hsame; subst p'.
    + exfalso. exact (Hno p eq_refl).
    + exists e. reflexivity.
Qed.

Lemma water_detector_needs_dates_witness :
  exists e,
    workshop.WaterDetector_execute (fun _ => 0%Q)
      (mk_EOPatch (<[(DATA, "NDWI"%string) := Array (workshop.zeros [0; 1; 2; 1])]>
                     {[ (MASK_TIMELESS, "NOMINAL_WATER"%string)
                        := Array (np.mk_ndarray [1; 2; 1] [1; 0]%Q) ]})
                  None [])
    = (Raise e,
       mk_EOPatch (<[(DATA, "NDWI"%string) := Array (workshop.zeros [0; 1; 2; 1])]>
                     {[ (MASK_TIMELESS, "NOMINAL_WATER"%string)
                        := Array (np.mk_ndarray [1; 2; 1] [1; 0]%Q) ]})
                  None []).
Proof.
  apply (water_detector_needs_dates (fun _ => 0%Q) _ (workshop.zeros [0; 1; 2; 1])
           (np.mk_ndarray [1; 2; 1] [1; 0]%Q) 1 2 1 1); reflexivity.
Defined.

(** X29.  The workshop's coverage task needs dates and pixels: without a
    date [np.apply_along_axis] raises [ValueError], with dates that have no
    element the quotient of [calculate_coverage] raises
    [ZeroDivisionError]; the patch is as it was. *)
Theorem coverage_task_degenerate (p : EOPatch) (vd : np.ndarray) (t h w c : nat) :
  features p !! (MASK, "VALID_DATA"%string) = Some (Array vd) ->
  np.shape vd = [t; h; w; c] ->
  (t = 0 -> workshop.AddValidDataCoverage_execute p = (Raise ValueError, p)) /\
  (1 <= t -> h * w * c = 0 ->
   workshop.AddValidDataCoverage_execute p = (Raise ZeroDivisionError, p)).
Proof.
  intros Hget Hshape.
  assert (Hreshape : np.reshape vd [t; h * w * c]
                     = Ok (np.mk_ndarray [t; h * w * c] (np.data vd))).
  { unfold np.reshape, np.size. rewrite Hshape. simpl.
    replace (t * (h * w * c * 1) =? t * (h * (w * (c * 1)))) with true
      by (symmetry; apply Nat.eqb_eq; lia).
    reflexivity. }
  split.
  - intros Ht. unfold workshop.AddValidDataCoverage_execute.
    rewrite (bind_get _ _ _ _ Hget). rewrite (bind_lift_ok _ vd) by reflexivity.
    rewrite Hshape. rewrite (bind_lift_ok _ _ _ _ Hreshape).
    apply bind_lift_raise. unfold np.apply_along_axis_1. simpl. rewrite Ht. reflexivity.
  - intros Ht Hz. unfold workshop.AddValidDataCoverage_execute.
    rewrite (bind_get _ _ _ _ Hget). rewrite (bind_lift_ok _ vd) by reflexivity.
    rewrite Hshape. rewrite (bind_lift_ok _ _ _ _ Hreshape).
    apply bind_lift_raise. unfold np.apply_along_axis_1. cbn [np.shape np.data].
    destruct t as [|t']; [lia|]. cbn [Nat.eqb np.chunks map]. rewrite Hz.
    rewrite (rmap_raise _ ZeroDivisionError); reflexivity.
Qed.

Lemma coverage_task_degenerate_witness :
  workshop.AddValidDataCoverage_execute
    (mk_EOPatch {[ (MASK, "VALID_DATA"%string) := Array (workshop.zeros [0; 1; 1; 1]) ]}
                None [])
  = (Raise ValueError,
     mk_EOPatch {[ (MASK, "VALID_DATA"%string) := Array (workshop.zeros [0; 1; 1; 1]) ]}
                None []).
Proof.
  refine (proj1 (coverage_task_degenerate _ (workshop.zeros [0; 1; 1; 1]) 0 1 1 1 _ _) _);
    reflexivity.
Defined.

(** X30.  On a stack without any date the time-lapse task writes no
    frame and leaves the patch as it was, however many bands the stack has;
    once the writer is open it returns the patch. *)
Theorem timelapse_no_dates (get_writer : string -> Q -> result unit)
        (dtype : np.dtype) (self : timelapse.TimeLapseTask) (eopatch : EOPatch)
        (bands : np.ndarray) (h w c : nat) :
  features eopatch !! (DATA, "BANDS-S2-L1C"%string) = Some (Array bands) ->
  np.shape bands = [0; h; w; c] ->
  snd (fst (timelapse.TimeLapseTask_execute get_writer dtype self eopatch)) = eopatch /\
  snd (timelapse.TimeLapseTask_execute get_writer dtype self eopatch) = [] /\
  (get_writer (timelapse.os_path_join (timelapse.project_dir self)
                                      (timelapse.filename self))
              (timelapse.fps self) = Ok tt ->
   timelapse.TimeLapseTask_execute get_writer dtype self eopatch = (Ok tt, eopatch, [])).
Proof.
  intros Hget Hsh.
  assert (Hopen : forall u,
            get_writer (timelapse.os_path_join (timelapse.project_dir self)
                                               (timelapse.filename self))
                       (timelapse.fps self) = Ok u ->
            timelapse.TimeLapseTask_execute get_writer dtype self eopatch
            = (Ok tt, eopatch, [])).
  { intros u Hw. rewrite (timelapse_writer_open _ _ _ _ u Hw).
    rewrite (bind_get _ _ _ _ Hget). rewrite (bind_lift_ok _ bands) by reflexivity.
    unfold lift. rewrite (iter_cons bands 0 [h; w; c] Hsh). reflexivity. }
  destruct (get_writer (timelapse.os_path_join (timelapse.project_dir self)
                                               (timelapse.filename self))
                       (timelapse.fps self)) as [u|e] eqn:Hw.
  - rewrite (Hopen u eq_refl).
    split; [reflexivity | split; [reflexivity | intros _; reflexivity]].
  - rewrite (timelapse_writer_fails _ _ _ _ e Hw).
    split; [reflexivity | split; [reflexivity | discriminate]].
Qed.

Lemma timelapse_no_dates_witness :
  timelapse.TimeLapseTask_execute (fun _ _ => Ok tt) np.float32
    (timelapse.mk_TimeLapseTask "." "timelapse.gif" 5 1)
    (mk_EOPatch {[ (DATA, "BANDS-S2-L1C"%string) := Array (workshop.zeros [0; 2; 2; 3]) ]}
                None [])
  = (Ok tt,
     mk_EOPatch {[ (DATA, "BANDS-S2-L1C"%string) := Array (workshop.zeros [0; 2; 2; 3]) ]}
                None [],
     []).
Proof.
  refine (proj2 (proj2 (timelapse_no_dates (fun _ _ => Ok tt) np.float32 _ _
                          (workshop.zeros [0; 2; 2; 3]) 2 2 3 _ _)) _); reflexivity.
Defined.
